(** * Video transcription agent: the streaming pipeline and its client

    A shallow embedding of

    - [src/app/api/process/route.ts]: the adapters [transcribeAudio] and
      [analyzeFrame] and the streaming coordinator [POST], with the event
      stream it writes to;
    - [src/app/page.tsx]: the frame sampler [extractFramesFromVideo], the
      audio extractor [extractAudioFromVideo] and the submission
      [handleSubmit];
    - [src/app/api/generate-document/route.ts]: the report.

    The external collaborators (the speech-to-text and vision services, the
    HTTP consumer of the event stream, the media element, the recorder) are
    the environment: they appear as oracles and as schedules of signals. *)

From Stdlib Require Import String Ascii List NArith ZArith QArith Qround Lia Bool Arith.
From Stdlib Require Import DecimalString.
Import ListNotations.

Local Open Scope nat_scope.
Local Open Scope list_scope.
Local Open Scope string_scope.

(* ================================================================== *)
(** * JavaScript values used by the code *)

Module JS.

(** A thrown value, seen through the only property the code reads,
    [error.message]; [None] is a thrown value without a message. What the
    platform and the service clients throw are objects, so reading the
    property never fails. *)
Record Error := mkError { message : option string }.

(** The outcome of an awaited promise. *)
Inductive Settled (A : Type) : Type :=
| Fulfilled (a : A)
| Rejected (e : Error).
Arguments Fulfilled {A} a.
Arguments Rejected {A} e.

(** ToBoolean, for the values the request body carries. *)
Class Truthy (A : Type) := truthy : A -> bool.

#[export] Instance Truthy_string : Truthy string :=
  fun s => match s with EmptyString => false | String _ _ => true end.
(** Every array is truthy, the empty one too. *)
#[export] Instance Truthy_array {A} : Truthy (list A) := fun _ => true.
(** [None] stands for an absent ([undefined]) or [null] property. *)
#[export] Instance Truthy_optional {A} `{Truthy A} : Truthy (option A) :=
  fun o => match o with Some a => truthy a | None => false end.

(** [`${v}`] for a property that may be undefined. *)
Definition template (v : option string) : string :=
  match v with Some s => s | None => "undefined" end.

(** [v || d] for a property that may be undefined. *)
Definition or_else (v : option string) (d : string) : string :=
  match v with Some s => if truthy s then s else d | None => d end.

(** [`${n}`] for a non-negative integer. *)
Definition decimal (n : nat) : string :=
  NilEmpty.string_of_uint (Nat.to_uint n).

(** ** Strings whose characters the code inspects

    The answer of the vision service is trimmed and put in upper case, so
    it is kept as JavaScript has it: a sequence of UTF-16 code units. *)

Definition Text := list N.

(** The code units of a literal of the ASCII range. *)
Definition text (s : string) : Text :=
  map N_of_ascii (list_ascii_of_string s).

(** [a === b] on strings. *)
Fixpoint sameText (a b : Text) : bool :=
  match a, b with
  | [], [] => true
  | u :: a', v :: b' => N.eqb u v && sameText a' b'
  | _, _ => false
  end.

Local Open Scope N_scope.

(** WhiteSpace of ECMAScript: TAB, VT, FF, ZWNBSP (U+FEFF) and the code
    points of category Zs, which are SPACE, NO-BREAK SPACE, U+1680,
    U+2000 to U+200A, U+202F, U+205F and U+3000. *)
Definition whiteSpace : list N :=
  [ 9; 11; 12; 65279;
    32; 160; 5760;
    8192; 8193; 8194; 8195; 8196; 8197; 8198; 8199; 8200; 8201; 8202;
    8239; 8287; 12288 ].

(** LineTerminator of ECMAScript: LF, CR, LS (U+2028), PS (U+2029). *)
Definition lineTerminator : list N := [ 10; 13; 8232; 8233 ].

(** What [String.prototype.trim] strips: white space and line
    terminators. All of them are single code units. *)
Definition isWhiteSpace (u : N) : bool :=
  existsb (N.eqb u) (whiteSpace ++ lineTerminator).

Fixpoint trimStart (t : Text) : Text :=
  match t with
  | [] => []
  | u :: r => if isWhiteSpace u then trimStart r else t
  end.

Fixpoint trimEnd (t : Text) : Text :=
  match t with
  | [] => []
  | u :: r =>
      match trimEnd r with
      | [] => if isWhiteSpace u then [] else [u]
      | r' => u :: r'
      end
  end.

(** [String.prototype.trim] *)
Definition trim (t : Text) : Text := trimEnd (trimStart t).

(** The code points that the Unicode default case conversion changes when
    it converts to upper case, each with its image: the simple upper case
    mappings of UnicodeData.txt and the unconditional full mappings of
    SpecialCasing.txt, Unicode 14.0. The conversion has no rule that
    depends on the context or, for [toUpperCase], on the locale. *)
Definition upperCaseMapping : list (N * list N) :=
  [ (97, [65]); (98, [66]); (99, [67]); (100, [68]);
    (101, [69]); (102, [70]); (103, [71]); (104, [72]);
    (105, [73]); (106, [74]); (107, [75]); (108, [76]);
    (109, [77]); (110, [78]); (111, [79]); (112, [80]);
    (113, [81]); (114, [82]); (115, [83]); (116, [84]);
    (117, [85]); (118, [86]); (119, [87]); (120, [88]);
    (121, [89]); (122, [90]); (181, [924]); (223, [83; 83]);
    (224, [192]); (225, [193]); (226, [194]); (227, [195]);
    (228, [196]); (229, [197]); (230, [198]); (231, [199]);
    (232, [200]); (233, [201]); (234, [202]); (235, [203]);
    (236, [204]); (237, [205]); (238, [206]); (239, [207]);
    (240, [208]); (241, [209]); (242, [210]); (243, [211]);
    (244, [212]); (245, [213]); (246, [214]); (248, [216]);
    (249, [217]); (250, [218]); (251, [219]); (252, [220]);
    (253, [221]); (254, [222]); (255, [376]); (257, [256]);
    (259, [258]); (261, [260]); (263, [262]); (265, [264]);
    (267, [266]); (269, [268]); (271, [270]); (273, [272]);
    (275, [274]); (277, [276]); (279, [278]); (281, [280]);
    (283, [282]); (285, [284]); (287, [286]); (289, [288]);
    (291, [290]); (293, [292]); (295, [294]); (297, [296]);
    (299, [298]); (301, [300]); (303, [302]); (305, [73]);
    (307, [306]); (309, [308]); (311, [310]); (314, [313]);
    (316, [315]); (318, [317]); (320, [319]); (322, [321]);
    (324, [323]); (326, [325]); (328, [327]); (329, [700; 78]);
    (331, [330]); (333, [332]); (335, [334]); (337, [336]);
    (339, [338]); (341, [340]); (343, [342]); (345, [344]);
    (347, [346]); (349, [348]); (351, [350]); (353, [352]);
    (355, [354]); (357, [356]); (359, [358]); (361, [360]);
    (363, [362]); (365, [364]); (367, [366]); (369, [368]);
    (371, [370]); (373, [372]); (375, [374]); (378, [377]);
    (380, [379]); (382, [381]); (383, [83]); (384, [579]);
    (387, [386]); (389, [388]); (392, [391]); (396, [395]);
    (402, [401]); (405, [502]); (409, [408]); (410, [573]);
    (414, [544]); (417, [416]); (419, [418]); (421, [420]);
    (424, [423]); (429, [428]); (432, [431]); (436, [435]);
    (438, [437]); (441, [440]); (445, [444]); (447, [503]);
    (453, [452]); (454, [452]); (456, [455]); (457, [455]);
    (459, [458]); (460, [458]); (462, [461]); (464, [463]);
    (466, [465]); (468, [467]); (470, [469]); (472, [471]);
    (474, [473]); (476, [475]); (477, [398]); (479, [478]);
    (481, [480]); (483, [482]); (485, [484]); (487, [486]);
    (489, [488]); (491, [490]); (493, [492]); (495, [494]);
    (496, [74; 780]); (498, [497]); (499, [497]); (501, [500]);
    (505, [504]); (507, [506]); (509, [508]); (511, [510]);
    (513, [512]); (515, [514]); (517, [516]); (519, [518]);
    (521, [520]); (523, [522]); (525, [524]); (527, [526]);
    (529, [528]); (531, [530]); (533, [532]); (535, [534]);
    (537, [536]); (539, [538]); (541, [540]); (543, [542]);
    (547, [546]); (549, [548]); (551, [550]); (553, [552]);
    (555, [554]); (557, [556]); (559, [558]); (561, [560]);
    (563, [562]); (572, [571]); (575, [11390]); (576, [11391]);
    (578, [577]); (583, [582]); (585, [584]); (587, [586]);
    (589, [588]); (591, [590]); (592, [11375]); (593, [11373]);
    (594, [11376]); (595, [385]); (596, [390]); (598, [393]);
    (599, [394]); (601, [399]); (603, [400]); (604, [42923]);
    (608, [403]); (609, [42924]); (611, [404]); (613, [42893]);
    (614, [42922]); (616, [407]); (617, [406]); (618, [42926]);
    (619, [11362]); (620, [42925]); (623, [412]); (625, [11374]);
    (626, [413]); (629, [415]); (637, [11364]); (640, [422]);
    (642, [42949]); (643, [425]); (647, [42929]); (648, [430]);
    (649, [580]); (650, [433]); (651, [434]); (652, [581]);
    (658, [439]); (669, [42930]); (670, [42928]); (837, [921]);
    (881, [880]); (883, [882]); (887, [886]); (891, [1021]);
    (892, [1022]); (893, [1023]); (912, [921; 776; 769]); (940, [902]);
    (941, [904]); (942, [905]); (943, [906]); (944, [933; 776; 769]);
    (945, [913]); (946, [914]); (947, [915]); (948, [916]);
    (949, [917]); (950, [918]); (951, [919]); (952, [920]);
    (953, [921]); (954, [922]); (955, [923]); (956, [924]);
    (957, [925]); (958, [926]); (959, [927]); (960, [928]);
    (961, [929]); (962, [931]); (963, [931]); (964, [932]);
    (965, [933]); (966, [934]); (967, [935]); (968, [936]);
    (969, [937]); (970, [938]); (971, [939]); (972, [908]);
    (973, [910]); (974, [911]); (976, [914]); (977, [920]);
    (981, [934]); (982, [928]); (983, [975]); (985, [984]);
    (987, [986]); (989, [988]); (991, [990]); (993, [992]);
    (995, [994]); (997, [996]); (999, [998]); (1001, [1000]);
    (1003, [1002]); (1005, [1004]); (1007, [1006]); (1008, [922]);
    (1009, [929]); (1010, [1017]); (1011, [895]); (1013, [917]);
    (1016, [1015]); (1019, [1018]); (1072, [1040]); (1073, [1041]);
    (1074, [1042]); (1075, [1043]); (1076, [1044]); (1077, [1045]);
    (1078, [1046]); (1079, [1047]); (1080, [1048]); (1081, [1049]);
    (1082, [1050]); (1083, [1051]); (1084, [1052]); (1085, [1053]);
    (1086, [1054]); (1087, [1055]); (1088, [1056]); (1089, [1057]);
    (1090, [1058]); (1091, [1059]); (1092, [1060]); (1093, [1061]);
    (1094, [1062]); (1095, [1063]); (1096, [1064]); (1097, [1065]);
    (1098, [1066]); (1099, [1067]); (1100, [1068]); (1101, [1069]);
    (1102, [1070]); (1103, [1071]); (1104, [1024]); (1105, [1025]);
    (1106, [1026]); (1107, [1027]); (1108, [1028]); (1109, [1029]);
    (1110, [1030]); (1111, [1031]); (1112, [1032]); (1113, [1033]);
    (1114, [1034]); (1115, [1035]); (1116, [1036]); (1117, [1037]);
    (1118, [1038]); (1119, [1039]); (1121, [1120]); (1123, [1122]);
    (1125, [1124]); (1127, [1126]); (1129, [1128]); (1131, [1130]);
    (1133, [1132]); (1135, [1134]); (1137, [1136]); (1139, [1138]);
    (1141, [1140]); (1143, [1142]); (1145, [1144]); (1147, [1146]);
    (1149, [1148]); (1151, [1150]); (1153, [1152]); (1163, [1162]);
    (1165, [1164]); (1167, [1166]); (1169, [1168]); (1171, [1170]);
    (1173, [1172]); (1175, [1174]); (1177, [1176]); (1179, [1178]);
    (1181, [1180]); (1183, [1182]); (1185, [1184]); (1187, [1186]);
    (1189, [1188]); (1191, [1190]); (1193, [1192]); (1195, [1194]);
    (1197, [1196]); (1199, [1198]); (1201, [1200]); (1203, [1202]);
    (1205, [1204]); (1207, [1206]); (1209, [1208]); (1211, [1210]);
    (1213, [1212]); (1215, [1214]); (1218, [1217]); (1220, [1219]);
    (1222, [1221]); (1224, [1223]); (1226, [1225]); (1228, [1227]);
    (1230, [1229]); (1231, [1216]); (1233, [1232]); (1235, [1234]);
    (1237, [1236]); (1239, [1238]); (1241, [1240]); (1243, [1242]);
    (1245, [1244]); (1247, [1246]); (1249, [1248]); (1251, [1250]);
    (1253, [1252]); (1255, [1254]); (1257, [1256]); (1259, [1258]);
    (1261, [1260]); (1263, [1262]); (1265, [1264]); (1267, [1266]);
    (1269, [1268]); (1271, [1270]); (1273, [1272]); (1275, [1274]);
    (1277, [1276]); (1279, [1278]); (1281, [1280]); (1283, [1282]);
    (1285, [1284]); (1287, [1286]); (1289, [1288]); (1291, [1290]);
    (1293, [1292]); (1295, [1294]); (1297, [1296]); (1299, [1298]);
    (1301, [1300]); (1303, [1302]); (1305, [1304]); (1307, [1306]);
    (1309, [1308]); (1311, [1310]); (1313, [1312]); (1315, [1314]);
    (1317, [1316]); (1319, [1318]); (1321, [1320]); (1323, [1322]);
    (1325, [1324]); (1327, [1326]); (1377, [1329]); (1378, [1330]);
    (1379, [1331]); (1380, [1332]); (1381, [1333]); (1382, [1334]);
    (1383, [1335]); (1384, [1336]); (1385, [1337]); (1386, [1338]);
    (1387, [1339]); (1388, [1340]); (1389, [1341]); (1390, [1342]);
    (1391, [1343]); (1392, [1344]); (1393, [1345]); (1394, [1346]);
    (1395, [1347]); (1396, [1348]); (1397, [1349]); (1398, [1350]);
    (1399, [1351]); (1400, [1352]); (1401, [1353]); (1402, [1354]);
    (1403, [1355]); (1404, [1356]); (1405, [1357]); (1406, [1358]);
    (1407, [1359]); (1408, [1360]); (1409, [1361]); (1410, [1362]);
    (1411, [1363]); (1412, [1364]); (1413, [1365]); (1414, [1366]);
    (1415, [1333; 1362]); (4304, [7312]); (4305, [7313]); (4306, [7314]);
    (4307, [7315]); (4308, [7316]); (4309, [7317]); (4310, [7318]);
    (4311, [7319]); (4312, [7320]); (4313, [7321]); (4314, [7322]);
    (4315, [7323]); (4316, [7324]); (4317, [7325]); (4318, [7326]);
    (4319, [7327]); (4320, [7328]); (4321, [7329]); (4322, [7330]);
    (4323, [7331]); (4324, [7332]); (4325, [7333]); (4326, [7334]);
    (4327, [7335]); (4328, [7336]); (4329, [7337]); (4330, [7338]);
    (4331, [7339]); (4332, [7340]); (4333, [7341]); (4334, [7342]);
    (4335, [7343]); (4336, [7344]); (4337, [7345]); (4338, [7346]);
    (4339, [7347]); (4340, [7348]); (4341, [7349]); (4342, [7350]);
    (4343, [7351]); (4344, [7352]); (4345, [7353]); (4346, [7354]);
    (4349, [7357]); (4350, [7358]); (4351, [7359]); (5112, [5104]);
    (5113, [5105]); (5114, [5106]); (5115, [5107]); (5116, [5108]);
    (5117, [5109]); (7296, [1042]); (7297, [1044]); (7298, [1054]);
    (7299, [1057]); (7300, [1058]); (7301, [1058]); (7302, [1066]);
    (7303, [1122]); (7304, [42570]); (7545, [42877]); (7549, [11363]);
    (7566, [42950]); (7681, [7680]); (7683, [7682]); (7685, [7684]);
    (7687, [7686]); (7689, [7688]); (7691, [7690]); (7693, [7692]);
    (7695, [7694]); (7697, [7696]); (7699, [7698]); (7701, [7700]);
    (7703, [7702]); (7705, [7704]); (7707, [7706]); (7709, [7708]);
    (7711, [7710]); (7713, [7712]); (7715, [7714]); (7717, [7716]);
    (7719, [7718]); (7721, [7720]); (7723, [7722]); (7725, [7724]);
    (7727, [7726]); (7729, [7728]); (7731, [7730]); (7733, [7732]);
    (7735, [7734]); (7737, [7736]); (7739, [7738]); (7741, [7740]);
    (7743, [7742]); (7745, [7744]); (7747, [7746]); (7749, [7748]);
    (7751, [7750]); (7753, [7752]); (7755, [7754]); (7757, [7756]);
    (7759, [7758]); (7761, [7760]); (7763, [7762]); (7765, [7764]);
    (7767, [7766]); (7769, [7768]); (7771, [7770]); (7773, [7772]);
    (7775, [7774]); (7777, [7776]); (7779, [7778]); (7781, [7780]);
    (7783, [7782]); (7785, [7784]); (7787, [7786]); (7789, [7788]);
    (7791, [7790]); (7793, [7792]); (7795, [7794]); (7797, [7796]);
    (7799, [7798]); (7801, [7800]); (7803, [7802]); (7805, [7804]);
    (7807, [7806]); (7809, [7808]); (7811, [7810]); (7813, [7812]);
    (7815, [7814]); (7817, [7816]); (7819, [7818]); (7821, [7820]);
    (7823, [7822]); (7825, [7824]); (7827, [7826]); (7829, [7828]);
    (7830, [72; 817]); (7831, [84; 776]); (7832, [87; 778]); (7833, [89; 778]);
    (7834, [65; 702]); (7835, [7776]); (7841, [7840]); (7843, [7842]);
    (7845, [7844]); (7847, [7846]); (7849, [7848]); (7851, [7850]);
    (7853, [7852]); (7855, [7854]); (7857, [7856]); (7859, [7858]);
    (7861, [7860]); (7863, [7862]); (7865, [7864]); (7867, [7866]);
    (7869, [7868]); (7871, [7870]); (7873, [7872]); (7875, [7874]);
    (7877, [7876]); (7879, [7878]); (7881, [7880]); (7883, [7882]);
    (7885, [7884]); (7887, [7886]); (7889, [7888]); (7891, [7890]);
    (7893, [7892]); (7895, [7894]); (7897, [7896]); (7899, [7898]);
    (7901, [7900]); (7903, [7902]); (7905, [7904]); (7907, [7906]);
    (7909, [7908]); (7911, [7910]); (7913, [7912]); (7915, [7914]);
    (7917, [7916]); (7919, [7918]); (7921, [7920]); (7923, [7922]);
    (7925, [7924]); (7927, [7926]); (7929, [7928]); (7931, [7930]);
    (7933, [7932]); (7935, [7934]); (7936, [7944]); (7937, [7945]);
    (7938, [7946]); (7939, [7947]); (7940, [7948]); (7941, [7949]);
    (7942, [7950]); (7943, [7951]); (7952, [7960]); (7953, [7961]);
    (7954, [7962]); (7955, [7963]); (7956, [7964]); (7957, [7965]);
    (7968, [7976]); (7969, [7977]); (7970, [7978]); (7971, [7979]);
    (7972, [7980]); (7973, [7981]); (7974, [7982]); (7975, [7983]);
    (7984, [7992]); (7985, [7993]); (7986, [7994]); (7987, [7995]);
    (7988, [7996]); (7989, [7997]); (7990, [7998]); (7991, [7999]);
    (8000, [8008]); (8001, [8009]); (8002, [8010]); (8003, [8011]);
    (8004, [8012]); (8005, [8013]); (8016, [933; 787]); (8017, [8025]);
    (8018, [933; 787; 768]); (8019, [8027]); (8020, [933; 787; 769]); (8021, [8029]);
    (8022, [933; 787; 834]); (8023, [8031]); (8032, [8040]); (8033, [8041]);
    (8034, [8042]); (8035, [8043]); (8036, [8044]); (8037, [8045]);
    (8038, [8046]); (8039, [8047]); (8048, [8122]); (8049, [8123]);
    (8050, [8136]); (8051, [8137]); (8052, [8138]); (8053, [8139]);
    (8054, [8154]); (8055, [8155]); (8056, [8184]); (8057, [8185]);
    (8058, [8170]); (8059, [8171]); (8060, [8186]); (8061, [8187]);
    (8064, [7944; 921]); (8065, [7945; 921]); (8066, [7946; 921]); (8067, [7947; 921]);
    (8068, [7948; 921]); (8069, [7949; 921]); (8070, [7950; 921]); (8071, [7951; 921]);
    (8072, [7944; 921]); (8073, [7945; 921]); (8074, [7946; 921]); (8075, [7947; 921]);
    (8076, [7948; 921]); (8077, [7949; 921]); (8078, [7950; 921]); (8079, [7951; 921]);
    (8080, [7976; 921]); (8081, [7977; 921]); (8082, [7978; 921]); (8083, [7979; 921]);
    (8084, [7980; 921]); (8085, [7981; 921]); (8086, [7982; 921]); (8087, [7983; 921]);
    (8088, [7976; 921]); (8089, [7977; 921]); (8090, [7978; 921]); (8091, [7979; 921]);
    (8092, [7980; 921]); (8093, [7981; 921]); (8094, [7982; 921]); (8095, [7983; 921]);
    (8096, [8040; 921]); (8097, [8041; 921]); (8098, [8042; 921]); (8099, [8043; 921]);
    (8100, [8044; 921]); (8101, [8045; 921]); (8102, [8046; 921]); (8103, [8047; 921]);
    (8104, [8040; 921]); (8105, [8041; 921]); (8106, [8042; 921]); (8107, [8043; 921]);
    (8108, [8044; 921]); (8109, [8045; 921]); (8110, [8046; 921]); (8111, [8047; 921]);
    (8112, [8120]); (8113, [8121]); (8114, [8122; 921]); (8115, [913; 921]);
    (8116, [902; 921]); (8118, [913; 834]); (8119, [913; 834; 921]); (8124, [913; 921]);
    (8126, [921]); (8130, [8138; 921]); (8131, [919; 921]); (8132, [905; 921]);
    (8134, [919; 834]); (8135, [919; 834; 921]); (8140, [919; 921]); (8144, [8152]);
    (8145, [8153]); (8146, [921; 776; 768]); (8147, [921; 776; 769]); (8150, [921; 834]);
    (8151, [921; 776; 834]); (8160, [8168]); (8161, [8169]); (8162, [933; 776; 768]);
    (8163, [933; 776; 769]); (8164, [929; 787]); (8165, [8172]); (8166, [933; 834]);
    (8167, [933; 776; 834]); (8178, [8186; 921]); (8179, [937; 921]); (8180, [911; 921]);
    (8182, [937; 834]); (8183, [937; 834; 921]); (8188, [937; 921]); (8526, [8498]);
    (8560, [8544]); (8561, [8545]); (8562, [8546]); (8563, [8547]);
    (8564, [8548]); (8565, [8549]); (8566, [8550]); (8567, [8551]);
    (8568, [8552]); (8569, [8553]); (8570, [8554]); (8571, [8555]);
    (8572, [8556]); (8573, [8557]); (8574, [8558]); (8575, [8559]);
    (8580, [8579]); (9424, [9398]); (9425, [9399]); (9426, [9400]);
    (9427, [9401]); (9428, [9402]); (9429, [9403]); (9430, [9404]);
    (9431, [9405]); (9432, [9406]); (9433, [9407]); (9434, [9408]);
    (9435, [9409]); (9436, [9410]); (9437, [9411]); (9438, [9412]);
    (9439, [9413]); (9440, [9414]); (9441, [9415]); (9442, [9416]);
    (9443, [9417]); (9444, [9418]); (9445, [9419]); (9446, [9420]);
    (9447, [9421]); (9448, [9422]); (9449, [9423]); (11312, [11264]);
    (11313, [11265]); (11314, [11266]); (11315, [11267]); (11316, [11268]);
    (11317, [11269]); (11318, [11270]); (11319, [11271]); (11320, [11272]);
    (11321, [11273]); (11322, [11274]); (11323, [11275]); (11324, [11276]);
    (11325, [11277]); (11326, [11278]); (11327, [11279]); (11328, [11280]);
    (11329, [11281]); (11330, [11282]); (11331, [11283]); (11332, [11284]);
    (11333, [11285]); (11334, [11286]); (11335, [11287]); (11336, [11288]);
    (11337, [11289]); (11338, [11290]); (11339, [11291]); (11340, [11292]);
    (11341, [11293]); (11342, [11294]); (11343, [11295]); (11344, [11296]);
    (11345, [11297]); (11346, [11298]); (11347, [11299]); (11348, [11300]);
    (11349, [11301]); (11350, [11302]); (11351, [11303]); (11352, [11304]);
    (11353, [11305]); (11354, [11306]); (11355, [11307]); (11356, [11308]);
    (11357, [11309]); (11358, [11310]); (11359, [11311]); (11361, [11360]);
    (11365, [570]); (11366, [574]); (11368, [11367]); (11370, [11369]);
    (11372, [11371]); (11379, [11378]); (11382, [11381]); (11393, [11392]);
    (11395, [11394]); (11397, [11396]); (11399, [11398]); (11401, [11400]);
    (11403, [11402]); (11405, [11404]); (11407, [11406]); (11409, [11408]);
    (11411, [11410]); (11413, [11412]); (11415, [11414]); (11417, [11416]);
    (11419, [11418]); (11421, [11420]); (11423, [11422]); (11425, [11424]);
    (11427, [11426]); (11429, [11428]); (11431, [11430]); (11433, [11432]);
    (11435, [11434]); (11437, [11436]); (11439, [11438]); (11441, [11440]);
    (11443, [11442]); (11445, [11444]); (11447, [11446]); (11449, [11448]);
    (11451, [11450]); (11453, [11452]); (11455, [11454]); (11457, [11456]);
    (11459, [11458]); (11461, [11460]); (11463, [11462]); (11465, [11464]);
    (11467, [11466]); (11469, [11468]); (11471, [11470]); (11473, [11472]);
    (11475, [11474]); (11477, [11476]); (11479, [11478]); (11481, [11480]);
    (11483, [11482]); (11485, [11484]); (11487, [11486]); (11489, [11488]);
    (11491, [11490]); (11500, [11499]); (11502, [11501]); (11507, [11506]);
    (11520, [4256]); (11521, [4257]); (11522, [4258]); (11523, [4259]);
    (11524, [4260]); (11525, [4261]); (11526, [4262]); (11527, [4263]);
    (11528, [4264]); (11529, [4265]); (11530, [4266]); (11531, [4267]);
    (11532, [4268]); (11533, [4269]); (11534, [4270]); (11535, [4271]);
    (11536, [4272]); (11537, [4273]); (11538, [4274]); (11539, [4275]);
    (11540, [4276]); (11541, [4277]); (11542, [4278]); (11543, [4279]);
    (11544, [4280]); (11545, [4281]); (11546, [4282]); (11547, [4283]);
    (11548, [4284]); (11549, [4285]); (11550, [4286]); (11551, [4287]);
    (11552, [4288]); (11553, [4289]); (11554, [4290]); (11555, [4291]);
    (11556, [4292]); (11557, [4293]); (11559, [4295]); (11565, [4301]);
    (42561, [42560]); (42563, [42562]); (42565, [42564]); (42567, [42566]);
    (42569, [42568]); (42571, [42570]); (42573, [42572]); (42575, [42574]);
    (42577, [42576]); (42579, [42578]); (42581, [42580]); (42583, [42582]);
    (42585, [42584]); (42587, [42586]); (42589, [42588]); (42591, [42590]);
    (42593, [42592]); (42595, [42594]); (42597, [42596]); (42599, [42598]);
    (42601, [42600]); (42603, [42602]); (42605, [42604]); (42625, [42624]);
    (42627, [42626]); (42629, [42628]); (42631, [42630]); (42633, [42632]);
    (42635, [42634]); (42637, [42636]); (42639, [42638]); (42641, [42640]);
    (42643, [42642]); (42645, [42644]); (42647, [42646]); (42649, [42648]);
    (42651, [42650]); (42787, [42786]); (42789, [42788]); (42791, [42790]);
    (42793, [42792]); (42795, [42794]); (42797, [42796]); (42799, [42798]);
    (42803, [42802]); (42805, [42804]); (42807, [42806]); (42809, [42808]);
    (42811, [42810]); (42813, [42812]); (42815, [42814]); (42817, [42816]);
    (42819, [42818]); (42821, [42820]); (42823, [42822]); (42825, [42824]);
    (42827, [42826]); (42829, [42828]); (42831, [42830]); (42833, [42832]);
    (42835, [42834]); (42837, [42836]); (42839, [42838]); (42841, [42840]);
    (42843, [42842]); (42845, [42844]); (42847, [42846]); (42849, [42848]);
    (42851, [42850]); (42853, [42852]); (42855, [42854]); (42857, [42856]);
    (42859, [42858]); (42861, [42860]); (42863, [42862]); (42874, [42873]);
    (42876, [42875]); (42879, [42878]); (42881, [42880]); (42883, [42882]);
    (42885, [42884]); (42887, [42886]); (42892, [42891]); (42897, [42896]);
    (42899, [42898]); (42900, [42948]); (42903, [42902]); (42905, [42904]);
    (42907, [42906]); (42909, [42908]); (42911, [42910]); (42913, [42912]);
    (42915, [42914]); (42917, [42916]); (42919, [42918]); (42921, [42920]);
    (42933, [42932]); (42935, [42934]); (42937, [42936]); (42939, [42938]);
    (42941, [42940]); (42943, [42942]); (42945, [42944]); (42947, [42946]);
    (42952, [42951]); (42954, [42953]); (42961, [42960]); (42967, [42966]);
    (42969, [42968]); (42998, [42997]); (43859, [42931]); (43888, [5024]);
    (43889, [5025]); (43890, [5026]); (43891, [5027]); (43892, [5028]);
    (43893, [5029]); (43894, [5030]); (43895, [5031]); (43896, [5032]);
    (43897, [5033]); (43898, [5034]); (43899, [5035]); (43900, [5036]);
    (43901, [5037]); (43902, [5038]); (43903, [5039]); (43904, [5040]);
    (43905, [5041]); (43906, [5042]); (43907, [5043]); (43908, [5044]);
    (43909, [5045]); (43910, [5046]); (43911, [5047]); (43912, [5048]);
    (43913, [5049]); (43914, [5050]); (43915, [5051]); (43916, [5052]);
    (43917, [5053]); (43918, [5054]); (43919, [5055]); (43920, [5056]);
    (43921, [5057]); (43922, [5058]); (43923, [5059]); (43924, [5060]);
    (43925, [5061]); (43926, [5062]); (43927, [5063]); (43928, [5064]);
    (43929, [5065]); (43930, [5066]); (43931, [5067]); (43932, [5068]);
    (43933, [5069]); (43934, [5070]); (43935, [5071]); (43936, [5072]);
    (43937, [5073]); (43938, [5074]); (43939, [5075]); (43940, [5076]);
    (43941, [5077]); (43942, [5078]); (43943, [5079]); (43944, [5080]);
    (43945, [5081]); (43946, [5082]); (43947, [5083]); (43948, [5084]);
    (43949, [5085]); (43950, [5086]); (43951, [5087]); (43952, [5088]);
    (43953, [5089]); (43954, [5090]); (43955, [5091]); (43956, [5092]);
    (43957, [5093]); (43958, [5094]); (43959, [5095]); (43960, [5096]);
    (43961, [5097]); (43962, [5098]); (43963, [5099]); (43964, [5100]);
    (43965, [5101]); (43966, [5102]); (43967, [5103]); (64256, [70; 70]);
    (64257, [70; 73]); (64258, [70; 76]); (64259, [70; 70; 73]); (64260, [70; 70; 76]);
    (64261, [83; 84]); (64262, [83; 84]); (64275, [1348; 1350]); (64276, [1348; 1333]);
    (64277, [1348; 1339]); (64278, [1358; 1350]); (64279, [1348; 1341]); (65345, [65313]);
    (65346, [65314]); (65347, [65315]); (65348, [65316]); (65349, [65317]);
    (65350, [65318]); (65351, [65319]); (65352, [65320]); (65353, [65321]);
    (65354, [65322]); (65355, [65323]); (65356, [65324]); (65357, [65325]);
    (65358, [65326]); (65359, [65327]); (65360, [65328]); (65361, [65329]);
    (65362, [65330]); (65363, [65331]); (65364, [65332]); (65365, [65333]);
    (65366, [65334]); (65367, [65335]); (65368, [65336]); (65369, [65337]);
    (65370, [65338]); (66600, [66560]); (66601, [66561]); (66602, [66562]);
    (66603, [66563]); (66604, [66564]); (66605, [66565]); (66606, [66566]);
    (66607, [66567]); (66608, [66568]); (66609, [66569]); (66610, [66570]);
    (66611, [66571]); (66612, [66572]); (66613, [66573]); (66614, [66574]);
    (66615, [66575]); (66616, [66576]); (66617, [66577]); (66618, [66578]);
    (66619, [66579]); (66620, [66580]); (66621, [66581]); (66622, [66582]);
    (66623, [66583]); (66624, [66584]); (66625, [66585]); (66626, [66586]);
    (66627, [66587]); (66628, [66588]); (66629, [66589]); (66630, [66590]);
    (66631, [66591]); (66632, [66592]); (66633, [66593]); (66634, [66594]);
    (66635, [66595]); (66636, [66596]); (66637, [66597]); (66638, [66598]);
    (66639, [66599]); (66776, [66736]); (66777, [66737]); (66778, [66738]);
    (66779, [66739]); (66780, [66740]); (66781, [66741]); (66782, [66742]);
    (66783, [66743]); (66784, [66744]); (66785, [66745]); (66786, [66746]);
    (66787, [66747]); (66788, [66748]); (66789, [66749]); (66790, [66750]);
    (66791, [66751]); (66792, [66752]); (66793, [66753]); (66794, [66754]);
    (66795, [66755]); (66796, [66756]); (66797, [66757]); (66798, [66758]);
    (66799, [66759]); (66800, [66760]); (66801, [66761]); (66802, [66762]);
    (66803, [66763]); (66804, [66764]); (66805, [66765]); (66806, [66766]);
    (66807, [66767]); (66808, [66768]); (66809, [66769]); (66810, [66770]);
    (66811, [66771]); (66967, [66928]); (66968, [66929]); (66969, [66930]);
    (66970, [66931]); (66971, [66932]); (66972, [66933]); (66973, [66934]);
    (66974, [66935]); (66975, [66936]); (66976, [66937]); (66977, [66938]);
    (66979, [66940]); (66980, [66941]); (66981, [66942]); (66982, [66943]);
    (66983, [66944]); (66984, [66945]); (66985, [66946]); (66986, [66947]);
    (66987, [66948]); (66988, [66949]); (66989, [66950]); (66990, [66951]);
    (66991, [66952]); (66992, [66953]); (66993, [66954]); (66995, [66956]);
    (66996, [66957]); (66997, [66958]); (66998, [66959]); (66999, [66960]);
    (67000, [66961]); (67001, [66962]); (67003, [66964]); (67004, [66965]);
    (68800, [68736]); (68801, [68737]); (68802, [68738]); (68803, [68739]);
    (68804, [68740]); (68805, [68741]); (68806, [68742]); (68807, [68743]);
    (68808, [68744]); (68809, [68745]); (68810, [68746]); (68811, [68747]);
    (68812, [68748]); (68813, [68749]); (68814, [68750]); (68815, [68751]);
    (68816, [68752]); (68817, [68753]); (68818, [68754]); (68819, [68755]);
    (68820, [68756]); (68821, [68757]); (68822, [68758]); (68823, [68759]);
    (68824, [68760]); (68825, [68761]); (68826, [68762]); (68827, [68763]);
    (68828, [68764]); (68829, [68765]); (68830, [68766]); (68831, [68767]);
    (68832, [68768]); (68833, [68769]); (68834, [68770]); (68835, [68771]);
    (68836, [68772]); (68837, [68773]); (68838, [68774]); (68839, [68775]);
    (68840, [68776]); (68841, [68777]); (68842, [68778]); (68843, [68779]);
    (68844, [68780]); (68845, [68781]); (68846, [68782]); (68847, [68783]);
    (68848, [68784]); (68849, [68785]); (68850, [68786]); (71872, [71840]);
    (71873, [71841]); (71874, [71842]); (71875, [71843]); (71876, [71844]);
    (71877, [71845]); (71878, [71846]); (71879, [71847]); (71880, [71848]);
    (71881, [71849]); (71882, [71850]); (71883, [71851]); (71884, [71852]);
    (71885, [71853]); (71886, [71854]); (71887, [71855]); (71888, [71856]);
    (71889, [71857]); (71890, [71858]); (71891, [71859]); (71892, [71860]);
    (71893, [71861]); (71894, [71862]); (71895, [71863]); (71896, [71864]);
    (71897, [71865]); (71898, [71866]); (71899, [71867]); (71900, [71868]);
    (71901, [71869]); (71902, [71870]); (71903, [71871]); (93792, [93760]);
    (93793, [93761]); (93794, [93762]); (93795, [93763]); (93796, [93764]);
    (93797, [93765]); (93798, [93766]); (93799, [93767]); (93800, [93768]);
    (93801, [93769]); (93802, [93770]); (93803, [93771]); (93804, [93772]);
    (93805, [93773]); (93806, [93774]); (93807, [93775]); (93808, [93776]);
    (93809, [93777]); (93810, [93778]); (93811, [93779]); (93812, [93780]);
    (93813, [93781]); (93814, [93782]); (93815, [93783]); (93816, [93784]);
    (93817, [93785]); (93818, [93786]); (93819, [93787]); (93820, [93788]);
    (93821, [93789]); (93822, [93790]); (93823, [93791]); (125218, [125184]);
    (125219, [125185]); (125220, [125186]); (125221, [125187]); (125222, [125188]);
    (125223, [125189]); (125224, [125190]); (125225, [125191]); (125226, [125192]);
    (125227, [125193]); (125228, [125194]); (125229, [125195]); (125230, [125196]);
    (125231, [125197]); (125232, [125198]); (125233, [125199]); (125234, [125200]);
    (125235, [125201]); (125236, [125202]); (125237, [125203]); (125238, [125204]);
    (125239, [125205]); (125240, [125206]); (125241, [125207]); (125242, [125208]);
    (125243, [125209]); (125244, [125210]); (125245, [125211]); (125246, [125212]);
    (125247, [125213]); (125248, [125214]); (125249, [125215]); (125250, [125216]);
    (125251, [125217]) ].

(** The upper case of a code point. *)
Definition upper (c : N) : list N :=
  match find (fun entry => N.eqb (fst entry) c) upperCaseMapping with
  | Some entry => snd entry
  | None => [c]
  end.

(** UTF-16: surrogates, the code point of a surrogate pair, and the code
    units of a code point. *)
Definition isLeadingSurrogate (u : N) : bool :=
  N.leb 55296 u && N.leb u 56319.

Definition isTrailingSurrogate (u : N) : bool :=
  N.leb 56320 u && N.leb u 57343.

Definition codePointOfPair (lead trail : N) : N :=
  65536 + (lead - 55296) * 1024 + (trail - 56320).

Definition codeUnits (c : N) : Text :=
  if N.ltb c 65536 then [c]
  else [ 55296 + (c - 65536) / 1024; 56320 + (c - 65536) mod 1024 ].

(** The code units of the upper case of a code point. *)
Definition upperUnits (c : N) : Text := flat_map codeUnits (upper c).

(** [String.prototype.toUpperCase]: the string is read as code points (a
    surrogate that is not part of a pair is a code point of its own), and
    each is replaced by its upper case. *)
Fixpoint toUpperCase (t : Text) : Text :=
  match t with
  | [] => []
  | u :: rest =>
      match rest with
      | v :: rest' =>
          if isLeadingSurrogate u && isTrailingSurrogate v
          then (upperUnits (codePointOfPair u v) ++ toUpperCase rest')%list
          else (upperUnits u ++ toUpperCase rest)%list
      | [] => upperUnits u
      end
  end.

Local Close Scope N_scope.

End JS.
Import JS.

(* ================================================================== *)
(** * Data model: [interface VideoFrame], slides and stream events *)

Record VideoFrame := mkFrame { timestamp : Z; dataUrl : string }.

(** [{ image: frame.dataUrl, timestamp: frame.timestamp }] *)
Record Slide := mkSlide { image : string; slide_timestamp : Z }.

(** The three payloads written to the event stream, before
    [JSON.stringify] and the [data: ...\n\n] framing. *)
Inductive ProgressEvent :=
| progress (message : string)
| complete (transcription : string) (slides : list Slide)
| error (message : string).

(** The parsed request body, [{ audioDataUrl, frames }]. *)
Record Body := mkBody {
  audioDataUrl : option string;
  frames : option (list VideoFrame)
}.

(** A request: what [await request.json()] settles to. *)
Record NextRequest := mkRequest { json : Settled Body }.

(* ================================================================== *)
(** * The stream ([ReadableStream] with its default controller and reader)

    After the Streams standard: what [enqueue] and [close] accept and when
    they throw, where an accepted chunk goes, what a [read()] of the
    consumer takes, and what cancelling and erroring the stream do. *)

Module Stream.

Inductive State := readable | closed | errored.

Record Controller := mkController {
  state : State;                   (* [[state]] of the controlled stream *)
  closeRequested : bool;           (* [[closeRequested]] *)
  queue : list ProgressEvent;      (* [[queue]]: chunks accepted and not read yet *)
  readRequests : nat;              (* [read()] calls of the reader that wait *)
  received : list ProgressEvent    (* chunks the reader was given, oldest first *)
}.

Definition fresh : Controller :=
  {| state := readable; closeRequested := false; queue := [];
     readRequests := 0; received := [] |}.

(** ReadableStreamDefaultControllerCanCloseOrEnqueue *)
Definition canCloseOrEnqueue (c : Controller) : bool :=
  negb (closeRequested c) &&
  match state c with readable => true | _ => false end.

(** What [enqueue] and [close] throw on a controller that is closed, is
    closing or was cancelled. *)
Definition invalidState : JS.Error :=
  {| message := Some "Invalid state: Controller is already closed" |}.

(** ReadableStreamDefaultControllerEnqueue on a controller that can
    enqueue: a read request that waits is fulfilled with the chunk;
    otherwise the chunk joins the queue. *)
Definition accept (chunk : ProgressEvent) (c : Controller) : Controller :=
  match readRequests c with
  | S waiting =>
      {| state := state c; closeRequested := closeRequested c;
         queue := queue c; readRequests := waiting;
         received := (received c ++ [chunk])%list |}
  | O =>
      {| state := state c; closeRequested := closeRequested c;
         queue := (queue c ++ [chunk])%list; readRequests := 0;
         received := received c |}
  end.

(** ReadableStreamDefaultControllerClose on a controller that can close:
    with an empty queue the stream is closed at once, and the read
    requests that wait are told so; otherwise it closes when the last
    chunk is read. *)
Definition requestClose (c : Controller) : Controller :=
  match queue c with
  | [] =>
      {| state := closed; closeRequested := true; queue := [];
         readRequests := 0; received := received c |}
  | _ :: _ =>
      {| state := state c; closeRequested := true; queue := queue c;
         readRequests := readRequests c; received := received c |}
  end.

(** [reader.read()]: on a readable stream the oldest chunk of the queue,
    and the stream closes with the last chunk when [close()] was called;
    with an empty queue the request waits. On a closed or errored stream
    the request is answered at once and nothing changes. *)
Definition read (c : Controller) : Controller :=
  match state c with
  | readable =>
      match queue c with
      | chunk :: rest =>
          {| state := match closeRequested c, rest with
                      | true, [] => closed
                      | _, _ => readable
                      end;
             closeRequested := closeRequested c; queue := rest;
             readRequests := readRequests c;
             received := (received c ++ [chunk])%list |}
      | [] =>
          {| state := readable; closeRequested := closeRequested c;
             queue := []; readRequests := S (readRequests c);
             received := received c |}
      end
  | _ => c
  end.

(** The consumer cancels the stream (the caller went away):
    ReadableStreamCancel closes a readable stream and empties its
    queue. *)
Definition cancel (c : Controller) : Controller :=
  match state c with
  | readable =>
      {| state := closed; closeRequested := closeRequested c; queue := [];
         readRequests := 0; received := received c |}
  | _ => c
  end.

(** ReadableStreamDefaultControllerError: a stream that is still readable
    becomes errored and its queue is emptied; the read requests that wait
    are rejected. *)
Definition error (c : Controller) : Controller :=
  match state c with
  | readable =>
      {| state := errored; closeRequested := closeRequested c; queue := [];
         readRequests := 0; received := received c |}
  | _ => c
  end.

(** The consumer reads until the queue is empty. *)
Definition readToEnd (c : Controller) : Controller :=
  Nat.iter (length (queue c)) read c.

End Stream.

(* ================================================================== *)
(** * The coordinator of [route.ts] *)

Module Route.

(** What a run does that is visible outside the function, in order. *)
Inductive Action :=
| Enqueued (ev : ProgressEvent)        (* [controller.enqueue] accepted a chunk *)
| CloseCalled                          (* [controller.close()] succeeded *)
| TranscribeAudio (audio : string)     (* [transcribeAudio] was invoked *)
| AnalyzeFrame (i : nat) (url : string)(* [analyzeFrame] was invoked, i-th request *)
| Disconnected.                        (* the caller went away: stream cancelled *)

Record World := mkWorld {
  controller : Stream.Controller;
  awaits : nat;             (* await points passed so far *)
  trace : list Action       (* oldest first *)
}.

Definition initial : World :=
  {| controller := Stream.fresh; awaits := 0; trace := [] |}.

(** Completion of a statement: normal, or abrupt by [throw]. *)
Inductive Completion (A : Type) : Type :=
| Normal (a : A)
| Throw (e : JS.Error).
Arguments Normal {A} a.
Arguments Throw {A} e.

Definition Async (A : Type) : Type := World -> Completion A * World.

Definition ret {A} (a : A) : Async A := fun w => (Normal a, w).

Definition bind {A B} (m : Async A) (k : A -> Async B) : Async B :=
  fun w =>
    match m w with
    | (Normal a, w') => k a w'
    | (Throw e, w') => (Throw e, w')
    end.

Definition throw {A} (e : JS.Error) : Async A := fun w => (Throw e, w).

Notation "x <- m ;; k" := (bind m (fun x => k))
  (at level 61, m at next level, right associativity).
Notation "m ;; k" := (bind m (fun _ => k))
  (at level 61, right associativity).

(** [try { body } catch (error) { handler }] *)
Definition try_catch {A} (body : Async A) (handler : JS.Error -> Async A)
    : Async A :=
  fun w =>
    match body w with
    | (Normal a, w1) => (Normal a, w1)
    | (Throw e, w1) => handler e w1
    end.

(** [try { body } catch (error) { handler } finally { finalizer }]: the
    finalizer runs however the rest ended, and its own exception replaces
    the completion of the rest. *)
Definition try_catch_finally {A}
    (body : Async A) (handler : JS.Error -> Async A)
    (finalizer : Async unit) : Async A :=
  fun w =>
    let (c, w2) := try_catch body handler w in
    match finalizer w2 with
    | (Normal _, w3) => (c, w3)
    | (Throw e, w3) => (Throw e, w3)
    end.

Definition log (a : Action) (w : World) : World :=
  {| controller := controller w; awaits := awaits w;
     trace := (trace w ++ [a])%list |}.

Definition tell (a : Action) : Async unit := fun w => (Normal tt, log a w).

(** [controller.enqueue(encoder.encode(`data: ${JSON.stringify(ev)}\n\n`))] *)
Definition enqueue (ev : ProgressEvent) : Async unit :=
  fun w =>
    if Stream.canCloseOrEnqueue (controller w)
    then (Normal tt,
          log (Enqueued ev)
            {| controller := Stream.accept ev (controller w);
               awaits := awaits w; trace := trace w |})
    else (Throw Stream.invalidState, w).

(** [controller.close()] *)
Definition close : Async unit :=
  fun w =>
    if Stream.canCloseOrEnqueue (controller w)
    then (Normal tt,
          log CloseCalled
            {| controller := Stream.requestClose (controller w);
               awaits := awaits w; trace := trace w |})
    else (Throw Stream.invalidState, w).

(** The environment of one run. *)
Record Env := mkEnv {
  (* everything inside the [try] of [transcribeAudio] *)
  speechToText : string -> Settled string;
  (* everything inside the [try] of [analyzeFrame] up to
     [response.choices[0]?.message?.content], for the i-th request;
     [None] is an absent content *)
  visionJudge : nat -> string -> Settled (option Text);
  (* the await point during which the caller disconnects, if any *)
  disconnectAt : option nat;
  (* the number of [read()] calls the consumer makes while the run is
     suspended at each await point *)
  readsAt : nat -> nat
}.

Section Run.

Variable env : Env.

(** The function is suspended at an [await]; meanwhile the consumer
    reads, and the caller may disconnect, which cancels the stream. *)
Definition await : Async unit :=
  fun w =>
    let c := Nat.iter (readsAt env (awaits w)) Stream.read (controller w) in
    let w' := {| controller := c; awaits := S (awaits w);
                 trace := trace w |} in
    match disconnectAt env with
    | Some k =>
        if Nat.eqb k (awaits w)
        then (Normal tt,
              log Disconnected
                {| controller := Stream.cancel c;
                   awaits := S (awaits w); trace := trace w |})
        else (Normal tt, w')
    | None => (Normal tt, w')
    end.

(** [await request.json()] *)
Definition request_json (request : NextRequest) : Async Body :=
  await ;;
  match json request with
  | Fulfilled body => ret body
  | Rejected e => throw e
  end.

(** The call is recorded when it is made; the function then waits for
    the service, and never completes abruptly: the [catch] turns a
    failure into the sentinel string. *)
Definition transcribeAudio (audioDataUrl : string) : Async string :=
  tell (TranscribeAudio audioDataUrl) ;;
  await ;;
  match speechToText env audioDataUrl with
  | Fulfilled transcription => ret transcription
  | Rejected error' =>
      ret ("[Transcription unavailable: " ++ template (message error') ++ "]")
  end.

(** [answer === 'YES'] with
    [answer = response.choices[0]?.message?.content?.trim().toUpperCase()];
    the [catch] returns [false]. *)
Definition analyzeFrame (i : nat) (frameDataUrl : string) : Async bool :=
  tell (AnalyzeFrame i frameDataUrl) ;;
  await ;;
  match visionJudge env i frameDataUrl with
  | Fulfilled (Some content) =>
      ret (sameText (toUpperCase (trim content)) (text "YES"))
  | Fulfilled None => ret false
  | Rejected _ => ret false
  end.

(** [`Analyzing frame ${i}/${total}...`] *)
Definition analyzing (i total : nat) : string :=
  "Analyzing frame " ++ decimal i ++ "/" ++ decimal total ++ "...".

(** [Math.min(frames.length, 20)] *)
Definition bound (frames : list VideoFrame) : nat :=
  Nat.min (length frames) 20.

(** [for (let i = 0; i < Math.min(frames.length, 20); i++) { ... }]:
    [fuel] counts the iterations still allowed; the bound is at most
    20, so 20 are enough when the loop starts at 0. *)
Fixpoint for_frames (fuel : nat) (frames : list VideoFrame)
    (i : nat) (slides : list Slide) : Async (list Slide) :=
  match fuel with
  | O => ret slides
  | S fuel' =>
      if Nat.ltb i (bound frames) then
        enqueue (progress (analyzing (i + 1) (bound frames))) ;;
        match nth_error frames i with
        | None =>
            throw {| message :=
              Some "Cannot read properties of undefined (reading 'dataUrl')" |}
        | Some frame =>
            isSlide <- analyzeFrame i (dataUrl frame) ;;
            for_frames fuel' frames (S i)
              (if isSlide : bool
               then (slides ++ [{| image := dataUrl frame;
                                   slide_timestamp := timestamp frame |}])%list
               else slides)
        end
      else ret slides
  end.

(** The [try] block of [start(controller)]. *)
Definition try_block (request : NextRequest) : Async unit :=
  body <- request_json request ;;
  if negb (truthy (audioDataUrl body)) || negb (truthy (frames body))
  then
    enqueue (error "Missing audio or frames data") ;;
    close
  else
    match audioDataUrl body, frames body with
    | Some audio, Some fs =>
        enqueue (progress "Transcribing audio...") ;;
        transcription <- transcribeAudio audio ;;
        enqueue (progress "Analyzing frames for slides...") ;;
        slides <- for_frames 20 fs 0 [] ;;
        enqueue (complete transcription slides)
    | _, _ => ret tt
    end.

(** Its [catch (error)] block. *)
Definition catch_block (error' : JS.Error) : Async unit :=
  enqueue (error (or_else (message error') "Processing failed")).

(** [start(controller)], with [controller.close()] in [finally]. *)
Definition start (request : NextRequest) : Async unit :=
  try_catch_finally (try_block request) catch_block close.

(** The promise of [start] settles. When it rejects, the stream is
    errored (SetUpReadableStreamDefaultController, on rejection of the
    start promise). *)
Definition settled (run : Completion unit * World)
    : Completion unit * World :=
  match run with
  | (Normal _, _) => run
  | (Throw e, w) =>
      (Throw e,
       {| controller := Stream.error (controller w); awaits := awaits w;
          trace := trace w |})
  end.

(** One run: [POST] builds the stream, whose [start] runs on a fresh
    controller. *)
Definition POST (request : NextRequest) : Completion unit * World :=
  settled (start request initial).

End Run.

(** ** Observations on a trace *)

(** The events accepted by the stream, in order. *)
Fixpoint emitted (tr : list Action) : list ProgressEvent :=
  match tr with
  | [] => []
  | Enqueued ev :: tr' => ev :: emitted tr'
  | _ :: tr' => emitted tr'
  end.

(** The images handed to [analyzeFrame], in order. *)
Fixpoint classified (tr : list Action) : list string :=
  match tr with
  | [] => []
  | AnalyzeFrame _ url :: tr' => url :: classified tr'
  | _ :: tr' => classified tr'
  end.

(** The audio payloads handed to [transcribeAudio], in order. *)
Fixpoint transcribed (tr : list Action) : list string :=
  match tr with
  | [] => []
  | TranscribeAudio a :: tr' => a :: transcribed tr'
  | _ :: tr' => transcribed tr'
  end.

Definition is_progress (ev : ProgressEvent) : bool :=
  match ev with progress _ => true | _ => false end.

Definition is_terminal (ev : ProgressEvent) : bool :=
  match ev with progress _ => false | _ => true end.

Definition is_analyze (a : Action) : bool :=
  match a with AnalyzeFrame _ _ => true | _ => false end.

(** No [analyzeFrame] is invoked once the caller has disconnected. *)
Fixpoint quiet_after_disconnect (tr : list Action) : bool :=
  match tr with
  | [] => true
  | Disconnected :: tr' => forallb (fun a => negb (is_analyze a)) tr'
  | _ :: tr' => quiet_after_disconnect tr'
  end.

(** The stream no longer accepts chunks. *)
Definition sealed (w : World) : bool :=
  negb (Stream.canCloseOrEnqueue (controller w)).

End Route.

(* ================================================================== *)
(** * The frame sampler of [page.tsx]: [extractFramesFromVideo] *)

Module Sampler.

(** [video.duration] once the metadata is loaded: a number of seconds,
    [Infinity] for a medium without a known end, or [NaN]. *)
Inductive Duration :=
| seconds (d : Q)
| Infinity
| NaN.

(** [currentTime >= video.duration]; every comparison with [NaN] is
    false, and no time reaches [Infinity]. *)
Definition reaches (currentTime : Q) (duration : Duration) : bool :=
  match duration with
  | seconds d => Qle_bool d currentTime
  | Infinity => false
  | NaN => false
  end.

(** [const captureInterval = 5] *)
Definition captureInterval : Q := 5.

(** The variables the two callbacks close over, and the promise. *)
Record State := mkState {
  currentTime : Q;                       (* [let currentTime] *)
  frames : list VideoFrame;              (* [const frames] *)
  seeking : option Q;                    (* a seek is pending, to this position *)
  resolved : option (list VideoFrame)    (* the value given to [resolve] *)
}.

Section Video.

Variable duration : Duration.
(** [canvas.toDataURL('image/png')] after drawing the video at the
    position it was sought to. *)
Variable toDataURL : Q -> string.

Definition captureFrame (s : State) : State :=
  if reaches (currentTime s) duration
  then {| currentTime := currentTime s; frames := frames s;
          seeking := seeking s; resolved := Some (frames s) |}
  else {| currentTime := currentTime s; frames := frames s;
          seeking := Some (currentTime s); resolved := resolved s |}.

(** [video.onseeked], run when the pending seek to [position] is done. *)
Definition onseeked (position : Q) (s : State) : State :=
  let dataUrl := toDataURL position in
  captureFrame
    {| currentTime := (currentTime s + captureInterval)%Q;
       frames := (frames s ++ [{| timestamp := Qfloor (currentTime s);
                                  dataUrl := dataUrl |}])%list;
       seeking := None;
       resolved := resolved s |}.

(** [video.onloadedmetadata]: [let currentTime = 0], then the first
    [captureFrame()]. *)
Definition onloadedmetadata : State :=
  captureFrame {| currentTime := 0%Q; frames := []; seeking := None;
                  resolved := None |}.

(** The media element answers each seek with one [seeked] event; [fuel]
    bounds the number of events delivered. *)
Fixpoint deliver (fuel : nat) (s : State) : State :=
  match fuel with
  | O => s
  | S fuel' =>
      match resolved s, seeking s with
      | None, Some position => deliver fuel' (onseeked position s)
      | _, _ => s
      end
  end.

(** The value the returned promise resolves with, if it does within
    [fuel] seeks. *)
Definition extractFramesFromVideo (fuel : nat) : option (list VideoFrame) :=
  resolved (deliver fuel onloadedmetadata).

End Video.

(** The number of multiples of the interval below a duration [d]:
    the least [k >= 0] with [d <= 5 k]. *)
Definition samples (d : Q) : nat := Z.to_nat (Qceiling (d / captureInterval)).

(** The value of [currentTime] after [i] captures:
    [0 + captureInterval + ... + captureInterval]. *)
Definition targetTime (i : nat) : Q :=
  Nat.iter i (fun t => (t + captureInterval)%Q) 0%Q.

(** The frames captured at the first [k] target times. *)
Definition sampled (toDataURL : Q -> string) (k : nat) : list VideoFrame :=
  map (fun i => {| timestamp := Qfloor (targetTime i);
                   dataUrl := toDataURL (targetTime i) |}) (seq 0 k).

(** The state in which [captureFrame()] is called for the [i]-th time. *)
Definition before (toDataURL : Q -> string) (i : nat) : State :=
  {| currentTime := targetTime i; frames := sampled toDataURL i;
     seeking := None; resolved := None |}.

End Sampler.

(* ================================================================== *)
(** * The audio extractor of [page.tsx]: [extractAudioFromVideo] *)

Module Recorder.

(** [MediaRecorder.state] *)
Inductive RecordingState := inactive | recording | paused.

(** What [MediaRecorder.stop()] does on an inactive recorder: the
    MediaStream Recording standard returns at once; engines that predate
    that text threw an [InvalidStateError]. *)
Inductive StopPolicy := ReturnWhenInactive | ThrowWhenInactive.

(** Tasks queued on the event loop. *)
Inductive Task :=
| RecorderStopped (data : string)   (* fire [dataavailable], then [stop] *)
| ReaderLoadEnd (result : string).  (* fire [loadend] on the FileReader *)

Record State := mkState {
  state : RecordingState;           (* [mediaRecorder.state] *)
  audioChunks : list string;        (* [const audioChunks: Blob[]] *)
  tasks : list Task;                (* queued, oldest first *)
  pauseCalls : nat;                 (* calls of [video.pause()] made by the code *)
  resolveCalls : list string;       (* arguments of [resolve], oldest first *)
  uncaught : list string            (* exceptions that left a handler *)
}.

(** The signals of the race, and the event loop running a queued task. *)
Inductive Signal := PlaybackEnded | TimeoutFired | RunTask.

Section Recording.

Variable policy : StopPolicy.
(** The data the recorder has gathered when it is stopped. *)
Variable gathered : string.
(** [reader.readAsDataURL(new Blob(audioChunks, ...))] *)
Variable readAsDataURL : list string -> string.

(** After [mediaRecorder.start()] and [await video.play()], with
    [video.onended] set and the timeout armed. *)
Definition armed : State :=
  {| state := recording; audioChunks := []; tasks := [];
     pauseCalls := 0; resolveCalls := []; uncaught := [] |}.

(** [mediaRecorder.stop()] *)
Definition stop (s : State) : State :=
  match state s with
  | inactive =>
      match policy with
      | ReturnWhenInactive => s
      | ThrowWhenInactive =>
          {| state := state s; audioChunks := audioChunks s;
             tasks := tasks s; pauseCalls := pauseCalls s;
             resolveCalls := resolveCalls s;
             uncaught := (uncaught s ++ ["InvalidStateError"])%list |}
      end
  | _ =>
      {| state := inactive; audioChunks := audioChunks s;
         tasks := (tasks s ++ [RecorderStopped gathered])%list;
         pauseCalls := pauseCalls s;
         resolveCalls := resolveCalls s; uncaught := uncaught s |}
  end.

(** [video.pause()] *)
Definition pause (s : State) : State :=
  {| state := state s; audioChunks := audioChunks s; tasks := tasks s;
     pauseCalls := S (pauseCalls s); resolveCalls := resolveCalls s;
     uncaught := uncaught s |}.

(** [video.onended = () => { mediaRecorder.stop(); }] *)
Definition onended (s : State) : State := stop s.

(** The [setTimeout] callback. *)
Definition ontimeout (s : State) : State :=
  match state s with
  | recording => pause (stop s)
  | _ => s
  end.

(** [mediaRecorder.ondataavailable], then [mediaRecorder.onstop]. *)
Definition onstop (data : string) (s : State) : State :=
  let chunks := (audioChunks s ++ [data])%list in
  {| state := state s; audioChunks := chunks;
     tasks := (tasks s ++ [ReaderLoadEnd (readAsDataURL chunks)])%list;
     pauseCalls := pauseCalls s;
     resolveCalls := resolveCalls s; uncaught := uncaught s |}.

(** [reader.onloadend = () => resolve(reader.result as string)] *)
Definition onloadend (result : string) (s : State) : State :=
  {| state := state s; audioChunks := audioChunks s; tasks := tasks s;
     pauseCalls := pauseCalls s;
     resolveCalls := (resolveCalls s ++ [result])%list;
     uncaught := uncaught s |}.

Definition dequeue (s : State) (rest : list Task) : State :=
  {| state := state s; audioChunks := audioChunks s; tasks := rest;
     pauseCalls := pauseCalls s; resolveCalls := resolveCalls s;
     uncaught := uncaught s |}.

Definition step (s : State) (sig : Signal) : State :=
  match sig with
  | PlaybackEnded => onended s
  | TimeoutFired => ontimeout s
  | RunTask =>
      match tasks s with
      | [] => s
      | RecorderStopped data :: rest => onstop data (dequeue s rest)
      | ReaderLoadEnd result :: rest => onloadend result (dequeue s rest)
      end
  end.

Definition run (schedule : list Signal) (s : State) : State :=
  fold_left step schedule s.

(** Let the event loop run until no task is left: a recorder task
    queues one reader task, a reader task queues none. *)
Definition settle (s : State) : State :=
  run (repeat RunTask (2 * length (tasks s))) s.

(** The race of [extractAudioFromVideo] under a schedule of signals. *)
Definition extractAudioFromVideo (schedule : list Signal) : State :=
  settle (run schedule armed).

(** How far the extraction has come. *)
Inductive Phase := Recording | Stopping | Reading | Resolved.

(** The state of each phase, but for the calls of [video.pause()] and the
    exceptions. *)
Definition at_phase (p : Phase) (s : State) : Prop :=
  match p with
  | Recording =>
      state s = recording /\ audioChunks s = [] /\ tasks s = [] /\
      resolveCalls s = []
  | Stopping =>
      state s = inactive /\ audioChunks s = [] /\
      tasks s = [RecorderStopped gathered] /\ resolveCalls s = []
  | Reading =>
      state s = inactive /\ audioChunks s = [gathered] /\
      tasks s = [ReaderLoadEnd (readAsDataURL [gathered])] /\
      resolveCalls s = []
  | Resolved =>
      state s = inactive /\ audioChunks s = [gathered] /\ tasks s = [] /\
      resolveCalls s = [readAsDataURL [gathered]]
  end.

End Recording.

(** The phase after a signal. *)
Definition advance (p : Phase) (sig : Signal) : Phase :=
  match sig, p with
  | RunTask, Stopping => Reading
  | RunTask, Reading => Resolved
  | RunTask, _ => p
  | _, Recording => Stopping
  | _, _ => p
  end.

Definition is_stop (sig : Signal) : bool :=
  match sig with RunTask => false | _ => true end.

End Recorder.

(* ================================================================== *)
(** * Vocabulary of the statements *)

Module Observed.
Import Route.

(** What [analyzeFrame] returns for the i-th request on an image. *)
Definition verdict (env : Env) (i : nat) (url : string) : bool :=
  match fst (analyzeFrame env i url initial) with
  | Normal b => b
  | Throw _ => false
  end.

(** What [transcribeAudio] returns for an audio payload. *)
Definition transcript (env : Env) (audio : string) : string :=
  match fst (transcribeAudio env audio initial) with
  | Normal t => t
  | Throw _ => EmptyString
  end.

(** The progress events of a run that reaches the end of its loop. *)
Definition stages (fs : list VideoFrame) : list ProgressEvent :=
  ([ progress "Transcribing audio...";
     progress "Analyzing frames for slides..." ]
   ++ map (fun i => progress (analyzing (i + 1) (bound fs)))
          (seq 0 (bound fs)))%list.

Definition noFrame : VideoFrame := {| timestamp := 0%Z; dataUrl := "" |}.

(** [frames[i]] *)
Definition frameAt (fs : list VideoFrame) (i : nat) : VideoFrame :=
  nth i fs noFrame.

Definition slideOf (f : VideoFrame) : Slide :=
  {| image := dataUrl f; slide_timestamp := timestamp f |}.

(** The indices, in increasing order, of the frames among the first
    [count] that the classifier accepts. *)
Definition acceptedFrom (env : Env) (fs : list VideoFrame)
    (first count : nat) : list nat :=
  filter (fun i => verdict env i (dataUrl (frameAt fs i))) (seq first count).

Definition accepted (env : Env) (fs : list VideoFrame) : list nat :=
  acceptedFrom env fs 0 (Nat.min (length fs) 20).

(** The slides of a run that classifies its frames to the end. *)
Definition slidesOf (env : Env) (fs : list VideoFrame) : list Slide :=
  map (fun j => slideOf (frameAt fs j)) (accepted env fs).

(** The progress message and the classifier call of iteration [i]. *)
Definition iteration (fs : list VideoFrame) (i : nat) : list Action :=
  [ Enqueued (progress (analyzing (i + 1) (bound fs)));
    AnalyzeFrame i (dataUrl (frameAt fs i)) ].

(** Zero or more progress events, then exactly one terminal event. *)
Fixpoint progress_then_terminal (evs : list ProgressEvent) : bool :=
  match evs with
  | [] => false
  | [ev] => is_terminal ev
  | ev :: rest => is_progress ev && progress_then_terminal rest
  end.

(** Zero or more progress events, then at most one terminal event. *)
Fixpoint progress_then_at_most_terminal (evs : list ProgressEvent) : bool :=
  match evs with
  | [] => true
  | [ev] => true
  | ev :: rest => is_progress ev && progress_then_at_most_terminal rest
  end.

(** The last two actions of a trace are a terminal event and the
    closing of the stream. *)
Definition closed_after_terminal (tr : list Action) : bool :=
  match rev tr with
  | CloseCalled :: Enqueued ev :: _ => is_terminal ev
  | _ => false
  end.

Definition is_complete (ev : ProgressEvent) : bool :=
  match ev with complete _ _ => true | _ => false end.

(** White space, by code point: TAB, LF, VT, FF and CR (9 to 13), SPACE,
    NO-BREAK SPACE, OGHAM SPACE MARK, EN QUAD to HAIR SPACE (U+2000 to
    U+200A), LINE SEPARATOR, PARAGRAPH SEPARATOR, NARROW NO-BREAK SPACE,
    MEDIUM MATHEMATICAL SPACE, IDEOGRAPHIC SPACE and ZERO WIDTH NO-BREAK
    SPACE. *)
Definition isBlank (u : N) : Prop :=
  (9 <= u <= 13 \/ u = 32 \/ u = 160 \/ u = 5760
   \/ 8192 <= u <= 8202 \/ u = 8232 \/ u = 8233 \/ u = 8239
   \/ u = 8287 \/ u = 12288 \/ u = 65279)%N.

(** A text made of white space only. *)
Definition blank (t : Text) : Prop := Forall isBlank t.

(** The spellings of the affirmative token: Y, E and S, each in either
    case; the long s (U+017F) is a lower case of S too. *)
Definition affirmative (t : Text) : Prop :=
  exists y e s,
    t = [y; e; s]
    /\ In y (text "Yy") /\ In e (text "Ee") /\ In s (text "Ss" ++ [383%N]).

(** ** Checks on the case mapping, decided by evaluation *)

(** [p] is the beginning of [t]. *)
Fixpoint startsWith (p t : Text) : bool :=
  match p, t with
  | [], _ => true
  | u :: p', v :: t' => N.eqb u v && startsWith p' t'
  | _ :: _, [] => false
  end.

(** The code points whose upper case is the given letter of YES. *)
Definition spellings (letter : N) : list N :=
  if N.eqb letter 89 then text "Yy"
  else if N.eqb letter 69 then text "Ee"
  else if N.eqb letter 83 then (text "Ss" ++ [383%N])%list
  else [].

(** YES and what is left of it after one and two letters. *)
Definition remainders : list Text := [ text "YES"; text "ES"; text "S" ].

(** The upper case [image] of the code point [c] can begin [target]
    only when it is the first letter of [target] alone and [c] is one of
    the spellings of that letter. *)
Definition fits (c : N) (image target : Text) : bool :=
  match target with
  | [] => true
  | letter :: _ =>
      negb (startsWith image target)
      || (sameText image [letter] && existsb (N.eqb c) (spellings letter))
  end.

(** An entry of the mapping: its image is not empty and fits every
    remainder of YES. *)
Definition entryFits (entry : N * list N) : bool :=
  let image := flat_map codeUnits (snd entry) in
  match image with
  | [] => false
  | _ :: _ => forallb (fits (fst entry) image) remainders
  end.

(** The field is missing for the validation of [POST]. *)
Definition missing {A} `{Truthy A} (field : option A) : bool :=
  negb (truthy field).

Fixpoint contains (needle hay : string) : bool :=
  String.prefix needle hay ||
  match hay with
  | EmptyString => false
  | String _ rest => contains needle rest
  end.

(** A string in square brackets. *)
Definition bracketed (s : string) : bool :=
  match s with
  | String "[" rest =>
      match rev (list_ascii_of_string rest) with
      | "]"%char :: _ => true
      | _ => false
      end
  | _ => false
  end.

Fixpoint increasing (l : list Z) : bool :=
  match l with
  | [] => true
  | x :: rest =>
      match rest with
      | [] => true
      | y :: _ => Z.ltb x y && increasing rest
      end
  end.

Definition is_disconnected (a : Action) : bool :=
  match a with Disconnected => true | _ => false end.

(** The stream still accepts chunks. *)
Definition writable (w : World) : bool :=
  Stream.canCloseOrEnqueue (controller w).

(** From [w] the computation ends normally with [a], after [n] await
    points and the actions [tr], on a stream that still accepts chunks. *)
Definition runs {A} (m : Async A) (w : World) (a : A) (n : nat)
    (tr : list Action) : Prop :=
  fst (m w) = Normal a
  /\ awaits (snd (m w)) = awaits w + n
  /\ trace (snd (m w)) = (trace w ++ tr)%list
  /\ writable (snd (m w)) = true.

(** It does so from every world whose stream accepts chunks. *)
Definition steps {A} (m : Async A) (a : A) (n : nat) (tr : list Action)
    : Prop :=
  forall w, writable w = true -> runs m w a n tr.

(** A specification of a computation: from a world satisfying [P] it
    ends normally in a world satisfying [Q], or abruptly in one
    satisfying [E]. *)
Definition hoare {A} (P : World -> Prop) (m : Async A)
    (Q : A -> World -> Prop) (E : World -> Prop) : Prop :=
  forall w, P w ->
    match m w with
    | (Normal a, w') => Q a w'
    | (Throw _, w') => E w'
    end.

(** The invariant of cancellation: no classifier call follows a
    disconnection, and a writable stream was never disconnected. *)
Definition quiet (w : World) : Prop :=
  quiet_after_disconnect (trace w) = true /\
  (writable w = true -> existsb is_disconnected (trace w) = false).

Definition only_progress (w : World) : Prop :=
  forallb is_progress (emitted (trace w)) = true.

Definition one_terminal (w : World) : Prop :=
  progress_then_terminal (emitted (trace w)) = true.

Definition at_most_terminal (w : World) : Prop :=
  progress_then_at_most_terminal (emitted (trace w)) = true.

(** Nothing the stream accepted is lost while it accepts chunks: what
    the reader was given, followed by what waits in the queue, is what
    the run wrote, in order; and a read request waits only at an empty
    queue. *)
Definition conserved (w : World) : Prop :=
  writable w = true ->
  (Stream.received (controller w) ++ Stream.queue (controller w))%list
  = emitted (trace w)
  /\ (Stream.readRequests (controller w) <> 0 ->
      Stream.queue (controller w) = []).

(** The state in which the [try] block of [start] may end abruptly. *)
Definition faulted (w : World) : Prop :=
  at_most_terminal w /\ (only_progress w \/ writable w = false).

End Observed.

(* ================================================================== *)
(** * Sample runs *)

Module Samples.
Import Route.

(** Three frames, at 0, 5 and 10 seconds. *)
Definition threeFrames : list VideoFrame :=
  [ {| timestamp := 0; dataUrl := "data:image/png;base64,AAA" |};
    {| timestamp := 5; dataUrl := "data:image/png;base64,BBB" |};
    {| timestamp := 10; dataUrl := "data:image/png;base64,CCC" |} ].

Definition someAudio : string := "data:audio/webm;base64,GkXf".

Definition request3 : NextRequest :=
  {| json := Fulfilled {| audioDataUrl := Some someAudio;
                          frames := Some threeFrames |} |}.

(** Twenty-five frames, five seconds apart. *)
Definition twentyFiveFrames : list VideoFrame :=
  map (fun i => {| timestamp := 5 * Z.of_nat i;
                   dataUrl := "data:image/png;base64," ++ decimal i |})
      (seq 0 25).

Definition request25 : NextRequest :=
  {| json := Fulfilled {| audioDataUrl := Some someAudio;
                          frames := Some twentyFiveFrames |} |}.

(** The judge accepts every frame but the second one, in varying case
    and spacing; the speech service answers; the consumer makes one
    [read()] at every await point. *)
Definition yesNoYes : Env :=
  {| speechToText := fun _ => Fulfilled "good morning";
     visionJudge := fun i _ =>
       match i with
       | 1 => Fulfilled (Some (text "NO"))
       | _ => Fulfilled (Some (text " Yes "))
       end;
     disconnectAt := None;
     readsAt := fun _ => 1 |}.

(** Both services fail on their first request. *)
Definition failing : Env :=
  {| speechToText := fun _ => Rejected {| message := Some "401 Incorrect API key" |};
     visionJudge := fun i _ =>
       match i with
       | 0 => Rejected {| message := Some "429 Rate limit" |}
       | _ => Fulfilled (Some (text "YES"))
       end;
     disconnectAt := None;
     readsAt := fun _ => 1 |}.

(** The caller goes away while the second frame is being classified. *)
Definition leavesAtSecondFrame : Env :=
  {| speechToText := speechToText yesNoYes;
     visionJudge := visionJudge yesNoYes;
     disconnectAt := Some 3;
     readsAt := fun _ => 1 |}.

(** The consumer has not started to read when the run ends. *)
Definition lateReader : Env :=
  {| speechToText := speechToText yesNoYes;
     visionJudge := visionJudge yesNoYes;
     disconnectAt := None;
     readsAt := fun _ => 0 |}.

(** A body without frames, one without audio, one with an empty audio
    string, and one with an empty array of frames. *)
Definition noFrames : NextRequest :=
  {| json := Fulfilled {| audioDataUrl := Some someAudio; frames := None |} |}.

Definition noAudio : NextRequest :=
  {| json := Fulfilled {| audioDataUrl := None; frames := Some threeFrames |} |}.

Definition emptyAudio : NextRequest :=
  {| json := Fulfilled {| audioDataUrl := Some ""; frames := Some threeFrames |} |}.

Definition emptyFrames : NextRequest :=
  {| json := Fulfilled {| audioDataUrl := Some someAudio; frames := Some [] |} |}.

(** A canvas that always encodes to the same image. *)
Definition blankCanvas : Q -> string := fun _ => "data:image/png;base64,iVBOR".

(** The recorder of the samples gathered these bytes; the reader encodes
    the chunks by joining them. *)
Definition recordedBytes : string := "GkXf".

Definition joinChunks (chunks : list string) : string :=
  "data:audio/webm;base64," ++ String.concat "" chunks.

End Samples.

(* ================================================================== *)
(** * The text of the event stream: [JSON.stringify] and the [data:] lines *)

Module Wire.

(** The double quote, and the line feed. *)
Definition q : string := String "034"%char EmptyString.

Definition nl : string := String "010"%char EmptyString.

(** Lines joined by line feeds. *)
Definition lines (l : list string) : string := String.concat nl l.

(** A hexadecimal digit, in lower case. *)
Definition hex (n : nat) : ascii :=
  ascii_of_nat (if Nat.ltb n 10 then 48 + n else 87 + n).

(** QuoteJSONString for one character, on the ASCII range: the short
    escapes, [\u00xx] for the other control characters, the character
    itself otherwise. *)
Definition escape (c : ascii) : string :=
  let n := nat_of_ascii c in
  if Nat.eqb n 8 then "\b"
  else if Nat.eqb n 9 then "\t"
  else if Nat.eqb n 10 then "\n"
  else if Nat.eqb n 12 then "\f"
  else if Nat.eqb n 13 then "\r"
  else if Nat.eqb n 34 then "\" ++ q
  else if Nat.eqb n 92 then "\\"
  else if Nat.ltb n 32
       then "\u00" ++ String (hex (n / 16)) (String (hex (n mod 16)) EmptyString)
       else String c EmptyString.

Fixpoint escaped (s : string) : string :=
  match s with
  | EmptyString => EmptyString
  | String c r => escape c ++ escaped r
  end.

(** [JSON.stringify] of a string. *)
Definition JSON_string (s : string) : string := q ++ escaped s ++ q.

(** [Number.isSafeInteger]: the integers of magnitude up to 2^53 - 1,
    each of which is a number of JavaScript. *)
Definition isSafeInteger (z : Z) : bool :=
  Z.leb (Z.abs z) 9007199254740991.

(** Number::toString of a safe integer: its decimal numeral. The
    timestamps of the sampler, [Math.floor(currentTime)], are safe
    integers. Beyond them not every integer is a number, and from 10^21
    on a number is printed with an exponent: the numeral given here for
    such an integer is not what the code prints, and no statement about
    the printed text of a number goes beyond the safe integers. *)
Definition numberToString (z : Z) : string :=
  NilEmpty.string_of_int (Z.to_int z).

(** [JSON.stringify] of an integer. *)
Definition JSON_number (z : Z) : string := numberToString z.

(** A member of an object: the key and the text of its value. *)
Definition member (key value : string) : string :=
  JSON_string key ++ ":" ++ value.

Definition JSON_object (members : list string) : string :=
  "{" ++ String.concat "," members ++ "}".

Definition JSON_array (items : list string) : string :=
  "[" ++ String.concat "," items ++ "]".

(** [{ image, timestamp }] *)
Definition JSON_slide (s : Slide) : string :=
  JSON_object [ member "image" (JSON_string (image s));
                member "timestamp" (JSON_number (slide_timestamp s)) ].

(** [JSON.stringify] of the three payloads of [route.ts], their keys in
    the order of the object literals. *)
Definition JSON_stringify (ev : ProgressEvent) : string :=
  match ev with
  | progress message =>
      JSON_object [ member "type" (JSON_string "progress");
                    member "message" (JSON_string message) ]
  | complete transcription slides =>
      JSON_object
        [ member "type" (JSON_string "complete");
          member "data"
            (JSON_object
               [ member "transcription" (JSON_string transcription);
                 member "slides" (JSON_array (map JSON_slide slides)) ]) ]
  | error message =>
      JSON_object [ member "type" (JSON_string "error");
                    member "message" (JSON_string message) ]
  end.

(** [`data: ${JSON.stringify(ev)}\n\n`], the text of one chunk. *)
Definition chunk (ev : ProgressEvent) : string :=
  "data: " ++ JSON_stringify ev ++ nl ++ nl.

(** The text of several chunks that arrive together. *)
Definition chunks (evs : list ProgressEvent) : string :=
  String.concat EmptyString (map chunk evs).

End Wire.

(* ================================================================== *)
(** * The client of [page.tsx]: [handleSubmit] *)

Module Page.

(** [data.data] of a [complete] event. *)
Record PipelineResult := mkResult {
  transcription : string;
  slides : list Slide
}.

(** The state of the component: [file], [processing], [progress],
    [result] and [error] of the [useState] hooks. *)
Record State := mkState {
  file : option string;
  processing : bool;
  progressText : string;
  result : option PipelineResult;
  errorText : string
}.

(** [response] of [fetch]: [reads] are the values [reader.read()] gives
    until [done], decoded; [None] is a response without body. *)
Record Response := mkResponse {
  ok : bool;
  statusText : string;
  reads : option (list (Settled string))
}.

(** The environment of the component. *)
Record Env := mkEnv {
  (* the promise of [extractAudioFromVideo(file)] *)
  extractAudioFromVideo : string -> Settled string;
  (* the promise of [extractFramesFromVideo(file)] *)
  extractFramesFromVideo : string -> Settled (list VideoFrame);
  (* [fetch('/api/process', ...)] with the body it is given *)
  fetchProcess : Body -> Settled Response;
  (* [JSON.parse] followed by the reading of [data.type]: [None] is a
     value whose type is none of the three *)
  JSON_parse : string -> Settled (option ProgressEvent)
}.

(** The component and the requests it has sent, oldest first. *)
Record World := mkWorld {
  ui : State;
  sent : list Body
}.

Definition Task (A : Type) : Type := World -> Route.Completion A * World.

Definition ret {A} (a : A) : Task A := fun w => (Route.Normal a, w).

Definition bind {A B} (m : Task A) (k : A -> Task B) : Task B :=
  fun w =>
    match m w with
    | (Route.Normal a, w') => k a w'
    | (Route.Throw e, w') => (Route.Throw e, w')
    end.

Definition throw {A} (e : JS.Error) : Task A := fun w => (Route.Throw e, w).

Local Notation "x <- m ;; k" := (bind m (fun x => k))
  (at level 61, m at next level, right associativity).
Local Notation "m ;; k" := (bind m (fun _ => k))
  (at level 61, right associativity).

(** [await promise] *)
Definition await {A} (promise : Settled A) : Task A :=
  match promise with
  | Fulfilled a => ret a
  | Rejected e => throw e
  end.

(** [try { body } catch (err) { handler } finally { finalizer }], with a
    handler and a finalizer that do not throw. *)
Definition try_catch_finally (body : Task unit)
    (handler : JS.Error -> World -> World) (finalizer : World -> World)
    : World -> World :=
  fun w =>
    match body w with
    | (Route.Normal _, w') => finalizer w'
    | (Route.Throw e, w') => finalizer (handler e w')
    end.

Definition update (f : State -> State) : Task unit :=
  fun w => (Route.Normal tt, {| ui := f (ui w); sent := sent w |}).

Definition setProcessing (b : bool) (s : State) : State :=
  {| file := file s; processing := b; progressText := progressText s;
     result := result s; errorText := errorText s |}.

Definition setProgress (message : string) (s : State) : State :=
  {| file := file s; processing := processing s; progressText := message;
     result := result s; errorText := errorText s |}.

Definition setResult (r : option PipelineResult) (s : State) : State :=
  {| file := file s; processing := processing s;
     progressText := progressText s; result := r; errorText := errorText s |}.

Definition setError (message : string) (s : State) : State :=
  {| file := file s; processing := processing s;
     progressText := progressText s; result := result s;
     errorText := message |}.

Definition setFile (f : option string) (s : State) : State :=
  {| file := f; processing := processing s; progressText := progressText s;
     result := result s; errorText := errorText s |}.

(** [handleFileChange] with a chosen file. *)
Definition handleFileChange (f : string) (s : State) : State :=
  setResult None (setError EmptyString (setFile (Some f) s)).

(** [chunk.split('\n')] *)
Fixpoint split (s : string) : list string :=
  match s with
  | EmptyString => [EmptyString]
  | String c r =>
      if Ascii.eqb c "010"%char then EmptyString :: split r
      else match split r with
           | line :: rest => String c line :: rest
           | [] => [String c EmptyString]
           end
  end.

(** [line.slice(n)] *)
Fixpoint slice (n : nat) (line : string) : string :=
  match n, line with
  | O, _ => line
  | S n', String _ r => slice n' r
  | S _, EmptyString => EmptyString
  end.

(** The texts the loop over the lines hands to [JSON.parse]. *)
Definition payloads (chunk : string) : list string :=
  map (slice 6) (filter (String.prefix "data: ") (split chunk)).

(** The three branches on [data.type]. *)
Definition dispatch (data : option ProgressEvent) (s : State) : State :=
  match data with
  | Some (progress message) => setProgress message s
  | Some (complete transcription slides) =>
      setProgress "Complete!"
        (setResult (Some {| transcription := transcription;
                            slides := slides |}) s)
  | Some (error message) => setError message s
  | None => s
  end.

Section Component.

Variable env : Env.

(** [for (const line of lines) { if (line.startsWith('data: ')) ... }] *)
Fixpoint for_lines (lines : list string) : Task unit :=
  match lines with
  | [] => ret tt
  | line :: rest =>
      if String.prefix "data: " line
      then
        data <- await (JSON_parse env (slice 6 line)) ;;
        update (dispatch data) ;;
        for_lines rest
      else for_lines rest
  end.

(** [while (true) { const { done, value } = await reader.read(); ... }]
    over the reads the stream gives before it is done. *)
Fixpoint read_loop (reads : list (Settled string)) : Task unit :=
  match reads with
  | [] => ret tt
  | read :: rest =>
      chunk <- await read ;;
      for_lines (split chunk) ;;
      read_loop rest
  end.

(** [await fetch('/api/process', { method: 'POST', body: ... })]: the
    request is recorded, then its response awaited. *)
Definition fetch (body : Body) : Task Response :=
  fun w =>
    await (fetchProcess env body)
      {| ui := ui w; sent := (sent w ++ [body])%list |}.

(** The [try] block of [handleSubmit]. *)
Definition submission (f : string) : Task unit :=
  update (setProgress "Extracting audio from video...") ;;
  audioDataUrl <- await (extractAudioFromVideo env f) ;;
  update (setProgress "Extracting frames from video...") ;;
  frames <- await (extractFramesFromVideo env f) ;;
  update (setProgress "Sending to server for AI processing...") ;;
  response <- fetch (mkBody (Some audioDataUrl) (Some frames)) ;;
  if negb (ok response)
  then throw {| message :=
                  Some ("Failed to process video: " ++ statusText response) |}
  else
    match reads response with
    | Some stream => read_loop stream
    | None => ret tt
    end.

Definition handleSubmit (w : World) : World :=
  match file (ui w) with
  | None => w
  | Some f =>
      try_catch_finally
        (submission f)
        (fun err w' =>
           {| ui := setError (or_else (message err) "An error occurred") (ui w');
              sent := sent w' |})
        (fun w' => {| ui := setProcessing false (ui w'); sent := sent w' |})
        {| ui := setError EmptyString
                   (setProgress "Processing video locally..."
                      (setProcessing true (ui w)));
           sent := sent w |}
  end.

End Component.

End Page.

(* ================================================================== *)
(** * The report of [generate-document/route.ts] *)

Module Document.
Import Wire.

(** A property of the parsed body: absent, [null], or there. *)
Inductive Optional (A : Type) : Type :=
| undefined
| null
| value (a : A).
Arguments undefined {A}.
Arguments null {A}.
Arguments value {A} a.

(** [`${v}`] *)
Definition show (v : Optional string) : string :=
  match v with
  | undefined => "undefined"
  | null => "null"
  | value s => s
  end.

(** [const { transcription, slides } = data] *)
Record Data := mkData {
  transcription : Optional string;
  slides : Optional (list Slide)
}.

Record Response := mkResponse {
  status : nat;
  headers : list (string * string);
  body : string
}.

(** The text before the date: the prologue, the style sheet and the title. *)
Definition documentHead : string :=
  lines
    [ EmptyString;
      "<!DOCTYPE html>";
      "<html lang=" ++ q ++ "en" ++ q ++ ">";
      "<head>";
      "  <meta charset=" ++ q ++ "UTF-8" ++ q ++ ">";
      "  <meta name=" ++ q ++ "viewport" ++ q ++ " content=" ++ q ++ "width=device-width, initial-scale=1.0" ++ q ++ ">";
      "  <title>Video Transcription Report</title>";
      "  <style>";
      "    body {";
      "      font-family: -apple-system, BlinkMacSystemFont, 'Segoe UI', Roboto, Oxygen, Ubuntu, Cantarell, sans-serif;";
      "      line-height: 1.6;";
      "      max-width: 1200px;";
      "      margin: 0 auto;";
      "      padding: 40px 20px;";
      "      background: #f9fafb;";
      "    }";
      "    .container {";
      "      background: white;";
      "      border-radius: 8px;";
      "      box-shadow: 0 2px 4px rgba(0,0,0,0.1);";
      "      padding: 40px;";
      "    }";
      "    h1 {";
      "      color: #1f2937;";
      "      border-bottom: 3px solid #4f46e5;";
      "      padding-bottom: 10px;";
      "      margin-bottom: 30px;";
      "    }";
      "    h2 {";
      "      color: #374151;";
      "      margin-top: 40px;";
      "      margin-bottom: 20px;";
      "    }";
      "    .transcription {";
      "      background: #f3f4f6;";
      "      padding: 20px;";
      "      border-radius: 8px;";
      "      border-left: 4px solid #4f46e5;";
      "      white-space: pre-wrap;";
      "      line-height: 1.8;";
      "    }";
      "    .slides {";
      "      display: grid;";
      "      grid-template-columns: repeat(auto-fill, minmax(400px, 1fr));";
      "      gap: 30px;";
      "      margin-top: 30px;";
      "    }";
      "    .slide {";
      "      border: 1px solid #e5e7eb;";
      "      border-radius: 8px;";
      "      overflow: hidden;";
      "      background: white;";
      "      box-shadow: 0 1px 3px rgba(0,0,0,0.1);";
      "    }";
      "    .slide img {";
      "      width: 100%;";
      "      height: auto;";
      "      display: block;";
      "    }";
      "    .slide-info {";
      "      padding: 15px;";
      "      background: #f9fafb;";
      "      font-size: 14px;";
      "      color: #6b7280;";
      "    }";
      "    .timestamp {";
      "      font-weight: 600;";
      "      color: #4f46e5;";
      "    }";
      "    @media print {";
      "      body {";
      "        background: white;";
      "      }";
      "      .slide {";
      "        page-break-inside: avoid;";
      "      }";
      "    }";
      "  </style>";
      "</head>";
      "<body>";
      "  <div class=" ++ q ++ "container" ++ q ++ ">";
      "    <h1>Video Transcription Report</h1>";
      "    <p style=" ++ q ++ "color: #6b7280; font-size: 14px;" ++ q ++ ">Generated on " ].

(** Between the date and the transcription. *)
Definition beforeTranscription : string :=
  lines
    [ "</p>";
      EmptyString;
      "    <h2>Transcription</h2>";
      "    <div class=" ++ q ++ "transcription" ++ q ++ ">" ].

(** Between the transcription and the slides. *)
Definition afterTranscription : string :=
  lines
    [ "</div>";
      EmptyString;
      "    " ].

(** After the slides. *)
Definition documentTail : string :=
  lines
    [ EmptyString;
      "  </div>";
      "</body>";
      "</html>";
      "    " ].

(** The section of the slides, up to their number. *)
Definition slidesHeading : string :=
  lines
    [ EmptyString;
      "      <h2>Extracted Slides (" ].

(** From the number of the slides to the first slide. *)
Definition slidesOpen : string :=
  lines
    [ ")</h2>";
      "      <div class=" ++ q ++ "slides" ++ q ++ ">";
      "        " ].

(** After the last slide. *)
Definition slidesClose : string :=
  lines
    [ EmptyString;
      "      </div>";
      "    " ].

(** A slide, up to the image source. *)
Definition slideOpen : string :=
  lines
    [ EmptyString;
      "          <div class=" ++ q ++ "slide" ++ q ++ ">";
      "            <img src=" ++ q ].

(** From the image source to the number in the alternative text. *)
Definition slideAlt : string :=
  q ++ " alt=" ++ q ++ "Slide ".

(** From there to the number in the caption. *)
Definition slideInfo : string :=
  lines
    [ q ++ " />";
      "            <div class=" ++ q ++ "slide-info" ++ q ++ ">";
      "              <strong>Slide " ].

(** From there to the timestamp. *)
Definition slideStamp : string :=
  lines
    [ "</strong> -";
      "              <span class=" ++ q ++ "timestamp" ++ q ++ ">Timestamp: " ].

(** After the timestamp. *)
Definition slideClose : string :=
  lines
    [ "s</span>";
      "            </div>";
      "          </div>";
      "        " ].

(** The paragraph shown when there is no slide. *)
Definition noSlides : string :=
  "<p style=" ++ q ++ "color: #6b7280;" ++ q ++ ">No slides detected in this video.</p>".

(** One slide of [slides.map((slide, idx) => ...)]. *)
Definition slideBlock (idx : nat) (slide : Slide) : string :=
  slideOpen ++ image slide ++ slideAlt ++ decimal (idx + 1) ++ slideInfo
  ++ decimal (idx + 1) ++ slideStamp
  ++ numberToString (slide_timestamp slide) ++ slideClose.

Fixpoint slideBlocks (idx : nat) (l : list Slide) : list string :=
  match l with
  | [] => []
  | slide :: rest => slideBlock idx slide :: slideBlocks (S idx) rest
  end.

(** [slides && slides.length > 0 ? ... : ...] *)
Definition slidesSection (slides : Optional (list Slide)) : string :=
  match slides with
  | value (slide :: rest) =>
      slidesHeading ++ decimal (length (slide :: rest)) ++ slidesOpen
      ++ String.concat EmptyString (slideBlocks 0 (slide :: rest))
      ++ slidesClose
  | _ => noSlides
  end.

(** The document; [now] is [new Date().toLocaleString()]. *)
Definition html (now : string) (data : Data) : string :=
  documentHead ++ now ++ beforeTranscription ++ show (transcription data)
  ++ afterTranscription ++ slidesSection (slides data) ++ documentTail.

(** [POST]: [request] is what the [try] block gets from
    [await request.json()] and the destructuring of its value, which
    throws on [null]. *)
Definition POST (now : string) (request : Settled Data) : Response :=
  match request with
  | Fulfilled data =>
      {| status := 200;
         headers :=
           [ ("Content-Type", "text/html");
             ("Content-Disposition",
              "attachment; filename=" ++ q ++ "transcription.html" ++ q) ];
         body := html now data |}
  | Rejected e =>
      {| status := 500;
         headers := [ ("content-type", "application/json") ];
         body :=
           JSON_object
             [ member "error"
                 (JSON_string
                    (or_else (message e) "Failed to generate document")) ] |}
  end.

End Document.

(* ================================================================== *)
(** * Vocabulary of the statements about the client and the wire *)

Module Seen.
Import Route.

(** A text without line feed. *)
Fixpoint oneline (s : string) : bool :=
  match s with
  | EmptyString => true
  | String c r => negb (Ascii.eqb c "010"%char) && oneline r
  end.

(** The reads of a stream that delivers the chunks of each group of
    events together. *)
Definition delivered (groups : list (list ProgressEvent))
    : list (Settled string) :=
  map (fun group => Fulfilled (Wire.chunks group)) groups.

(** The component after the events, taken one by one. *)
Definition replay (evs : list ProgressEvent) (s : Page.State) : Page.State :=
  fold_left (fun s' ev => Page.dispatch (Some ev) s') evs s.

(** The component when the request leaves. *)
Definition sending (s : Page.State) : Page.State :=
  Page.setProgress "Sending to server for AI processing..."
    (Page.setProgress "Extracting frames from video..."
       (Page.setProgress "Extracting audio from video..."
          (Page.setError EmptyString
             (Page.setProgress "Processing video locally..."
                (Page.setProcessing true s))))).

(** The last action of a trace is the disconnection of the caller. *)
Definition ends_disconnected (tr : list Action) : bool :=
  match rev tr with
  | Disconnected :: _ => true
  | _ => false
  end.

(** A [complete] event was written. *)
Definition completed (w : World) : bool :=
  existsb Observed.is_complete (emitted (trace w)).

(** The frames [0] to [j-1] were classified, in this order, and no other;
    a [complete] event was written only after the last frame within the
    bound. *)
Definition classified_upto (fs : list VideoFrame) (j : nat) (w : World)
    : Prop :=
  j <= bound fs /\
  classified (trace w) = map dataUrl (firstn j fs) /\
  (completed w = true -> j = bound fs).

(** Inside the loop, before iteration [i]: no [complete] event yet. *)
Definition classifying (fs : list VideoFrame) (i : nat) (w : World) : Prop :=
  i <= bound fs /\
  classified (trace w) = map dataUrl (firstn i fs) /\
  completed w = false.

Definition classified_some (fs : list VideoFrame) (w : World) : Prop :=
  exists j, classified_upto fs j w.

(** A disconnected caller is the end of the trace, on a stream that takes
    no more chunks. *)
Definition halted (w : World) : Prop :=
  existsb Observed.is_disconnected (trace w) = true ->
  Observed.writable w = false /\ ends_disconnected (trace w) = true.

Definition halted_writable (w : World) : Prop :=
  halted w /\ Observed.writable w = true.

(** The element of the transcription in the report, written with a given
    text. *)
Definition transcriptionElement (text : string) : string :=
  "<div class=" ++ Wire.q ++ "transcription" ++ Wire.q ++ ">" ++ text
  ++ "</div>".

(** The element of the slide at index [idx] in the report: its image,
    with the number of the slide in the alternative text, and its
    caption, with the same number and the timestamp of the slide. *)
Definition slideElement (idx : nat) (slide : Slide) : string :=
  Wire.lines
    [ "<div class=" ++ Wire.q ++ "slide" ++ Wire.q ++ ">";
      "            <img src=" ++ Wire.q ++ image slide ++ Wire.q
        ++ " alt=" ++ Wire.q ++ "Slide " ++ decimal (idx + 1) ++ Wire.q
        ++ " />";
      "            <div class=" ++ Wire.q ++ "slide-info" ++ Wire.q ++ ">";
      "              <strong>Slide " ++ decimal (idx + 1) ++ "</strong> -";
      "              <span class=" ++ Wire.q ++ "timestamp" ++ Wire.q
        ++ ">Timestamp: " ++ Wire.numberToString (slide_timestamp slide)
        ++ "s</span>";
      "            </div>";
      "          </div>" ].

End Seen.

(* ================================================================== *)
(** * Sample runs of the client *)

Module PageSamples.
Import Route.

(** The events of the run of [Samples.request3] with [Samples.yesNoYes]. *)
Definition events : list ProgressEvent :=
  emitted (trace (snd (POST Samples.yesNoYes Samples.request3))).

(** [JSON.parse] on the texts of these events; any other text is not
    JSON. *)
Definition parse (text : string) : Settled (option ProgressEvent) :=
  match find (fun ev => String.eqb (Wire.JSON_stringify ev) text) events with
  | Some ev => Fulfilled (Some ev)
  | None => Rejected {| message := Some "Unexpected end of JSON input" |}
  end.

(** The events arrive in three reads: two, one and three chunks. *)
Definition groups : list (list ProgressEvent) :=
  [ firstn 2 events; firstn 1 (skipn 2 events); skipn 3 events ].

Definition theBody : Body :=
  {| audioDataUrl := Some Samples.someAudio;
     frames := Some Samples.threeFrames |}.

Definition browser : Page.Env :=
  {| Page.extractAudioFromVideo := fun _ => Fulfilled Samples.someAudio;
     Page.extractFramesFromVideo := fun _ => Fulfilled Samples.threeFrames;
     Page.fetchProcess := fun _ =>
       Fulfilled {| Page.ok := true; Page.statusText := "OK";
                    Page.reads := Some (Seen.delivered groups) |};
     Page.JSON_parse := parse |}.

(** The first read ends in the middle of the first event. *)
Definition cut : string :=
  "data: " ++ String.substring 0 20 (Wire.JSON_stringify (progress "Transcribing audio...")).

Definition browserCut : Page.Env :=
  {| Page.extractAudioFromVideo := fun _ => Fulfilled Samples.someAudio;
     Page.extractFramesFromVideo := fun _ => Fulfilled Samples.threeFrames;
     Page.fetchProcess := fun _ =>
       Fulfilled {| Page.ok := true; Page.statusText := "OK";
                    Page.reads := Some (Fulfilled cut :: Seen.delivered groups) |};
     Page.JSON_parse := parse |}.

(** The recorder cannot be built: the audio extraction fails. *)
Definition browserMute : Page.Env :=
  {| Page.extractAudioFromVideo := fun _ =>
       Rejected {| message := Some "AudioContext is not defined" |};
     Page.extractFramesFromVideo := fun _ => Fulfilled Samples.threeFrames;
     Page.fetchProcess := Page.fetchProcess browser;
     Page.JSON_parse := parse |}.

(** The server refuses the request. *)
Definition browserRefused : Page.Env :=
  {| Page.extractAudioFromVideo := fun _ => Fulfilled Samples.someAudio;
     Page.extractFramesFromVideo := fun _ => Fulfilled Samples.threeFrames;
     Page.fetchProcess := fun _ =>
       Fulfilled {| Page.ok := false; Page.statusText := "Payload Too Large";
                    Page.reads := Some (Seen.delivered groups) |};
     Page.JSON_parse := parse |}.

(** A component with a chosen file and the result of an earlier run. *)
Definition chosen : Page.World :=
  {| Page.ui :=
       {| Page.file := Some "talk.mp4"; Page.processing := false;
          Page.progressText := "Complete!";
          Page.result := Some {| Page.transcription := "earlier";
                                 Page.slides := [] |};
          Page.errorText := EmptyString |};
     Page.sent := [] |}.

(** A result with markup in its transcription. *)
Definition markup : Document.Data :=
  {| Document.transcription := Document.value "<script>alert(1)</script>";
     Document.slides :=
       Document.value
         [ {| image := "data:image/png;base64,AAA"; slide_timestamp := 0 |};
           {| image := "data:image/png;base64,CCC"; slide_timestamp := 10 |} ] |}.

End PageSamples.

(* ================================================================== *)
(** * The adapters *)

Module AdapterFacts.
Import Route Observed.

Lemma await_normal env w : fst (await env w) = Normal tt.
Proof.
  unfold await. destruct (disconnectAt env) as [k|]; [|reflexivity].
  destruct (Nat.eqb k (awaits w)); reflexivity.
Qed.

(** The value [analyzeFrame] returns depends on the judge's answer alone. *)
Lemma analyzeFrame_returns env i url w :
  fst (analyzeFrame env i url w) =
  Normal match visionJudge env i url with
         | Fulfilled (Some content) =>
             sameText (toUpperCase (trim content)) (text "YES")
         | _ => false
         end.
Proof.
  unfold analyzeFrame, bind, tell.
  destruct (await env (log (AnalyzeFrame i url) w)) as [c w'] eqn:E.
  pose proof (await_normal env (log (AnalyzeFrame i url) w)) as Hn.
  rewrite E in Hn. simpl in Hn. subst c.
  destruct (visionJudge env i url) as [[content|]|e]; reflexivity.
Qed.

Lemma analyzeFrame_verdict env i url w :
  fst (analyzeFrame env i url w) = Normal (verdict env i url).
Proof.
  unfold verdict. rewrite (analyzeFrame_returns env i url initial).
  apply analyzeFrame_returns.
Qed.

Lemma transcribeAudio_returns env audio w :
  fst (transcribeAudio env audio w) =
  Normal match speechToText env audio with
         | Fulfilled transcription => transcription
         | Rejected e =>
             "[Transcription unavailable: " ++ template (message e) ++ "]"
         end.
Proof.
  unfold transcribeAudio, bind, tell.
  destruct (await env (log (TranscribeAudio audio) w)) as [c w'] eqn:E.
  pose proof (await_normal env (log (TranscribeAudio audio) w)) as Hn.
  rewrite E in Hn. simpl in Hn. subst c.
  destruct (speechToText env audio); reflexivity.
Qed.

Lemma transcribeAudio_transcript env audio w :
  fst (transcribeAudio env audio w) = Normal (transcript env audio).
Proof.
  unfold transcript. rewrite (transcribeAudio_returns env audio initial).
  apply transcribeAudio_returns.
Qed.

Lemma transcript_unfold env audio :
  transcript env audio =
  match speechToText env audio with
  | Fulfilled transcription => transcription
  | Rejected e => "[Transcription unavailable: " ++ template (message e) ++ "]"
  end.
Proof.
  unfold transcript. now rewrite (transcribeAudio_returns env audio initial).
Qed.

Lemma request_json_run env request w :
  request_json env request w =
  match json request with
  | Fulfilled body => (Normal body, snd (await env w))
  | Rejected e => (Throw e, snd (await env w))
  end.
Proof.
  unfold request_json, bind.
  pose proof (await_normal env w) as Hn.
  destruct (await env w) as [c w']. simpl in Hn. subst c.
  destruct (json request); reflexivity.
Qed.

End AdapterFacts.

(* ================================================================== *)
(** * What the stream accepts does not depend on its reader *)

Module StreamFacts.
Import Stream.

Lemma can_read c : canCloseOrEnqueue (read c) = canCloseOrEnqueue c.
Proof.
  unfold canCloseOrEnqueue, read.
  destruct (state c) eqn:Hs; rewrite ?Hs; try reflexivity.
  destruct (queue c) as [|chunk rest]; cbn; rewrite ?Hs; [reflexivity|].
  destruct (closeRequested c); [reflexivity|]. now destruct rest.
Qed.

Lemma can_reads n c :
  canCloseOrEnqueue (Nat.iter n read c) = canCloseOrEnqueue c.
Proof.
  induction n as [|n IH]; [reflexivity|].
  cbn [Nat.iter nat_rect]. now rewrite can_read.
Qed.

Lemma can_accept chunk c :
  canCloseOrEnqueue (accept chunk c) = canCloseOrEnqueue c.
Proof. unfold canCloseOrEnqueue, accept. now destruct (readRequests c). Qed.

Lemma can_requestClose c : canCloseOrEnqueue (requestClose c) = false.
Proof.
  unfold canCloseOrEnqueue, requestClose. now destruct (queue c).
Qed.

Lemma can_cancel c : canCloseOrEnqueue (cancel c) = false.
Proof.
  unfold canCloseOrEnqueue, cancel.
  destruct (state c) eqn:Hs; cbn; rewrite ?Hs; cbn;
    auto using andb_false_r.
Qed.

Lemma can_error c : canCloseOrEnqueue (error c) = false.
Proof.
  unfold canCloseOrEnqueue, error.
  destruct (state c) eqn:Hs; cbn; rewrite ?Hs; cbn;
    auto using andb_false_r.
Qed.

(** A stream that nobody has written to, after [n] calls of [read()]. *)
Lemma reads_fresh n :
  Nat.iter n read fresh =
  {| state := readable; closeRequested := false; queue := [];
     readRequests := n; received := [] |}.
Proof.
  induction n as [|n IH]; [reflexivity|].
  cbn [Nat.iter nat_rect]. change (nat_rect _ _ _ n) with (Nat.iter n read fresh).
  now rewrite IH.
Qed.

(** A [read()] moves the oldest chunk from the queue to the reader, or
    waits. *)
Lemma read_conserves c :
  canCloseOrEnqueue c = true ->
  (readRequests c <> 0 -> queue c = []) ->
  (received (read c) ++ queue (read c))%list = (received c ++ queue c)%list
  /\ (readRequests (read c) <> 0 -> queue (read c) = []).
Proof.
  intros Hc Hwait. unfold canCloseOrEnqueue in Hc.
  apply andb_true_iff in Hc as [_ Hs]. unfold read.
  destruct (state c); try discriminate.
  destruct (queue c) as [|chunk rest] eqn:Hq; cbn [received queue readRequests].
  - now split.
  - split; [now rewrite <- app_assoc|].
    intros Hr. now specialize (Hwait Hr).
Qed.

Lemma reads_conserve n c :
  canCloseOrEnqueue c = true ->
  (readRequests c <> 0 -> queue c = []) ->
  (received (Nat.iter n read c) ++ queue (Nat.iter n read c))%list
  = (received c ++ queue c)%list
  /\ (readRequests (Nat.iter n read c) <> 0 -> queue (Nat.iter n read c) = []).
Proof.
  intros Hc Hwait. induction n as [|n [IHsum IHwait]]; [now split|].
  cbn [Nat.iter nat_rect].
  change (nat_rect _ _ _ n) with (Nat.iter n read c).
  destruct (read_conserves (Nat.iter n read c)) as [Hsum Hw];
    [now rewrite can_reads|exact IHwait|].
  split; [now rewrite Hsum|exact Hw].
Qed.

(** Reading a closing stream to its end closes it, and the reader has
    all the chunks. *)
Lemma readToEnd_closing chunks :
  forall c,
    queue c = chunks -> chunks <> [] ->
    state c = readable -> closeRequested c = true ->
    state (readToEnd c) = closed
    /\ received (readToEnd c) = (received c ++ chunks)%list
    /\ queue (readToEnd c) = [].
Proof.
  unfold readToEnd.
  induction chunks as [|chunk rest IH]; intros c Hq Hne Hs Hr;
    [contradiction|].
  rewrite Hq. cbn [length]. rewrite Nat.iter_succ_r.
  assert (Hread : read c =
            {| state := match rest with [] => closed | _ => readable end;
               closeRequested := true; queue := rest;
               readRequests := readRequests c;
               received := (received c ++ [chunk])%list |}).
  { unfold read. rewrite Hs, Hq, Hr. reflexivity. }
  destruct rest as [|chunk' rest'].
  - rewrite Hread. cbn [length Nat.iter nat_rect state received queue].
    now repeat split.
  - destruct (IH (read c)) as (Hstate & Hrec & Hqueue);
      try (rewrite Hread; reflexivity); [discriminate|].
    replace (length (queue (read c))) with (length (chunk' :: rest'))
      in * by (rewrite Hread; reflexivity).
    rewrite Hstate, Hrec, Hqueue. rewrite Hread. cbn [received].
    rewrite <- app_assoc. now repeat split.
Qed.

End StreamFacts.

(* ================================================================== *)
(** * Runs whose caller stays connected *)

Module Connected.
Import Route Observed AdapterFacts StreamFacts.

Lemma steps_ret {A} (a : A) : steps (ret a) a 0 [].
Proof.
  intros w Hw. unfold runs, ret. cbn [fst snd].
  now rewrite Nat.add_0_r, app_nil_r.
Qed.

Lemma steps_bind {A B} (m : Async A) (k : A -> Async B) a n tr b n' tr' :
  steps m a n tr -> steps (k a) b n' tr' ->
  steps (bind m k) b (n + n') (tr ++ tr')%list.
Proof.
  intros Hm Hk w Hw. destruct (Hm w Hw) as (Hfst & Haw & Htr & Hopen).
  unfold runs, bind. destruct (m w) as [c w1]. cbn [fst snd] in *.
  subst c. destruct (Hk w1 Hopen) as (Hfst' & Haw' & Htr' & Hopen').
  rewrite Hfst', Haw', Htr', Haw, Htr, app_assoc, Nat.add_assoc.
  now repeat split.
Qed.

Lemma steps_shape {A} (m : Async A) a n tr a' n' tr' :
  steps m a n tr -> a = a' -> n = n' -> tr = tr' -> steps m a' n' tr'.
Proof. now intros H <- <- <-. Qed.

Lemma steps_enqueue ev : steps (enqueue ev) tt 0 [Enqueued ev].
Proof.
  intros w Hw. unfold runs, enqueue. unfold writable in *. rewrite Hw.
  cbn [fst snd log awaits trace controller].
  now rewrite Nat.add_0_r, can_accept.
Qed.

Lemma steps_tell a : steps (tell a) tt 0 [a].
Proof.
  intros w Hw. unfold runs, tell. cbn [fst snd log awaits trace].
  now rewrite Nat.add_0_r.
Qed.

Lemma enqueue_open ev w :
  Stream.canCloseOrEnqueue (controller w) = true ->
  enqueue ev w =
  (Normal tt,
   log (Enqueued ev)
     {| controller := Stream.accept ev (controller w);
        awaits := awaits w; trace := trace w |}).
Proof. intros H. unfold enqueue. now rewrite H. Qed.

(** Settling the promise of [start] changes neither the completion nor
    the trace, and does not reopen the stream. *)
Lemma POST_fst env request :
  fst (POST env request) = fst (start env request initial).
Proof. unfold POST, settled. now destruct (start env request initial) as [[]]. Qed.

Lemma POST_trace env request :
  trace (snd (POST env request)) = trace (snd (start env request initial)).
Proof. unfold POST, settled. now destruct (start env request initial) as [[]]. Qed.

Lemma POST_awaits env request :
  awaits (snd (POST env request)) = awaits (snd (start env request initial)).
Proof. unfold POST, settled. now destruct (start env request initial) as [[]]. Qed.

Lemma POST_writable env request :
  writable (snd (start env request initial)) = false ->
  writable (snd (POST env request)) = false.
Proof.
  unfold POST, settled, writable.
  destruct (start env request initial) as [[u|e] w]; [auto|].
  intros _. cbn [snd controller]. apply can_error.
Qed.

Lemma enqueue_closed ev w :
  Stream.canCloseOrEnqueue (controller w) = false ->
  enqueue ev w = (Throw Stream.invalidState, w).
Proof. intros H. unfold enqueue. now rewrite H. Qed.

Lemma close_open w :
  Stream.canCloseOrEnqueue (controller w) = true ->
  close w =
  (Normal tt,
   log CloseCalled
     {| controller := Stream.requestClose (controller w);
        awaits := awaits w; trace := trace w |}).
Proof. intros H. unfold close. now rewrite H. Qed.

Lemma close_closed w :
  Stream.canCloseOrEnqueue (controller w) = false ->
  close w = (Throw Stream.invalidState, w).
Proof. intros H. unfold close. now rewrite H. Qed.

(** The first await point, [request.json()]: the caller may be gone when
    the function resumes. *)
Lemma await_initial env :
  awaits (snd (await env initial)) = 1
  /\ match disconnectAt env with
     | Some 0 =>
         trace (snd (await env initial)) = [Disconnected]
         /\ Stream.canCloseOrEnqueue (controller (snd (await env initial)))
            = false
     | _ =>
         trace (snd (await env initial)) = []
         /\ Stream.canCloseOrEnqueue (controller (snd (await env initial)))
            = true
     end.
Proof.
  unfold await, initial. cbn [awaits controller trace].
  destruct (disconnectAt env) as [[|k]|]; cbn [Nat.eqb snd log awaits trace
                                               controller app];
    rewrite ?can_cancel, ?can_reads; now repeat split.
Qed.

Section Env.

Variable env : Env.
Hypothesis stays : disconnectAt env = None.

Lemma await_connected w :
  await env w =
  (Normal tt,
   {| controller :=
        Nat.iter (readsAt env (awaits w)) Stream.read (controller w);
      awaits := S (awaits w); trace := trace w |}).
Proof. unfold await. now rewrite stays. Qed.

Lemma steps_await : steps (await env) tt 1 [].
Proof.
  intros w Hw. unfold runs. rewrite await_connected.
  cbn [fst snd awaits trace]. unfold writable in *. cbn [controller].
  now rewrite can_reads, app_nil_r, Nat.add_1_r.
Qed.

Lemma steps_analyzeFrame i url :
  steps (analyzeFrame env i url) (verdict env i url) 1 [AnalyzeFrame i url].
Proof.
  intros w Hw. pose proof (analyzeFrame_verdict env i url w) as Hv.
  assert (H : exists b, steps (analyzeFrame env i url) b 1 [AnalyzeFrame i url]).
  { unfold analyzeFrame.
    destruct (visionJudge env i url) as [[content|]|e]; eexists;
      (eapply steps_shape;
       [eapply steps_bind;
        [apply steps_tell|eapply steps_bind; [apply steps_await|apply steps_ret]]
       |reflexivity|reflexivity|reflexivity]). }
  destruct H as (b & H). destruct (H w Hw) as (Hfst & Hrest).
  rewrite Hv in Hfst. injection Hfst as <-. split; [exact Hv|exact Hrest].
Qed.

Lemma steps_transcribeAudio audio :
  steps (transcribeAudio env audio) (transcript env audio) 1
    [TranscribeAudio audio].
Proof.
  intros w Hw. pose proof (transcribeAudio_transcript env audio w) as Hv.
  assert (H : exists t,
             steps (transcribeAudio env audio) t 1 [TranscribeAudio audio]).
  { unfold transcribeAudio.
    destruct (speechToText env audio) as [t|e]; eexists;
      (eapply steps_shape;
       [eapply steps_bind;
        [apply steps_tell|eapply steps_bind; [apply steps_await|apply steps_ret]]
       |reflexivity|reflexivity|reflexivity]). }
  destruct H as (t & H). destruct (H w Hw) as (Hfst & Hrest).
  rewrite Hv in Hfst. injection Hfst as <-. split; [exact Hv|exact Hrest].
Qed.

Lemma steps_request_json request body :
  json request = Fulfilled body ->
  steps (request_json env request) body 1 [].
Proof.
  intros Hj. unfold request_json. rewrite Hj.
  eapply steps_shape;
    [eapply steps_bind; [apply steps_await|apply steps_ret]
    |reflexivity|reflexivity|reflexivity].
Qed.

(** The loop, from iteration [i] on, with enough fuel left. *)
Lemma for_frames_connected fs fuel :
  forall i slides,
    bound fs - i <= fuel ->
    steps (for_frames env fuel fs i slides)
      (slides ++ map (fun j => slideOf (frameAt fs j))
                     (acceptedFrom env fs i (bound fs - i)))%list
      (bound fs - i)
      (flat_map (iteration fs) (seq i (bound fs - i))).
Proof.
  induction fuel as [|fuel IH]; intros i slides Hfuel.
  - assert (E : bound fs - i = 0) by lia. rewrite E.
    cbn [for_frames]. unfold acceptedFrom. cbn [seq filter map flat_map].
    rewrite app_nil_r. apply steps_ret.
  - cbn [for_frames]. destruct (Nat.ltb i (bound fs)) eqn:Hlt.
    + apply Nat.ltb_lt in Hlt.
      assert (E : bound fs - i = S (bound fs - S i)) by lia.
      assert (Hlen : i < length fs) by (unfold bound in Hlt; lia).
      rewrite (nth_error_nth' fs noFrame Hlen). fold (frameAt fs i).
      eapply steps_shape.
      * eapply steps_bind; [apply steps_enqueue|].
        eapply steps_bind; [apply steps_analyzeFrame|].
        apply IH. lia.
      * rewrite E. unfold acceptedFrom. cbn [seq filter].
        destruct (verdict env i (dataUrl (frameAt fs i))); cbn [map];
          [rewrite <- app_assoc|]; reflexivity.
      * lia.
      * rewrite E. cbn [seq flat_map]. unfold iteration at 2.
        cbn [app]. reflexivity.
    + apply Nat.ltb_ge in Hlt.
      assert (E : bound fs - i = 0) by lia. rewrite E.
      unfold acceptedFrom. cbn [seq filter map flat_map].
      rewrite app_nil_r. apply steps_ret.
Qed.

End Env.

End Connected.

(* ================================================================== *)
(** * Whole runs, caller connected *)

Module ConnectedRuns.
Import Route Observed AdapterFacts StreamFacts Connected.

Lemma bound_le_20 fs : bound fs <= 20.
Proof. unfold bound. lia. Qed.

(** The trace of a request with audio and frames that runs to
    [complete]. *)
Lemma try_block_accepted env request audio fs :
  disconnectAt env = None ->
  json request = Fulfilled {| audioDataUrl := Some audio; frames := Some fs |} ->
  truthy audio = true ->
  steps (try_block env request) tt (2 + bound fs)
    ([ Enqueued (progress "Transcribing audio...");
       TranscribeAudio audio;
       Enqueued (progress "Analyzing frames for slides...") ]
     ++ flat_map (iteration fs) (seq 0 (bound fs))
     ++ [ Enqueued (complete (transcript env audio)
                      (map (fun j => slideOf (frameAt fs j))
                           (accepted env fs))) ])%list.
Proof.
  intros Hc Hj Ha. unfold try_block.
  eapply steps_shape.
  - eapply steps_bind; [apply (steps_request_json env Hc request _ Hj)|].
    cbn [audioDataUrl frames].
    replace (truthy (Some audio)) with true by (symmetry; exact Ha).
    cbn [negb orb truthy Truthy_optional Truthy_array].
    eapply steps_bind; [apply steps_enqueue|].
    eapply steps_bind; [apply (steps_transcribeAudio env Hc)|].
    eapply steps_bind; [apply steps_enqueue|].
    eapply steps_bind;
      [apply (for_frames_connected env Hc fs 20 0 []);
       pose proof (bound_le_20 fs); lia|].
    apply steps_enqueue.
  - reflexivity.
  - lia.
  - rewrite Nat.sub_0_r. cbn [app]. reflexivity.
Qed.

(** A request with audio and frames runs to [complete]. *)
Lemma POST_accepted env request audio fs :
  disconnectAt env = None ->
  json request = Fulfilled {| audioDataUrl := Some audio; frames := Some fs |} ->
  truthy audio = true ->
  fst (POST env request) = Normal tt
  /\ awaits (snd (POST env request)) = 2 + bound fs
  /\ trace (snd (POST env request)) =
     ([ Enqueued (progress "Transcribing audio...");
        TranscribeAudio audio;
        Enqueued (progress "Analyzing frames for slides...") ]
      ++ flat_map (iteration fs) (seq 0 (bound fs))
      ++ [ Enqueued (complete (transcript env audio)
                       (map (fun j => slideOf (frameAt fs j))
                            (accepted env fs)));
           CloseCalled ])%list.
Proof.
  intros Hc Hj Ha.
  destruct (try_block_accepted env request audio fs Hc Hj Ha initial eq_refl)
    as (Hfst & Haw & Htr & Hopen).
  unfold POST, start, try_catch_finally, try_catch.
  destruct (try_block env request initial) as [c w1]. cbn [fst snd] in *.
  subst c. unfold close. unfold writable in Hopen. rewrite Hopen.
  cbn [settled fst snd log awaits trace]. rewrite Haw, Htr.
  split; [reflexivity|]. split; [reflexivity|].
  cbn [initial trace app]. rewrite <- !app_assoc. reflexivity.
Qed.

(** The branch of a request without audio or without frames. *)
Lemma try_block_missing env request body :
  json request = Fulfilled body ->
  missing (audioDataUrl body) || missing (frames body) = true ->
  try_block env request initial =
  (enqueue (error "Missing audio or frames data") ;; close)
    (snd (await env initial)).
Proof.
  intros Hj Hm. unfold missing in Hm. unfold try_block.
  unfold bind at 1. rewrite request_json_run, Hj, Hm. reflexivity.
Qed.

Lemma try_catch_finally_body {A} (body body' : Async A) handler finalizer
    w w' :
  body w = body' w' ->
  try_catch_finally body handler finalizer w =
  try_catch_finally body' handler finalizer w'.
Proof. intros E. unfold try_catch_finally, try_catch. now rewrite E. Qed.

(** That branch under [catch] and [finally], and the settling of the
    promise of [start]: [close()] is called in the branch and again in
    [finally], where it throws. *)
Lemma missing_branch w :
  let run :=
    settled (try_catch_finally
               (enqueue (error "Missing audio or frames data") ;; close)
               catch_block close w) in
  fst run = Throw Stream.invalidState
  /\ awaits (snd run) = awaits w
  /\ trace (snd run) =
     if Stream.canCloseOrEnqueue (controller w)
     then (trace w ++ [ Enqueued (error "Missing audio or frames data");
                        CloseCalled ])%list
     else trace w.
Proof.
  unfold try_catch_finally, try_catch, bind, catch_block.
  destruct (Stream.canCloseOrEnqueue (controller w)) eqn:Hw.
  - rewrite (enqueue_open _ w Hw).
    rewrite close_open by (cbn [log controller]; now rewrite can_accept).
    rewrite close_closed by (cbn [log controller]; apply can_requestClose).
    cbn [settled fst snd log awaits trace]. rewrite <- app_assoc.
    now repeat split.
  - rewrite (enqueue_closed _ w Hw).
    rewrite (enqueue_closed _ w Hw), (close_closed w Hw).
    cbn [settled fst snd awaits trace]. now repeat split.
Qed.

(** A request without audio or without frames, whatever the caller does:
    the only await point of such a run is [request.json()]. The second
    [controller.close()], in [finally], finds the stream closing or closed
    and throws, so [start] completes abruptly. *)
Lemma POST_missing env request body :
  json request = Fulfilled body ->
  missing (audioDataUrl body) || missing (frames body) = true ->
  fst (POST env request) = Throw Stream.invalidState
  /\ awaits (snd (POST env request)) = 1
  /\ trace (snd (POST env request)) =
     match disconnectAt env with
     | Some 0 => [Disconnected]
     | _ => [ Enqueued (error "Missing audio or frames data"); CloseCalled ]
     end.
Proof.
  intros Hj Hm.
  pose proof (missing_branch (snd (await env initial))) as H.
  unfold POST, start.
  rewrite (try_catch_finally_body _
             (enqueue (error "Missing audio or frames data") ;; close)
             _ _ initial (snd (await env initial))
             (try_block_missing env request body Hj Hm)).
  destruct H as (Hfst & Haw & Htr). rewrite Hfst, Haw, Htr.
  destruct (await_initial env) as [Haw0 H0].
  split; [reflexivity|]. split; [exact Haw0|].
  destruct (disconnectAt env) as [[|k]|]; destruct H0 as [-> ->];
    reflexivity.
Qed.

(** The stream of that run when the caller is there. *)
Lemma missing_branch_stream w :
  Stream.canCloseOrEnqueue (controller w) = true ->
  controller
    (snd (settled (try_catch_finally
                     (enqueue (error "Missing audio or frames data") ;; close)
                     catch_block close w)))
  = Stream.error
      (Stream.requestClose
         (Stream.accept (error "Missing audio or frames data")
            (controller w))).
Proof.
  intros Hw. unfold try_catch_finally, try_catch, bind, catch_block.
  rewrite (enqueue_open _ w Hw).
  rewrite close_open by (cbn [log controller]; now rewrite can_accept).
  rewrite close_closed by (cbn [log controller]; apply can_requestClose).
  reflexivity.
Qed.

Lemma await_initial_stream env :
  disconnectAt env <> Some 0 ->
  controller (snd (await env initial)) =
  {| Stream.state := Stream.readable; Stream.closeRequested := false;
     Stream.queue := []; Stream.readRequests := readsAt env 0;
     Stream.received := [] |}.
Proof.
  intros Hd. unfold await, initial. cbn [awaits controller trace].
  rewrite reads_fresh.
  destruct (disconnectAt env) as [[|k]|]; [now destruct Hd| |]; reflexivity.
Qed.

Lemma POST_missing_stream env request body :
  json request = Fulfilled body ->
  missing (audioDataUrl body) || missing (frames body) = true ->
  disconnectAt env <> Some 0 ->
  controller (snd (POST env request)) =
  Stream.error
    (Stream.requestClose
       (Stream.accept (error "Missing audio or frames data")
          {| Stream.state := Stream.readable; Stream.closeRequested := false;
             Stream.queue := []; Stream.readRequests := readsAt env 0;
             Stream.received := [] |})).
Proof.
  intros Hj Hm Hd. unfold POST, start.
  rewrite (try_catch_finally_body _
             (enqueue (error "Missing audio or frames data") ;; close)
             _ _ initial (snd (await env initial))
             (try_block_missing env request body Hj Hm)).
  rewrite missing_branch_stream; rewrite (await_initial_stream env Hd);
    reflexivity.
Qed.

(** A body that [request.json()] cannot parse. *)
Lemma try_block_malformed env request e :
  json request = Rejected e ->
  try_block env request initial = (Throw e, snd (await env initial)).
Proof.
  intros Hj. unfold try_block. unfold bind at 1.
  now rewrite request_json_run, Hj.
Qed.

Lemma POST_malformed env request e :
  disconnectAt env = None ->
  json request = Rejected e ->
  fst (POST env request) = Normal tt
  /\ awaits (snd (POST env request)) = 1
  /\ trace (snd (POST env request)) =
     [ Enqueued (error (or_else (message e) "Processing failed"));
       CloseCalled ].
Proof.
  intros Hc Hj.
  assert (E : POST env request =
              (Normal tt,
               log CloseCalled
                 {| controller :=
                      Stream.requestClose
                        (Stream.accept
                           (error (or_else (message e) "Processing failed"))
                           (controller (snd (await env initial))));
                    awaits := awaits (snd (await env initial));
                    trace :=
                      (trace (snd (await env initial)) ++
                       [Enqueued
                          (error (or_else (message e) "Processing failed"))])%list
                 |})).
  { destruct (await_initial env) as [_ H]. rewrite Hc in H.
    destruct H as [_ Hw].
    unfold POST, start, try_catch_finally, try_catch.
    rewrite (try_block_malformed env request e Hj).
    unfold catch_block. rewrite (enqueue_open _ _ Hw).
    rewrite close_open by (cbn [log controller]; now rewrite can_accept).
    reflexivity. }
  rewrite E. destruct (await_initial env) as [Haw H]. rewrite Hc in H.
  destruct H as [Htr _].
  cbn [fst snd log awaits trace]. rewrite Haw, Htr. now repeat split.
Qed.

End ConnectedRuns.

(* ================================================================== *)
(** * Traces *)

Module TraceFacts.
Import Route Observed.

Lemma emitted_app tr tr' :
  emitted (tr ++ tr') = (emitted tr ++ emitted tr')%list.
Proof.
  induction tr as [|a tr IH]; [reflexivity|].
  destruct a; simpl; now rewrite IH.
Qed.

Lemma classified_app tr tr' :
  classified (tr ++ tr') = (classified tr ++ classified tr')%list.
Proof.
  induction tr as [|a tr IH]; [reflexivity|].
  destruct a; simpl; now rewrite IH.
Qed.

Lemma transcribed_app tr tr' :
  transcribed (tr ++ tr') = (transcribed tr ++ transcribed tr')%list.
Proof.
  induction tr as [|a tr IH]; [reflexivity|].
  destruct a; simpl; now rewrite IH.
Qed.

Lemma emitted_iterations fs l :
  emitted (flat_map (iteration fs) l) =
  map (fun i => progress (analyzing (i + 1) (bound fs))) l.
Proof. induction l as [|i l IH]; simpl; now rewrite ?IH. Qed.

Lemma classified_iterations fs l :
  classified (flat_map (iteration fs) l) =
  map (fun i => dataUrl (frameAt fs i)) l.
Proof. induction l as [|i l IH]; simpl; now rewrite ?IH. Qed.

Lemma transcribed_iterations fs l :
  transcribed (flat_map (iteration fs) l) = [].
Proof. induction l as [|i l IH]; simpl; now rewrite ?IH. Qed.

(** Reading the first [n] cells by index gives the prefix of length [n]. *)
Lemma frames_by_index fs n :
  n <= length fs ->
  map (fun i => frameAt fs i) (seq 0 n) = firstn n fs.
Proof.
  intros Hn. apply (nth_ext _ _ noFrame noFrame).
  - rewrite length_map, length_seq, length_firstn. lia.
  - intros i Hi. rewrite length_map, length_seq in Hi.
    rewrite (nth_indep _ noFrame (frameAt fs 0)) by
      (rewrite length_map, length_seq; exact Hi).
    rewrite (map_nth (fun i => frameAt fs i) (seq 0 n) 0 i).
    rewrite seq_nth by exact Hi. simpl.
    rewrite nth_firstn.
    apply Nat.ltb_lt in Hi. now rewrite Hi.
Qed.

Lemma classified_prefix fs :
  map (fun i => dataUrl (frameAt fs i)) (seq 0 (Nat.min (length fs) 20)) =
  map dataUrl (firstn (Nat.min (length fs) 20) fs).
Proof.
  rewrite <- (frames_by_index fs (Nat.min (length fs) 20)) by lia.
  now rewrite map_map.
Qed.

Lemma all_progress_map (f : nat -> string) l :
  forallb is_progress (map (fun i => progress (f i)) l) = true.
Proof. induction l; simpl; auto. Qed.

Lemma terminal_last ps ev :
  forallb is_progress ps = true -> is_terminal ev = true ->
  progress_then_terminal (ps ++ [ev]) = true.
Proof.
  intros Hps Hev. induction ps as [|p ps IH]; [simpl; now rewrite Hev|].
  simpl in Hps. apply andb_prop in Hps as [Hp Hps].
  specialize (IH Hps). simpl.
  destruct (ps ++ [ev])%list eqn:E; [now destruct ps|].
  now rewrite Hp, IH.
Qed.

Lemma all_progress_at_most ps :
  forallb is_progress ps = true -> progress_then_at_most_terminal ps = true.
Proof.
  induction ps as [|p ps IH]; [reflexivity|]. simpl. intros H.
  apply andb_prop in H as [Hp Hps]. destruct ps; [reflexivity|].
  now rewrite Hp, IH.
Qed.

Lemma terminal_at_most evs :
  progress_then_terminal evs = true ->
  progress_then_at_most_terminal evs = true.
Proof.
  induction evs as [|p ps IH]; [discriminate|]. simpl.
  destruct ps; [reflexivity|]. intros H.
  apply andb_prop in H as [Hp Hps]. now rewrite Hp, IH.
Qed.


Lemma closed_after_terminal_app tr ev :
  is_terminal ev = true ->
  closed_after_terminal (tr ++ [Enqueued ev; CloseCalled]) = true.
Proof.
  intros H. unfold closed_after_terminal. rewrite rev_app_distr. simpl.
  exact H.
Qed.

End TraceFacts.

(* ================================================================== *)
(** * The run of an accepted request, caller connected *)

Module AcceptedRun.
Import Route Observed AdapterFacts Connected ConnectedRuns TraceFacts.

Section Run.

Variables (env : Env) (request : NextRequest).
Variables (audio : string) (fs : list VideoFrame).
Hypothesis stays : disconnectAt env = None.
Hypothesis parsed :
  json request =
  Fulfilled {| audioDataUrl := Some audio; frames := Some fs |}.
Hypothesis present : truthy audio = true.

Let w := snd (POST env request).

Lemma completes : fst (POST env request) = Normal tt.
Proof. apply (POST_accepted env request audio fs stays parsed present). Qed.

Lemma run_trace :
  trace w =
  ([ Enqueued (progress "Transcribing audio...");
     TranscribeAudio audio;
     Enqueued (progress "Analyzing frames for slides...") ]
   ++ flat_map (iteration fs) (seq 0 (bound fs))
   ++ [ Enqueued (complete (transcript env audio)
                    (map (fun j => slideOf (frameAt fs j))
                         (accepted env fs)));
        CloseCalled ])%list.
Proof. apply (POST_accepted env request audio fs stays parsed present). Qed.

Lemma events : emitted (trace w) = (stages fs ++ [complete (transcript env audio) (slidesOf env fs)])%list.
Proof.
  rewrite run_trace. unfold stages, slidesOf.
  rewrite !emitted_app, emitted_iterations. reflexivity.
Qed.

Lemma stages_progress : forallb is_progress (stages fs) = true.
Proof. unfold stages. simpl. apply all_progress_map. Qed.

Lemma classifications :
  classified (trace w) =
  map dataUrl (firstn (Nat.min (length fs) 20) fs).
Proof.
  rewrite run_trace.
  rewrite !classified_app, classified_iterations. simpl.
  rewrite app_nil_r. apply classified_prefix.
Qed.

Lemma transcriptions : transcribed (trace w) = [audio].
Proof.
  rewrite run_trace.
  rewrite !transcribed_app, transcribed_iterations. reflexivity.
Qed.

Lemma closes : closed_after_terminal (trace w) = true.
Proof.
  rewrite run_trace. rewrite app_assoc.
  now apply closed_after_terminal_app.
Qed.

End Run.


Lemma accepted_spec env fs j :
  In j (accepted env fs) <->
  j < Nat.min (length fs) 20 /\ verdict env j (dataUrl (frameAt fs j)) = true.
Proof.
  unfold accepted, acceptedFrom. rewrite filter_In, in_seq. intuition lia.
Qed.

End AcceptedRun.

(* ================================================================== *)
(** * Rules for reasoning about runs under any behaviour of the caller *)

Module Rules.
Import Route Observed.

Lemma hoare_ret {A} (a : A) (P : World -> Prop) (Q : A -> World -> Prop) E :
  (forall w, P w -> Q a w) -> hoare P (ret a) Q E.
Proof. intros H w HP. exact (H w HP). Qed.

Lemma hoare_throw {A} e (P : World -> Prop) (Q : A -> World -> Prop)
    (E : World -> Prop) :
  (forall w, P w -> E w) -> hoare P (throw e) Q E.
Proof. intros H w HP. exact (H w HP). Qed.

Lemma hoare_bind {A B} P (m : Async A) (k : A -> Async B) Q R E :
  hoare P m Q E ->
  (forall a, hoare (Q a) (k a) R E) ->
  hoare P (bind m k) R E.
Proof.
  intros Hm Hk w HP. unfold bind. specialize (Hm w HP).
  destruct (m w) as [[a|e] w']; [exact (Hk a w' Hm)|exact Hm].
Qed.

Lemma hoare_weaken {A} (P P' : World -> Prop) (m : Async A)
    (Q Q' : A -> World -> Prop) (E E' : World -> Prop) :
  hoare P m Q E ->
  (forall w, P' w -> P w) ->
  (forall a w, Q a w -> Q' a w) ->
  (forall w, E w -> E' w) ->
  hoare P' m Q' E'.
Proof.
  intros Hm HP HQ HE w H. specialize (Hm w (HP w H)).
  destruct (m w) as [[a|e] w']; auto.
Qed.

Lemma hoare_trivial {A} (m : Async A) :
  hoare (fun _ => True) m (fun _ _ => True) (fun _ => True).
Proof. intros w _. destruct (m w) as [[a|e] w']; exact I. Qed.

Lemma hoare_try_catch {A} P (body : Async A) handler
    (Q : A -> World -> Prop) (E E' : World -> Prop) :
  hoare P body Q E ->
  (forall e, hoare E (handler e) Q E') ->
  hoare P (try_catch body handler) Q E'.
Proof.
  intros Hb Hh w HP. unfold try_catch. specialize (Hb w HP).
  destruct (body w) as [[a|e] w1]; [exact Hb|exact (Hh e w1 Hb)].
Qed.

(** [finally]: however the block and the handler ended, the finalizer
    runs, and its post-condition is that of the whole. *)
Lemma hoare_finally {A} P (body : Async A) handler finalizer
    (Q E R : World -> Prop) :
  hoare P (try_catch body handler) (fun _ => Q) E ->
  hoare Q finalizer (fun _ => R) R ->
  hoare E finalizer (fun _ => R) R ->
  forall w, P w -> R (snd (try_catch_finally body handler finalizer w)).
Proof.
  intros Htc Hq He w HP. unfold try_catch_finally. specialize (Htc w HP).
  destruct (try_catch body handler w) as [[a|e] w2].
  - specialize (Hq w2 Htc).
    destruct (finalizer w2) as [[u|e'] w3]; exact Hq.
  - specialize (He w2 Htc).
    destruct (finalizer w2) as [[u|e'] w3]; exact He.
Qed.

End Rules.

(* ================================================================== *)
(** * Cancellation: the invariant [quiet] *)

Module Cancellation.
Import Route Observed Rules StreamFacts.

(** The invariants of a run look at its trace and at whether its stream
    still accepts chunks. *)
Lemma quiet_view w w' :
  trace w' = trace w -> writable w' = writable w -> quiet w -> quiet w'.
Proof. unfold quiet. now intros -> ->. Qed.

Lemma writable_accept ev w :
  writable {| controller := Stream.accept ev (controller w);
              awaits := awaits w; trace := trace w |} = writable w.
Proof. unfold writable. cbn [controller]. apply can_accept. Qed.

Lemma writable_reads n k w :
  writable {| controller := Nat.iter n Stream.read (controller w);
              awaits := k; trace := trace w |} = writable w.
Proof. unfold writable. cbn [controller]. apply can_reads. Qed.

Lemma quiet_after_disconnect_snoc tr a :
  is_analyze a = false ->
  quiet_after_disconnect tr = true ->
  quiet_after_disconnect (tr ++ [a]) = true.
Proof.
  intros Ha. induction tr as [|b tr IH]; intros H.
  - destruct a; try reflexivity; discriminate.
  - destruct b; simpl in *; auto.
    rewrite forallb_app, H. simpl. now rewrite Ha.
Qed.

Lemma quiet_after_disconnect_connected tr a :
  existsb is_disconnected tr = false ->
  quiet_after_disconnect (tr ++ [a]) = true.
Proof.
  induction tr as [|b tr IH]; intros H.
  - now destruct a.
  - destruct b; simpl in *; auto; discriminate.
Qed.

Lemma connected_snoc tr a :
  is_disconnected a = false ->
  existsb is_disconnected tr = false ->
  existsb is_disconnected (tr ++ [a]) = false.
Proof. intros Ha H. rewrite existsb_app, H. simpl. now rewrite Ha. Qed.

Lemma cancel_not_writable c :
  Stream.canCloseOrEnqueue (Stream.cancel c) = false.
Proof. apply can_cancel. Qed.

Lemma quiet_log a w :
  is_analyze a = false -> is_disconnected a = false ->
  quiet w -> quiet (log a w).
Proof.
  intros Ha Hd [Hq Hw]. split; simpl.
  - now apply quiet_after_disconnect_snoc.
  - intros Ho. apply connected_snoc; auto.
Qed.

Lemma quiet_enqueue ev :
  hoare quiet (enqueue ev) (fun _ w => quiet w /\ writable w = true) quiet.
Proof.
  intros w H. unfold enqueue.
  destruct (Stream.canCloseOrEnqueue (controller w)) eqn:Ho; [|exact H].
  split.
  - apply quiet_log; [reflexivity|reflexivity|].
    apply (quiet_view w); [reflexivity|apply writable_accept|exact H].
  - unfold writable. cbn [log controller]. now rewrite can_accept.
Qed.

Lemma quiet_close : hoare quiet close (fun _ => quiet) quiet.
Proof.
  intros w [Hq Hw]. unfold close.
  destruct (Stream.canCloseOrEnqueue (controller w)) eqn:Ho; [|now split].
  split; simpl.
  - now apply quiet_after_disconnect_snoc.
  - unfold writable. cbn [log controller]. rewrite can_requestClose.
    discriminate.
Qed.

Section Env.

Variable env : Env.

Lemma quiet_await : hoare quiet (await env) (fun _ => quiet) quiet.
Proof.
  intros w Hq. unfold await.
  assert (Hq' : quiet
            {| controller :=
                 Nat.iter (readsAt env (awaits w)) Stream.read (controller w);
               awaits := S (awaits w); trace := trace w |})
    by (apply (quiet_view w); [reflexivity|apply writable_reads|exact Hq]).
  destruct (disconnectAt env) as [k|]; [|exact Hq'].
  destruct (Nat.eqb k (awaits w)); [|exact Hq'].
  destruct Hq as [Hq Hw]. split; simpl.
  - now apply quiet_after_disconnect_snoc.
  - unfold writable. simpl. rewrite cancel_not_writable. discriminate.
Qed.

Lemma quiet_transcribeAudio audio :
  hoare quiet (transcribeAudio env audio) (fun _ => quiet) quiet.
Proof.
  unfold transcribeAudio.
  apply hoare_bind with (Q := fun _ => quiet).
  { intros w H. now apply quiet_log. }
  intros ?. apply hoare_bind with (Q := fun _ => quiet); [apply quiet_await|].
  intros ?. destruct (speechToText env audio); apply hoare_ret; auto.
Qed.

(** [analyzeFrame] is entered right after a progress event was accepted:
    the stream is writable, hence the caller still there. *)
Lemma quiet_analyzeFrame i url :
  hoare (fun w => quiet w /\ writable w = true)
        (analyzeFrame env i url) (fun _ => quiet) quiet.
Proof.
  unfold analyzeFrame.
  apply hoare_bind with (Q := fun _ => quiet).
  { intros w [[Hq Hw] Ho]. split; simpl.
    - apply quiet_after_disconnect_connected. auto.
    - intros ?. apply connected_snoc; auto. }
  intros ?. apply hoare_bind with (Q := fun _ => quiet); [apply quiet_await|].
  intros ?. destruct (visionJudge env i url) as [[content|]|e]; apply hoare_ret; auto.
Qed.

Lemma quiet_for_frames fs fuel :
  forall i slides,
    hoare quiet (for_frames env fuel fs i slides) (fun _ => quiet) quiet.
Proof.
  induction fuel as [|fuel IH]; intros i slides; simpl.
  - apply hoare_ret; auto.
  - destruct (Nat.ltb i (bound fs)); [|apply hoare_ret; auto].
    eapply hoare_bind; [apply quiet_enqueue|]. intros ?.
    destruct (nth_error fs i) as [frame|].
    + eapply hoare_bind; [apply quiet_analyzeFrame|].
      intros isSlide. apply IH.
    + apply hoare_throw. intuition.
Qed.

Lemma quiet_try_block request :
  hoare quiet (try_block env request) (fun _ => quiet) quiet.
Proof.
  unfold try_block.
  apply hoare_bind with (Q := fun _ => quiet).
  { unfold request_json.
    apply hoare_bind with (Q := fun _ => quiet); [apply quiet_await|].
    intros ?. destruct (json request); [apply hoare_ret|apply hoare_throw]; auto. }
  intros body.
  destruct (negb (truthy (audioDataUrl body)) || negb (truthy (frames body))).
  - apply hoare_bind with (Q := fun _ => quiet); [|intros ?; apply quiet_close].
    eapply hoare_weaken; [apply quiet_enqueue| | |]; simpl; intuition.
  - destruct (audioDataUrl body) as [audio|]; [|apply hoare_ret; auto].
    destruct (frames body) as [fs|]; [|apply hoare_ret; auto].
    apply hoare_bind with (Q := fun _ => quiet).
    { eapply hoare_weaken; [apply quiet_enqueue| | |]; simpl; intuition. }
    intros ?. eapply hoare_bind; [apply quiet_transcribeAudio|].
    intros transcription.
    apply hoare_bind with (Q := fun _ => quiet).
    { eapply hoare_weaken; [apply quiet_enqueue| | |]; simpl; intuition. }
    intros ?. eapply hoare_bind; [apply quiet_for_frames|].
    intros slides.
    eapply hoare_weaken; [apply quiet_enqueue| | |]; simpl; intuition.
Qed.

(** The world in which [finally] is entered. *)
Lemma quiet_before_finally request :
  hoare quiet (try_catch (try_block env request) catch_block)
        (fun _ => quiet) quiet.
Proof.
  apply hoare_try_catch with (E := quiet); [apply quiet_try_block|].
  intros e. unfold catch_block.
  eapply hoare_weaken; [apply quiet_enqueue| | |]; simpl; intuition.
Qed.

Lemma quiet_start request w : quiet w -> quiet (snd (start env request w)).
Proof.
  unfold start.
  apply hoare_finally with (Q := quiet) (E := quiet);
    [apply quiet_before_finally|apply quiet_close|apply quiet_close].
Qed.

(** After a disconnection the [close()] of [finally] throws: [start] ends
    abruptly. *)
Lemma start_aborts request w :
  quiet w ->
  existsb is_disconnected (trace (snd (start env request w))) = true ->
  fst (start env request w) = Throw Stream.invalidState.
Proof.
  intros Hq. unfold start, try_catch_finally.
  pose proof (quiet_before_finally request w Hq) as H2.
  destruct (try_catch (try_block env request) catch_block w) as [c w2].
  assert (Hq2 : quiet w2) by (destruct c; exact H2). clear H2.
  unfold close. destruct (Stream.canCloseOrEnqueue (controller w2)) eqn:Ho.
  - destruct Hq2 as [_ Hw]. specialize (Hw Ho).
    cbn [snd trace log]. rewrite existsb_app, Hw. discriminate.
  - reflexivity.
Qed.

End Env.

Lemma quiet_initial : quiet initial.
Proof. split; reflexivity. Qed.

End Cancellation.

(* ================================================================== *)
(** * The event protocol under any behaviour of the caller *)

Module Protocol.
Import Route Observed Rules TraceFacts StreamFacts.

Lemma emitted_log_event ev w :
  emitted (trace (log (Enqueued ev) w)) = (emitted (trace w) ++ [ev])%list.
Proof. simpl. now rewrite emitted_app. Qed.

Lemma emitted_log_other a w :
  (forall ev, a <> Enqueued ev) ->
  emitted (trace (log a w)) = emitted (trace w).
Proof.
  intros Ha. simpl. rewrite emitted_app.
  destruct a; simpl; try apply app_nil_r. now destruct (Ha ev).
Qed.

Lemma only_progress_faulted w : only_progress w -> faulted w.
Proof. intros H. split; [now apply all_progress_at_most|now left]. Qed.

Lemma progress_enqueue message :
  hoare only_progress (enqueue (progress message))
        (fun _ => only_progress) only_progress.
Proof.
  intros w H. unfold enqueue.
  destruct (Stream.canCloseOrEnqueue (controller w)); [|exact H].
  unfold only_progress in *. rewrite emitted_log_event. cbn [trace].
  rewrite forallb_app, H. reflexivity.
Qed.

Lemma terminal_enqueue ev :
  is_terminal ev = true ->
  hoare only_progress (enqueue ev)
        (fun _ w => one_terminal w /\ writable w = true)
        (fun w => only_progress w /\ writable w = false).
Proof.
  intros Hev w H. unfold enqueue.
  destruct (Stream.canCloseOrEnqueue (controller w)) eqn:Ho; [|now split].
  split; [|unfold writable; cbn [log controller]; now rewrite can_accept].
  unfold one_terminal. rewrite emitted_log_event. now apply terminal_last.
Qed.

Lemma close_after_terminal :
  hoare (fun w => one_terminal w /\ writable w = true) close
        (fun _ => one_terminal) faulted.
Proof.
  intros w [H Ho]. unfold close. unfold writable in Ho. rewrite Ho.
  unfold one_terminal in *. simpl. rewrite emitted_app. simpl.
  now rewrite app_nil_r.
Qed.

Lemma close_keeps_events :
  hoare at_most_terminal close (fun _ => at_most_terminal) at_most_terminal.
Proof.
  intros w H. unfold close.
  destruct (Stream.canCloseOrEnqueue (controller w)); [|exact H].
  unfold at_most_terminal in *. simpl. rewrite emitted_app. simpl.
  now rewrite app_nil_r.
Qed.

Lemma close_seals (P : World -> Prop) :
  hoare P close (fun _ w => sealed w = true) (fun w => sealed w = true).
Proof.
  intros w _. unfold close, sealed.
  destruct (Stream.canCloseOrEnqueue (controller w)) eqn:Ho.
  - cbn [log controller]. now rewrite can_requestClose.
  - now rewrite Ho.
Qed.

(** The handler of [catch]: its event is accepted only by a stream that
    has seen no terminal event. *)
Lemma handler_at_most message :
  hoare faulted (enqueue (error message))
        (fun _ => at_most_terminal) at_most_terminal.
Proof.
  intros w [Ham Hor]. unfold enqueue.
  destruct (Stream.canCloseOrEnqueue (controller w)) eqn:Ho; [|exact Ham].
  destruct Hor as [Hp|Hw]; [|unfold writable in Hw; congruence].
  apply terminal_at_most. unfold at_most_terminal.
  rewrite emitted_log_event. now apply terminal_last.
Qed.

Section Env.

Variable env : Env.

Lemma only_progress_await :
  hoare only_progress (await env) (fun _ => only_progress) only_progress.
Proof.
  intros w H. unfold await.
  destruct (disconnectAt env) as [k|]; [|exact H].
  destruct (Nat.eqb k (awaits w)); [|exact H].
  unfold only_progress in *. simpl. rewrite emitted_app. simpl.
  now rewrite app_nil_r.
Qed.

Lemma only_progress_tell a :
  (forall ev, a <> Enqueued ev) ->
  hoare only_progress (tell a) (fun _ => only_progress) only_progress.
Proof.
  intros Ha w H. unfold tell, only_progress in *.
  now rewrite emitted_log_other.
Qed.

Lemma only_progress_transcribeAudio audio :
  hoare only_progress (transcribeAudio env audio)
        (fun _ => only_progress) only_progress.
Proof.
  unfold transcribeAudio.
  eapply hoare_bind; [apply only_progress_tell; discriminate|]. intros ?.
  eapply hoare_bind; [apply only_progress_await|]. intros ?.
  destruct (speechToText env audio); apply hoare_ret; auto.
Qed.

Lemma only_progress_analyzeFrame i url :
  hoare only_progress (analyzeFrame env i url)
        (fun _ => only_progress) only_progress.
Proof.
  unfold analyzeFrame.
  eapply hoare_bind; [apply only_progress_tell; discriminate|]. intros ?.
  eapply hoare_bind; [apply only_progress_await|]. intros ?.
  destruct (visionJudge env i url) as [[content|]|e]; apply hoare_ret; auto.
Qed.

Lemma only_progress_for_frames fs fuel :
  forall i slides,
    hoare only_progress (for_frames env fuel fs i slides)
          (fun _ => only_progress) only_progress.
Proof.
  induction fuel as [|fuel IH]; intros i slides; simpl.
  - apply hoare_ret; auto.
  - destruct (Nat.ltb i (bound fs)); [|apply hoare_ret; auto].
    eapply hoare_bind; [apply progress_enqueue|]. intros ?.
    destruct (nth_error fs i) as [frame|]; [|apply hoare_throw; auto].
    eapply hoare_bind; [apply only_progress_analyzeFrame|].
    intros isSlide. apply IH.
Qed.

(** The [try] block of [start]. *)
Lemma try_block_events request :
  hoare only_progress (try_block env request)
        (fun _ => at_most_terminal) faulted.
Proof.
  unfold try_block.
  apply hoare_bind with (Q := fun _ => only_progress).
  { unfold request_json.
    apply hoare_bind with (Q := fun _ => only_progress).
    - eapply hoare_weaken; [apply only_progress_await| | |]; simpl;
        auto using only_progress_faulted.
    - intros ?. destruct (json request).
      + apply hoare_ret; auto.
      + apply hoare_throw; auto using only_progress_faulted. }
  intros body.
  destruct (negb (truthy (audioDataUrl body)) || negb (truthy (frames body))).
  - apply hoare_bind with (Q := fun _ w => one_terminal w /\ writable w = true).
    + eapply hoare_weaken;
        [apply (terminal_enqueue (error "Missing audio or frames data"));
         reflexivity
        |auto|auto|].
      intros w [H _]. now apply only_progress_faulted.
    + intros ?. eapply hoare_weaken; [apply close_after_terminal|auto| |auto].
      intros ? w H. now apply terminal_at_most.
  - destruct (audioDataUrl body) as [audio|];
      [|apply hoare_ret; intros w; apply all_progress_at_most].
    destruct (frames body) as [fs|];
      [|apply hoare_ret; intros w; apply all_progress_at_most].
    apply hoare_bind with (Q := fun _ => only_progress).
    { eapply hoare_weaken; [apply progress_enqueue| | |]; simpl;
        auto using only_progress_faulted. }
    intros ?. apply hoare_bind with (Q := fun _ => only_progress).
    { eapply hoare_weaken; [apply only_progress_transcribeAudio| | |]; simpl;
        auto using only_progress_faulted. }
    intros transcription. apply hoare_bind with (Q := fun _ => only_progress).
    { eapply hoare_weaken; [apply progress_enqueue| | |]; simpl;
        auto using only_progress_faulted. }
    intros ?. apply hoare_bind with (Q := fun _ => only_progress).
    { eapply hoare_weaken; [apply only_progress_for_frames| | |]; simpl;
        auto using only_progress_faulted. }
    intros slides.
    eapply hoare_weaken;
      [apply (terminal_enqueue (complete transcription slides)); reflexivity
      |auto| |].
    + intros ? w [H _]. now apply terminal_at_most.
    + intros w [H _]. now apply only_progress_faulted.
Qed.

Lemma start_at_most_terminal request w :
  only_progress w -> at_most_terminal (snd (start env request w)).
Proof.
  unfold start.
  apply hoare_finally with (Q := at_most_terminal) (E := at_most_terminal);
    try apply close_keeps_events.
  apply hoare_try_catch with (E := faulted); [apply try_block_events|].
  intros e. apply handler_at_most.
Qed.

Lemma start_seals request w : sealed (snd (start env request w)) = true.
Proof.
  unfold start.
  apply hoare_finally with (P := fun _ => True) (Q := fun _ => True)
                           (E := fun _ => True);
    try apply close_seals; try exact I.
  apply hoare_trivial.
Qed.

End Env.

End Protocol.

(* ================================================================== *)
(** * What reaches the reader *)

Module Delivery.
Import Route Observed Rules TraceFacts StreamFacts Protocol.

Lemma conserved_enqueue ev :
  hoare conserved (enqueue ev) (fun _ => conserved) conserved.
Proof.
  intros w H. unfold enqueue.
  destruct (Stream.canCloseOrEnqueue (controller w)) eqn:Ho; [|exact H].
  destruct (H Ho) as [Hsum Hwait]. intros _.
  cbn [log controller trace]. rewrite emitted_app. cbn [emitted].
  rewrite <- Hsum. unfold Stream.accept.
  destruct (Stream.readRequests (controller w)) as [|waiting] eqn:Hr;
    cbn [Stream.received Stream.queue Stream.readRequests].
  - split; [now rewrite app_assoc|]. intros Hn. now destruct Hn.
  - assert (Hq : Stream.queue (controller w) = [])
      by (apply Hwait; discriminate).
    rewrite Hq, !app_nil_r. now split.
Qed.

Lemma conserved_close : hoare conserved close (fun _ => conserved) conserved.
Proof.
  intros w H. unfold close.
  destruct (Stream.canCloseOrEnqueue (controller w)) eqn:Ho; [|exact H].
  intros Hw. unfold writable in Hw. cbn [log controller] in Hw.
  rewrite can_requestClose in Hw. discriminate.
Qed.

Lemma conserved_tell a :
  (forall ev, a <> Enqueued ev) ->
  hoare conserved (tell a) (fun _ => conserved) conserved.
Proof.
  intros Ha w H Hw. unfold tell in *. cbn [snd] in *.
  rewrite emitted_log_other by exact Ha. exact (H Hw).
Qed.

Section Env.

Variable env : Env.

Lemma conserved_await :
  hoare conserved (await env) (fun _ => conserved) conserved.
Proof.
  intros w H. unfold await.
  assert (H' : conserved
            {| controller :=
                 Nat.iter (readsAt env (awaits w)) Stream.read (controller w);
               awaits := S (awaits w); trace := trace w |}).
  { intros Hw. unfold writable in Hw. cbn [controller] in Hw.
    rewrite can_reads in Hw. destruct (H Hw) as [Hsum Hwait].
    cbn [controller trace]. rewrite <- Hsum.
    now apply reads_conserve. }
  destruct (disconnectAt env) as [k|]; [|exact H'].
  destruct (Nat.eqb k (awaits w)); [|exact H'].
  intros Hw. unfold writable in Hw. cbn [log controller] in Hw.
  rewrite can_cancel in Hw. discriminate.
Qed.

Lemma conserved_transcribeAudio audio :
  hoare conserved (transcribeAudio env audio) (fun _ => conserved) conserved.
Proof.
  unfold transcribeAudio.
  eapply hoare_bind; [apply conserved_tell; discriminate|]. intros ?.
  eapply hoare_bind; [apply conserved_await|]. intros ?.
  destruct (speechToText env audio); apply hoare_ret; auto.
Qed.

Lemma conserved_analyzeFrame i url :
  hoare conserved (analyzeFrame env i url) (fun _ => conserved) conserved.
Proof.
  unfold analyzeFrame.
  eapply hoare_bind; [apply conserved_tell; discriminate|]. intros ?.
  eapply hoare_bind; [apply conserved_await|]. intros ?.
  destruct (visionJudge env i url) as [[content|]|e]; apply hoare_ret; auto.
Qed.

Lemma conserved_for_frames fs fuel :
  forall i slides,
    hoare conserved (for_frames env fuel fs i slides)
          (fun _ => conserved) conserved.
Proof.
  induction fuel as [|fuel IH]; intros i slides; cbn [for_frames].
  - apply hoare_ret; auto.
  - destruct (Nat.ltb i (bound fs)); [|apply hoare_ret; auto].
    eapply hoare_bind; [apply conserved_enqueue|]. intros ?.
    destruct (nth_error fs i) as [frame|]; [|apply hoare_throw; auto].
    eapply hoare_bind; [apply conserved_analyzeFrame|].
    intros isSlide. apply IH.
Qed.

Lemma conserved_try_block request :
  hoare conserved (try_block env request) (fun _ => conserved) conserved.
Proof.
  unfold try_block.
  apply hoare_bind with (Q := fun _ => conserved).
  { unfold request_json.
    apply hoare_bind with (Q := fun _ => conserved); [apply conserved_await|].
    intros ?. destruct (json request);
      [apply hoare_ret|apply hoare_throw]; auto. }
  intros body.
  destruct (negb (truthy (audioDataUrl body)) || negb (truthy (frames body))).
  - eapply hoare_bind; [apply conserved_enqueue|].
    intros ?. apply conserved_close.
  - destruct (audioDataUrl body) as [audio|]; [|apply hoare_ret; auto].
    destruct (frames body) as [fs|]; [|apply hoare_ret; auto].
    eapply hoare_bind; [apply conserved_enqueue|]. intros ?.
    eapply hoare_bind; [apply conserved_transcribeAudio|]. intros ?.
    eapply hoare_bind; [apply conserved_enqueue|]. intros ?.
    eapply hoare_bind; [apply conserved_for_frames|]. intros ?.
    apply conserved_enqueue.
Qed.

Lemma conserved_before_finally request :
  hoare conserved (try_catch (try_block env request) catch_block)
        (fun _ => conserved) conserved.
Proof.
  apply hoare_try_catch with (E := conserved); [apply conserved_try_block|].
  intros e. apply conserved_enqueue.
Qed.

(** A [start] that ends normally ends with the [close()] of [finally],
    accepted by a stream that has lost nothing. *)
Lemma start_normal request w :
  conserved w ->
  fst (start env request w) = Normal tt ->
  exists w2,
    snd (start env request w) =
      log CloseCalled
        {| controller := Stream.requestClose (controller w2);
           awaits := awaits w2; trace := trace w2 |}
    /\ Stream.canCloseOrEnqueue (controller w2) = true
    /\ (Stream.received (controller w2) ++ Stream.queue (controller w2))%list
       = emitted (trace w2).
Proof.
  intros Hw. unfold start, try_catch_finally.
  pose proof (conserved_before_finally request w Hw) as H2.
  destruct (try_catch (try_block env request) catch_block w) as [c w2].
  assert (Hc2 : conserved w2) by (destruct c; exact H2). clear H2.
  unfold close.
  destruct (Stream.canCloseOrEnqueue (controller w2)) eqn:Ho;
    [|discriminate].
  intros _. exists w2. split; [reflexivity|]. split; [exact Ho|].
  exact (proj1 (Hc2 Ho)).
Qed.

End Env.

Lemma conserved_initial : conserved initial.
Proof. intros _. now split. Qed.

End Delivery.

(* ================================================================== *)
(** * A run that ends normally loses no event *)

Module DeliveryProperties.
Import Route Observed StreamFacts Delivery.

(** X14. Whatever the request, the services and the reading of the
    consumer: when [start] ends normally, the stream is closed once the
    consumer has read it to the end, and what the consumer was given is
    exactly what the run wrote, in the same order. *)
Theorem normal_end_delivers_every_event env request :
  fst (POST env request) = Normal tt ->
  let stream := Stream.readToEnd (controller (snd (POST env request))) in
  Stream.state stream = Stream.closed
  /\ Stream.received stream = emitted (trace (snd (POST env request)))
  /\ Stream.queue stream = [].
Proof.
  intros Hn. rewrite Connected.POST_fst in Hn.
  assert (E : POST env request = start env request initial).
  { unfold POST, settled.
    destruct (start env request initial) as [[u|e] w]; [reflexivity|].
    discriminate. }
  rewrite E.
  destruct (start_normal env request initial conserved_initial Hn)
    as (w2 & -> & Ho & Hsum).
  cbn [log controller trace]. rewrite TraceFacts.emitted_app.
  cbn [emitted]. rewrite app_nil_r, <- Hsum.
  unfold Stream.canCloseOrEnqueue in Ho.
  apply andb_true_iff in Ho as [_ Hs].
  destruct (Stream.state (controller w2)) eqn:Hstate; try discriminate.
  unfold Stream.requestClose.
  destruct (Stream.queue (controller w2)) as [|chunk rest] eqn:Hq.
  - cbv zeta. unfold Stream.readToEnd. cbn. now rewrite app_nil_r.
  - cbv zeta.
    match goal with
    | |- context [Stream.readToEnd ?c] =>
        destruct (readToEnd_closing (chunk :: rest) c)
          as (H1 & H2 & H3); try reflexivity; [discriminate|exact Hstate|]
    end.
    rewrite H1, H2, H3. now repeat split.
Qed.

Lemma normal_end_delivers_every_event_witness :
  Stream.received
    (Stream.readToEnd
       (controller (snd (POST Samples.lateReader Samples.request3))))
  = emitted (trace (snd (POST Samples.lateReader Samples.request3))).
Proof.
  exact (proj1 (proj2 (normal_end_delivers_every_event
                         Samples.lateReader Samples.request3 eq_refl))).
Defined.

End DeliveryProperties.

(* ================================================================== *)
(** * Strings *)

Module StringFacts.
Import Observed.

Lemma prefix_refl_app s t : String.prefix s (s ++ t) = true.
Proof.
  induction s as [|c s IH]; simpl; [now destruct t|].
  destruct (ascii_dec c c); [exact IH|congruence].
Qed.

Lemma contains_prefix needle hay :
  String.prefix needle hay = true -> contains needle hay = true.
Proof. intros H. destruct hay; cbn [contains]; now rewrite H. Qed.

Lemma contains_middle pre s post : contains s (pre ++ s ++ post) = true.
Proof.
  induction pre as [|c pre IH].
  - change ("" ++ s ++ post) with (s ++ post).
    apply contains_prefix, prefix_refl_app.
  - change (contains s (String c (pre ++ s ++ post)) = true).
    cbn [contains]. rewrite IH. apply orb_true_r.
Qed.

Lemma list_ascii_app s t :
  list_ascii_of_string (s ++ t) =
  (list_ascii_of_string s ++ list_ascii_of_string t)%list.
Proof. induction s as [|c s IH]; simpl; [reflexivity|now rewrite IH]. Qed.

Lemma bracketed_wrap s : bracketed ("[" ++ s ++ "]") = true.
Proof.
  unfold bracketed. simpl. rewrite list_ascii_app, rev_app_distr. reflexivity.
Qed.

End StringFacts.

(* ================================================================== *)
(** * Trimming and upper case *)

Module TextFacts.
Import Observed.

Local Open Scope list_scope.

Lemma sameText_eq a b : sameText a b = true <-> a = b.
Proof.
  revert b. induction a as [|u a IH]; intros [|v b]; simpl;
    try (split; [discriminate|discriminate]); [tauto|].
  rewrite andb_true_iff, N.eqb_eq, IH. split.
  - intros [-> ->]. reflexivity.
  - intros E. injection E as -> ->. now split.
Qed.

Lemma isWhiteSpace_In u :
  isWhiteSpace u = true <-> In u (whiteSpace ++ lineTerminator).
Proof.
  unfold isWhiteSpace. rewrite existsb_exists. split.
  - intros (v & Hin & E). apply N.eqb_eq in E. now subst v.
  - intros Hin. exists u. split; [exact Hin|apply N.eqb_refl].
Qed.

(** What [trim] strips is the white space of the statements. *)
Lemma isWhiteSpace_isBlank u : isWhiteSpace u = true <-> isBlank u.
Proof.
  rewrite isWhiteSpace_In. unfold isBlank, whiteSpace, lineTerminator.
  cbn [app In]. split.
  - intros H. repeat (destruct H as [<-|H]; [lia|]). destruct H.
  - intros H.
    assert (E : (u = 9 \/ u = 10 \/ u = 11 \/ u = 12 \/ u = 13 \/ u = 32
                 \/ u = 160 \/ u = 5760
                 \/ u = 8192 \/ u = 8193 \/ u = 8194 \/ u = 8195
                 \/ u = 8196 \/ u = 8197 \/ u = 8198 \/ u = 8199
                 \/ u = 8200 \/ u = 8201 \/ u = 8202
                 \/ u = 8232 \/ u = 8233 \/ u = 8239 \/ u = 8287
                 \/ u = 12288 \/ u = 65279)%N) by lia.
    clear H. repeat (destruct E as [->|E]; [tauto|]). subst u. tauto.
Qed.

Lemma blank_forallb t : blank t <-> forallb isWhiteSpace t = true.
Proof.
  unfold blank. rewrite forallb_forall, Forall_forall.
  split; intros H u Hu; apply isWhiteSpace_isBlank, H, Hu.
Qed.

(** ** [trim] takes white space off both ends, and nothing else *)

Lemma trimStart_blank pre t :
  forallb isWhiteSpace pre = true -> trimStart (pre ++ t) = trimStart t.
Proof.
  induction pre as [|u pre IH]; intros H; [reflexivity|].
  cbn [forallb] in H. apply andb_true_iff in H as [Hu H].
  cbn [app trimStart]. rewrite Hu. now apply IH.
Qed.

Lemma trimStart_keeps u t :
  isWhiteSpace u = false -> trimStart (u :: t) = u :: t.
Proof. intros H. cbn [trimStart]. now rewrite H. Qed.

Lemma trimStart_decompose t :
  exists pre, t = (pre ++ trimStart t)%list /\ forallb isWhiteSpace pre = true.
Proof.
  induction t as [|u t (pre & E & H)]; [now exists []|].
  cbn [trimStart]. destruct (isWhiteSpace u) eqn:Hu.
  - exists (u :: pre). cbn [app forallb]. rewrite Hu, H. now rewrite <- E.
  - now exists [].
Qed.

Lemma trimEnd_blank post :
  forallb isWhiteSpace post = true -> trimEnd post = [].
Proof.
  induction post as [|u post IH]; intros H; [reflexivity|].
  cbn [forallb] in H. apply andb_true_iff in H as [Hu H].
  cbn [trimEnd]. now rewrite (IH H), Hu.
Qed.

Lemma trimEnd_keeps u post :
  isWhiteSpace u = false -> forallb isWhiteSpace post = true ->
  trimEnd (u :: post) = [u].
Proof.
  intros Hu H. cbn [trimEnd]. now rewrite (trimEnd_blank post H), Hu.
Qed.

Lemma trimEnd_app l m :
  trimEnd m <> [] -> trimEnd (l ++ m) = (l ++ trimEnd m)%list.
Proof.
  intros Hm. induction l as [|u l IH]; [reflexivity|].
  cbn [app trimEnd]. rewrite IH.
  destruct (l ++ trimEnd m)%list as [|v r] eqn:E; [|reflexivity].
  apply app_eq_nil in E. now destruct E.
Qed.

Lemma trimEnd_decompose t :
  exists post, t = (trimEnd t ++ post)%list /\ forallb isWhiteSpace post = true.
Proof.
  induction t as [|u t (post & E & H)]; [now exists []|].
  cbn [trimEnd]. destruct (trimEnd t) as [|v r] eqn:Ht.
  - destruct (isWhiteSpace u) eqn:Hu.
    + exists (u :: post). cbn [app forallb].
      rewrite Hu, H. now rewrite E at 1.
    + exists post. now rewrite E at 1.
  - exists post. cbn [app]. now rewrite E at 1.
Qed.

(** A text is its trimmed text between two blank texts. *)
Lemma trim_decompose t :
  exists pre post,
    t = (pre ++ trim t ++ post)%list /\ blank pre /\ blank post.
Proof.
  destruct (trimStart_decompose t) as (pre & E & Hpre).
  destruct (trimEnd_decompose (trimStart t)) as (post & E' & Hpost).
  exists pre, post. unfold trim. rewrite <- E'.
  split; [exact E|]. now split; apply blank_forallb.
Qed.

(** Blank texts around a text that neither starts nor ends with white
    space are what [trim] removes. *)
Lemma trim_padded pre first middle last post :
  blank pre -> blank post ->
  isWhiteSpace first = false -> isWhiteSpace last = false ->
  trim (pre ++ (first :: middle ++ [last]) ++ post)
  = first :: (middle ++ [last])%list.
Proof.
  intros Hpre Hpost Hf Hl. apply blank_forallb in Hpre, Hpost.
  unfold trim. rewrite (trimStart_blank pre _ Hpre).
  cbn [app]. rewrite (trimStart_keeps _ _ Hf).
  replace (first :: (middle ++ [last]) ++ post)
    with ((first :: middle) ++ (last :: post))
    by (cbn [app]; now rewrite <- app_assoc).
  rewrite trimEnd_app; rewrite (trimEnd_keeps _ _ Hl Hpost);
    [reflexivity|discriminate].
Qed.

(** ** [toUpperCase] gives YES for the twelve spellings and for nothing else *)

Lemma startsWith_app p rest : startsWith p (p ++ rest) = true.
Proof.
  induction p as [|u p IH]; [reflexivity|].
  cbn [app startsWith]. now rewrite N.eqb_refl, IH.
Qed.

Lemma mapping_fits : forallb entryFits upperCaseMapping = true.
Proof. vm_compute. reflexivity. Qed.

Lemma upperUnits_entry c :
  (exists entry, In entry upperCaseMapping /\ fst entry = c
                 /\ upperUnits c = flat_map codeUnits (snd entry))
  \/ upperUnits c = codeUnits c.
Proof.
  unfold upperUnits, upper.
  destruct (find (fun entry => N.eqb (fst entry) c) upperCaseMapping)
    as [entry|] eqn:E.
  - left. apply find_some in E as [Hin Hc]. apply N.eqb_eq in Hc.
    exists entry. now repeat split.
  - right. cbn [flat_map]. apply app_nil_r.
Qed.

Lemma codeUnits_fits c target :
  In target remainders -> fits c (codeUnits c) target = true.
Proof.
  intros Ht. unfold codeUnits. destruct (N.ltb c 65536) eqn:Hc.
  - destruct Ht as [<-|[<-|[<-|[]]]]; cbn [text map list_ascii_of_string fits];
      cbn [startsWith sameText];
      match goal with
      | |- context [N.eqb c ?letter] =>
          destruct (N.eqb_spec c letter) as [->|]; reflexivity
      end.
  - set (lead := (55296 + (c - 65536) / 1024)%N).
    assert (Hlead : (55296 <= lead)%N) by apply N.le_add_r.
    clearbody lead.
    destruct Ht as [<-|[<-|[<-|[]]]]; cbn [text map list_ascii_of_string fits];
      cbn [startsWith];
      match goal with
      | |- context [N.eqb lead ?letter] =>
          destruct (N.eqb_spec lead letter) as [E|]; [|reflexivity]
      end;
      exfalso; cbn in E; lia.
Qed.

Lemma upperUnits_fits c target :
  In target remainders ->
  upperUnits c <> [] /\ fits c (upperUnits c) target = true.
Proof.
  intros Ht. destruct (upperUnits_entry c) as [(entry & Hin & <- & ->)| ->].
  - pose proof mapping_fits as H. rewrite forallb_forall in H.
    specialize (H entry Hin). unfold entryFits in H.
    destruct (flat_map codeUnits (snd entry)) as [|u image];
      [discriminate|].
    split; [discriminate|].
    rewrite forallb_forall in H. now apply H.
  - split; [|now apply codeUnits_fits].
    unfold codeUnits. now destruct (N.ltb c 65536).
Qed.

(** When the upper case of a code point begins a remainder of YES, the
    code point is a spelling of the first letter and its upper case is
    that letter alone. *)
Lemma upperUnits_inv c letter target rest :
  In (letter :: target) remainders ->
  upperUnits c ++ rest = letter :: target ->
  In c (spellings letter) /\ rest = target.
Proof.
  intros Ht E. destruct (upperUnits_fits c _ Ht) as [_ Hfits].
  cbn [fits] in Hfits. rewrite <- E in Hfits at 1.
  rewrite startsWith_app in Hfits. cbn [negb orb] in Hfits.
  apply andb_true_iff in Hfits as [Himage Hc].
  apply sameText_eq in Himage. rewrite Himage in E.
  injection E as ->. split; [|reflexivity].
  apply existsb_exists in Hc as (v & Hin & Hv).
  apply N.eqb_eq in Hv. now subst v.
Qed.

Lemma toUpperCase_step u rest :
  exists c rest',
    toUpperCase (u :: rest) = upperUnits c ++ toUpperCase rest'
    /\ ((c = u /\ rest' = rest)
        \/ ((65536 <= c)%N /\ exists v, rest = v :: rest')).
Proof.
  destruct rest as [|v rest'].
  - exists u, []. cbn [toUpperCase]. rewrite app_nil_r. split; [reflexivity|].
    now left.
  - cbn [toUpperCase].
    destruct (isLeadingSurrogate u && isTrailingSurrogate v).
    + exists (codePointOfPair u v), rest'. split; [reflexivity|].
      right. split; [unfold codePointOfPair; lia|now exists v].
    + exists u, (v :: rest'). split; [reflexivity|]. now left.
Qed.

Lemma toUpperCase_nil t : toUpperCase t = [] -> t = [].
Proof.
  destruct t as [|u rest]; [reflexivity|]. intros E.
  destruct (toUpperCase_step u rest) as (c & rest' & Hstep & _).
  rewrite Hstep in E. apply app_eq_nil in E as [E _].
  destruct (upperUnits_fits c (text "YES")) as [Hne _]; [now left|].
  contradiction.
Qed.

Lemma spellings_small c letter : In c (spellings letter) -> (c < 65536)%N.
Proof.
  unfold spellings.
  destruct (N.eqb letter 89); [|destruct (N.eqb letter 69);
                                 [|destruct (N.eqb letter 83)]];
    cbn; intros H; repeat (destruct H as [<-|H]; [lia|]); destruct H.
Qed.

(** One letter of YES, read back. *)
Lemma toUpperCase_letter t letter target :
  In (letter :: target) remainders ->
  toUpperCase t = letter :: target ->
  exists c rest,
    t = c :: rest /\ In c (spellings letter) /\ toUpperCase rest = target.
Proof.
  intros Ht E. destruct t as [|u rest]; [discriminate|].
  destruct (toUpperCase_step u rest) as (c & rest' & Hstep & Hc).
  rewrite Hstep in E.
  destruct (upperUnits_inv c letter target _ Ht E) as [Hin Hrest].
  pose proof (spellings_small c letter Hin) as Hsmall.
  destruct Hc as [[-> ->]|[Hbig _]]; [|lia].
  now exists u, rest.
Qed.

Lemma affirmative_upper t : toUpperCase t = text "YES" <-> affirmative t.
Proof.
  split.
  - intros E.
    destruct (toUpperCase_letter t 89%N (text "ES")) as (y & r1 & -> & Hy & E1);
      [now left|exact E|].
    destruct (toUpperCase_letter r1 69%N (text "S")) as (e & r2 & -> & He & E2);
      [right; now left|exact E1|].
    destruct (toUpperCase_letter r2 83%N []) as (s & r3 & -> & Hs & E3);
      [right; right; now left|exact E2|].
    apply toUpperCase_nil in E3. subst r3.
    exists y, e, s. now repeat split.
  - intros (y & e & s & -> & Hy & He & Hs).
    cbn in Hy, He, Hs.
    destruct Hy as [<-|[<-|[]]]; destruct He as [<-|[<-|[]]];
      destruct Hs as [<-|[<-|[<-|[]]]]; vm_compute; reflexivity.
Qed.

(** No spelling of YES starts or ends with white space. *)
Lemma affirmative_ends t :
  affirmative t ->
  exists first middle last,
    t = first :: (middle ++ [last])
    /\ isWhiteSpace first = false /\ isWhiteSpace last = false.
Proof.
  intros (y & e & s & -> & Hy & He & Hs). exists y, [e], s.
  split; [reflexivity|]. cbn in Hy, Hs.
  destruct Hy as [<-|[<-|[]]]; destruct Hs as [<-|[<-|[<-|[]]]];
    split; reflexivity.
Qed.

(** The answers [analyzeFrame] takes for a yes: a spelling of YES
    between two blank texts. *)
Lemma says_yes content :
  sameText (toUpperCase (trim content)) (text "YES") = true <->
  exists pre core post,
    content = pre ++ core ++ post
    /\ blank pre /\ affirmative core /\ blank post.
Proof.
  rewrite sameText_eq, affirmative_upper. split.
  - intros Hyes. destruct (trim_decompose content) as (pre & post & E & Hpre & Hpost).
    exists pre, (trim content), post. now repeat split.
  - intros (pre & core & post & -> & Hpre & Hcore & Hpost).
    destruct (affirmative_ends core Hcore)
      as (first & middle & last & -> & Hf & Hl).
    now rewrite (trim_padded pre first middle last post Hpre Hpost Hf Hl).
Qed.

End TextFacts.

(* ================================================================== *)
(** * The claims about the coordinator *)

Module RouteClaims.
Import Route Observed AdapterFacts Connected ConnectedRuns TraceFacts.
Import AcceptedRun Rules Cancellation Protocol StringFacts TextFacts.



(** Of twenty-five frames the first twenty are classified, the others
    are not. *)
Example twenty_five_frames_twenty_calls :
  let calls :=
    classified (trace (snd (POST Samples.yesNoYes Samples.request25))) in
  calls = map dataUrl (firstn 20 Samples.twentyFiveFrames)
  /\ length calls = 20.
Proof.
  cbv zeta.
  rewrite (classifications Samples.yesNoYes Samples.request25
             Samples.someAudio Samples.twentyFiveFrames
             eq_refl eq_refl eq_refl).
  split; reflexivity.
Qed.

(** What every run writes, whatever the request and whatever the caller
    does: progress events followed by at most one terminal event, on a
    stream that accepts no more chunks when [start] has ended. When the
    caller stays connected the terminal event is written, exactly one,
    [complete] or [error], and the last two actions of the run are that
    event and an accepted [close()]. *)
Lemma events_of_every_run env request :
  let w := snd (POST env request) in
  sealed w = true /\
  progress_then_at_most_terminal (emitted (trace w)) = true /\
  (disconnectAt env = None ->
   progress_then_terminal (emitted (trace w)) = true /\
   closed_after_terminal (trace w) = true).
Proof.
  intros w. unfold w. clear w. split; [|split].
  - pose proof (start_seals env request initial) as H.
    unfold sealed in *. apply negb_true_iff in H. apply negb_true_iff.
    now apply POST_writable.
  - rewrite POST_trace. apply start_at_most_terminal; reflexivity.
  - intros Hc.
    destruct (json request) as [[oa ofs]|e] eqn:Hj.
    + destruct (missing oa || missing ofs) eqn:Hm.
      * destruct (POST_missing env request _ Hj Hm) as (_ & _ & Htr).
        rewrite Htr, Hc. split; reflexivity.
      * apply orb_false_elim in Hm as [Hoa Hofs]. unfold missing in *.
        destruct oa as [audio|]; [|discriminate].
        destruct ofs as [fs|]; [|discriminate].
        apply negb_false_iff in Hoa. cbn in Hoa.
        split.
        -- rewrite (events env request audio fs Hc Hj Hoa).
           apply terminal_last; [apply stages_progress|reflexivity].
        -- apply (closes env request audio fs Hc Hj Hoa).
    + destruct (POST_malformed env request e Hc Hj) as (_ & _ & Htr).
      rewrite Htr. split; reflexivity.
Qed.


(** C2, where the code departs from it. A request without audio or without
    frames, from a caller that is there: the run writes the one error
    event and calls [close()], and [finally] calls [close()] again, which
    throws, so that the promise of [start] rejects. When no [read()] of
    the consumer was waiting for the event, the event is still in the
    queue and the stream still readable at that moment: the stream is
    errored and its queue emptied, and the consumer gets no event and a
    failed stream. When a [read()] was waiting, it got the event, and the
    stream was closed by the first [close()]. *)
Theorem missing_input_errors_the_stream env request body :
  json request = Fulfilled body ->
  missing (audioDataUrl body) || missing (frames body) = true ->
  disconnectAt env <> Some 0 ->
  let run := POST env request in
  let stream := controller (snd run) in
  fst run = Throw Stream.invalidState
  /\ emitted (trace (snd run)) = [error "Missing audio or frames data"]
  /\ filter (fun a => match a with CloseCalled => true | _ => false end)
        (trace (snd run)) = [CloseCalled]
  /\ (readsAt env 0 = 0 ->
      Stream.state stream = Stream.errored
      /\ Stream.queue stream = []
      /\ Stream.received (Stream.readToEnd stream) = [])
  /\ (readsAt env 0 <> 0 ->
      Stream.state stream = Stream.closed
      /\ Stream.received stream = [error "Missing audio or frames data"]).
Proof.
  intros Hj Hm Hd run stream.
  destruct (POST_missing env request body Hj Hm) as (Hfst & _ & Htr).
  assert (Htrace : trace (snd run) =
                   [ Enqueued (error "Missing audio or frames data");
                     CloseCalled ]).
  { unfold run. rewrite Htr.
    destruct (disconnectAt env) as [[|k]|]; [now destruct Hd| |];
      reflexivity. }
  split; [exact Hfst|]. split; [now rewrite Htrace|].
  split; [now rewrite Htrace|].
  unfold stream, run. rewrite (POST_missing_stream env request body Hj Hm Hd).
  split.
  - intros ->. repeat split.
  - intros Hn. destruct (readsAt env 0) as [|n]; [now destruct Hn|].
    split; reflexivity.
Qed.

Lemma missing_input_errors_the_stream_witness :
  let stream :=
    controller (snd (POST Samples.lateReader Samples.noFrames)) in
  emitted (trace (snd (POST Samples.lateReader Samples.noFrames)))
  = [error "Missing audio or frames data"]
  /\ Stream.state stream = Stream.errored
  /\ Stream.received (Stream.readToEnd stream) = [].
Proof.
  destruct (missing_input_errors_the_stream Samples.lateReader
              Samples.noFrames _ eq_refl eq_refl)
    as (_ & Hev & _ & Hlate & _); [discriminate|].
  destruct (Hlate eq_refl) as (Hs & _ & Hr).
  split; [exact Hev|]. split; [exact Hs|exact Hr].
Defined.

(** On the sibling paths [close()] is called once, in [finally]: the
    same consumer, reading after the run, gets the error event of a body
    that cannot be parsed, and the stream closes. *)
Example malformed_body_closes_the_stream :
  let request := {| json := Rejected {| message := Some "Unexpected token" |} |} in
  let stream :=
    Stream.readToEnd (controller (snd (POST Samples.lateReader request))) in
  fst (POST Samples.lateReader request) = Normal tt
  /\ Stream.state stream = Stream.closed
  /\ Stream.received stream = [error "Unexpected token"].
Proof. repeat split. Qed.

(** C3. [transcribeAudio] always returns a string. When the speech service
    fails, the string is the failure reason wrapped in a bracketed
    sentinel; the run of a connected caller then goes on: the first
    min(n,20) frames are classified and the run ends normally with a
    [complete] event that carries the sentinel and the slides. *)
Theorem transcription_failure_degrades
    env request audio (fs : list VideoFrame) reason :
  disconnectAt env = None ->
  json request = Fulfilled {| audioDataUrl := Some audio; frames := Some fs |} ->
  truthy audio = true ->
  speechToText env audio = Rejected reason ->
  let sentinel :=
    "[Transcription unavailable: " ++ template (message reason) ++ "]" in
  let w := snd (POST env request) in
  (forall env' audio' w', exists text,
      fst (transcribeAudio env' audio' w') = Normal text)
  /\ (forall w', fst (transcribeAudio env audio w') = Normal sentinel)
  /\ bracketed sentinel = true
  /\ contains (template (message reason)) sentinel = true
  /\ fst (POST env request) = Normal tt
  /\ classified (trace w) = map dataUrl (firstn (Nat.min (length fs) 20) fs)
  /\ emitted (trace w) =
     (stages fs ++ [complete sentinel (slidesOf env fs)])%list.
Proof.
  intros Hc Hj Ha Hfail sentinel w.
  assert (Ht : transcript env audio = sentinel)
    by (rewrite transcript_unfold, Hfail; reflexivity).
  repeat split.
  - intros env' audio' w'. eexists. apply transcribeAudio_transcript.
  - intros w'. rewrite transcribeAudio_transcript. now rewrite Ht.
  - apply (bracketed_wrap
             ("Transcription unavailable: " ++ template (message reason))).
  - apply (contains_middle "[Transcription unavailable: ").
  - apply (completes env request audio fs Hc Hj Ha).
  - apply (classifications env request audio fs Hc Hj Ha).
  - unfold w. rewrite (events env request audio fs Hc Hj Ha). now rewrite Ht.
Qed.

Lemma transcription_failure_degrades_witness :
  fst (POST Samples.failing Samples.request3) = Normal tt /\
  classified (trace (snd (POST Samples.failing Samples.request3))) =
  map dataUrl Samples.threeFrames /\
  filter is_terminal
    (emitted (trace (snd (POST Samples.failing Samples.request3)))) =
  [ complete "[Transcription unavailable: 401 Incorrect API key]"
      [ {| image := "data:image/png;base64,BBB"; slide_timestamp := 5 |};
        {| image := "data:image/png;base64,CCC"; slide_timestamp := 10 |} ] ].
Proof.
  destruct (transcription_failure_degrades
              Samples.failing Samples.request3 Samples.someAudio
              Samples.threeFrames _ eq_refl eq_refl eq_refl eq_refl)
    as (_ & _ & _ & _ & Hend & Hcalls & Hevents).
  split; [exact Hend|]. split; [exact Hcalls|].
  rewrite Hevents. reflexivity.
Defined.

(** C4. [analyzeFrame] always returns a boolean, and returns true exactly
    when the judge answered with a spelling of YES (each letter in either
    case) with nothing but white space and line terminators before and
    after it; every other answer, an absent answer and a failed request
    give false. In the run of a connected caller every one of the first
    min(n,20) frames is classified whatever the earlier verdicts and
    failures were, the run ends with a [complete] event, and a frame is
    among the slides exactly when its own verdict is true. *)
Theorem classifier_accepts_exactly_yes :
  (forall env i url w,
      fst (analyzeFrame env i url w) = Normal true \/
      fst (analyzeFrame env i url w) = Normal false)
  /\ (forall env i url w,
        fst (analyzeFrame env i url w) = Normal true <->
        exists pre core post,
          visionJudge env i url = Fulfilled (Some (pre ++ core ++ post)%list)
          /\ blank pre /\ affirmative core /\ blank post)
  /\ (forall env i url w e,
        visionJudge env i url = Rejected e ->
        fst (analyzeFrame env i url w) = Normal false)
  /\ (forall env i url w,
        visionJudge env i url = Fulfilled None ->
        fst (analyzeFrame env i url w) = Normal false)
  /\ (forall env request audio (fs : list VideoFrame),
        disconnectAt env = None ->
        json request =
          Fulfilled {| audioDataUrl := Some audio; frames := Some fs |} ->
        truthy audio = true ->
        let w := snd (POST env request) in
        fst (POST env request) = Normal tt
        /\ classified (trace w) =
           map dataUrl (firstn (Nat.min (length fs) 20) fs)
        /\ emitted (trace w) =
           (stages fs ++
            [complete (transcript env audio)
               (map (fun j => slideOf (frameAt fs j)) (accepted env fs))])%list
        /\ (forall j, In j (accepted env fs) <->
                      j < Nat.min (length fs) 20 /\
                      fst (analyzeFrame env j (dataUrl (frameAt fs j)) w)
                      = Normal true)).
Proof.
  split; [|split; [|split; [|split]]].
  - intros env i url w. rewrite analyzeFrame_verdict.
    destruct (verdict env i url); [now left|now right].
  - intros env i url w. rewrite analyzeFrame_returns. split.
    + intros H.
      destruct (visionJudge env i url) as [[content|]|e]; try discriminate.
      injection H as H. apply says_yes in H.
      destruct H as (pre & core & post & -> & Hpre & Hcore & Hpost).
      exists pre, core, post. now repeat split.
    + intros (pre & core & post & Hj & Hpre & Hcore & Hpost). rewrite Hj.
      f_equal. apply says_yes. exists pre, core, post. now repeat split.
  - intros env i url w e H. rewrite analyzeFrame_returns, H. reflexivity.
  - intros env i url w H. rewrite analyzeFrame_returns, H. reflexivity.
  - intros env request audio fs Hc Hj Ha w.
    split; [apply (completes env request audio fs Hc Hj Ha)|].
    split; [apply (classifications env request audio fs Hc Hj Ha)|].
    split; [apply (events env request audio fs Hc Hj Ha)|].
    intros j. rewrite accepted_spec, analyzeFrame_verdict.
    split; intros [Hlt Hv]; (split; [exact Hlt|]); congruence.
Qed.

Lemma classifier_accepts_exactly_yes_witness :
  classified (trace (snd (POST Samples.failing Samples.request3))) =
  map dataUrl Samples.threeFrames /\
  accepted Samples.failing Samples.threeFrames = [1; 2] /\
  fst (analyzeFrame Samples.failing 0 "data:image/png;base64,AAA" initial)
  = Normal false.
Proof.
  destruct classifier_accepts_exactly_yes as (_ & _ & Hfail & _ & Hrun).
  destruct (Hrun Samples.failing Samples.request3 Samples.someAudio
              Samples.threeFrames eq_refl eq_refl eq_refl)
    as (_ & Hcalls & _ & _).
  split; [exact Hcalls|]. split; [reflexivity|].
  exact (Hfail Samples.failing 0 _ initial _ eq_refl).
Defined.

(** Answers of the judge and the verdicts they get: plain spellings,
    padded ones (the last with a no-break space, a line separator, an
    ideographic space and a byte order mark), the long s, and answers
    that say more or less than the token; the sharp s becomes SS. *)
Example verdicts_on_answers :
  map (fun answer => sameText (toUpperCase (trim answer)) (text "YES"))
      [ text "YES"; text "yes"; text "  Yes "; text "YES.";
        text "Yes, it is"; text "NO"; []; text "Y E S";
        ([160; 8232] ++ text "yEs" ++ [12288; 10; 65279])%list%N;
        (text "ye" ++ [383])%list%N;
        (text "YE" ++ [223])%list%N;
        (text "yes" ++ [8203])%list%N ]
  = [ true; true; true; false; false; false; false; false;
      true; true; false; false ].
Proof. vm_compute. reflexivity. Qed.

(** C5. A request whose body lacks [audioDataUrl] or lacks [frames] never
    reaches [transcribeAudio] or [analyzeFrame] and writes no progress and
    no [complete] event; unless the caller has gone before the body was
    read, the run writes exactly one event, the missing-input error. *)
Theorem missing_input_is_rejected env request body :
  json request = Fulfilled body ->
  audioDataUrl body = None \/ frames body = None ->
  let w := snd (POST env request) in
  transcribed (trace w) = []
  /\ classified (trace w) = []
  /\ filter is_progress (emitted (trace w)) = []
  /\ filter is_complete (emitted (trace w)) = []
  /\ (disconnectAt env <> Some 0 ->
      emitted (trace w) = [error "Missing audio or frames data"]).
Proof.
  intros Hj Hnone w.
  assert (Hm : missing (audioDataUrl body) || missing (frames body) = true).
  { destruct Hnone as [H|H]; rewrite H; [reflexivity|apply orb_true_r]. }
  unfold w. destruct (POST_missing env request body Hj Hm) as (_ & _ & ->).
  destruct (disconnectAt env) as [[|k]|]; repeat split; try reflexivity.
  intros H. now destruct H.
Qed.

Lemma missing_input_is_rejected_witness :
  emitted (trace (snd (POST Samples.yesNoYes Samples.noFrames))) =
  [error "Missing audio or frames data"] /\
  emitted (trace (snd (POST Samples.yesNoYes Samples.noAudio))) =
  [error "Missing audio or frames data"].
Proof.
  split.
  - refine (proj2 (proj2 (proj2 (proj2
      (missing_input_is_rejected Samples.yesNoYes Samples.noFrames _
         eq_refl (or_intror eq_refl))))) _).
    discriminate.
  - refine (proj2 (proj2 (proj2 (proj2
      (missing_input_is_rejected Samples.yesNoYes Samples.noAudio _
         eq_refl (or_introl eq_refl))))) _).
    discriminate.
Defined.

(** C9. Under the stream semantics in which a disconnecting caller cancels
    the stream and [enqueue] on a cancelled stream throws: in every run, no
    [analyzeFrame] is invoked after the caller has disconnected (the call in
    flight at that moment is the last one), and a run whose caller has
    disconnected ends abruptly, on the exception of the stream. *)
Theorem no_classification_after_disconnect env request :
  let run := POST env request in
  quiet_after_disconnect (trace (snd run)) = true
  /\ (existsb is_disconnected (trace (snd run)) = true ->
      fst run = Throw Stream.invalidState).
Proof.
  cbv zeta. rewrite POST_trace, POST_fst. split.
  - exact (proj1 (quiet_start env request initial quiet_initial)).
  - apply start_aborts, quiet_initial.
Qed.

Lemma no_classification_after_disconnect_witness :
  classified (trace (snd (POST Samples.leavesAtSecondFrame Samples.request3)))
  = [ "data:image/png;base64,AAA"; "data:image/png;base64,BBB" ]
  /\ fst (POST Samples.leavesAtSecondFrame Samples.request3)
     = Throw Stream.invalidState.
Proof.
  split; [reflexivity|].
  exact (proj2 (no_classification_after_disconnect
                  Samples.leavesAtSecondFrame Samples.request3) eq_refl).
Defined.

(** C10. For a connected caller: an empty array of frames is accepted (the
    audio is transcribed, no frame is classified, [complete] carries no
    slide); an empty audio string is rejected with the missing-input error;
    and in general the run is rejected with that error exactly when one of
    the two fields is falsy. *)
Theorem validation_is_by_truthiness :
  (forall env request audio,
      disconnectAt env = None ->
      json request =
        Fulfilled {| audioDataUrl := Some audio; frames := Some [] |} ->
      truthy audio = true ->
      let w := snd (POST env request) in
      emitted (trace w) =
        [ progress "Transcribing audio...";
          progress "Analyzing frames for slides...";
          complete (transcript env audio) [] ]
      /\ transcribed (trace w) = [audio]
      /\ classified (trace w) = [])
  /\ (forall env request fs,
        disconnectAt env = None ->
        json request =
          Fulfilled {| audioDataUrl := Some ""; frames := fs |} ->
        let w := snd (POST env request) in
        emitted (trace w) = [error "Missing audio or frames data"]
        /\ transcribed (trace w) = []
        /\ classified (trace w) = [])
  /\ (forall env request body,
        disconnectAt env = None ->
        json request = Fulfilled body ->
        (emitted (trace (snd (POST env request))) =
           [error "Missing audio or frames data"]
         <-> truthy (audioDataUrl body) = false \/
             truthy (frames body) = false)).
Proof.
  split; [|split].
  - intros env request audio Hc Hj Ha w. unfold w.
    destruct (POST_accepted env request audio [] Hc Hj Ha) as (_ & _ & ->).
    repeat split.
  - intros env request fs Hc Hj w. unfold w.
    destruct (POST_missing env request _ Hj eq_refl) as (_ & _ & ->).
    rewrite Hc. repeat split.
  - intros env request [oa ofs] Hc Hj. cbn [audioDataUrl frames].
    destruct (missing oa || missing ofs) eqn:Hm.
    + destruct (POST_missing env request _ Hj Hm) as (_ & _ & ->).
      rewrite Hc. split; [|reflexivity].
      intros _. unfold missing in Hm. apply orb_prop in Hm.
      destruct Hm as [H|H]; apply negb_true_iff in H; auto.
    + apply orb_false_elim in Hm as [Hoa Hofs]. unfold missing in *.
      apply negb_false_iff in Hoa, Hofs.
      destruct oa as [audio|]; [|discriminate].
      destruct ofs as [fs|]; [|discriminate].
      cbn in Hoa. rewrite (events env request audio fs Hc Hj Hoa).
      split; [discriminate|].
      intros [H|H]; [|discriminate]. cbn in H. congruence.
Qed.

Lemma validation_is_by_truthiness_witness :
  emitted (trace (snd (POST Samples.yesNoYes Samples.emptyFrames))) =
  [ progress "Transcribing audio...";
    progress "Analyzing frames for slides...";
    complete "good morning" [] ]
  /\ emitted (trace (snd (POST Samples.yesNoYes Samples.emptyAudio))) =
     [error "Missing audio or frames data"].
Proof.
  destruct validation_is_by_truthiness as (Hframes & Haudio & _).
  split.
  - exact (proj1 (Hframes Samples.yesNoYes Samples.emptyFrames
                    Samples.someAudio eq_refl eq_refl eq_refl)).
  - exact (proj1 (Haudio Samples.yesNoYes Samples.emptyAudio _
                    eq_refl eq_refl)).
Defined.

(** The caller of the sample leaves while the second frame is classified:
    the third frame is never handed to the classifier, no terminal event
    is written, [start] ends abruptly, and the cancelled stream stays
    closed. *)
Example disconnect_stops_the_loop :
  fst (POST Samples.leavesAtSecondFrame Samples.request3)
  = Throw Stream.invalidState
  /\ trace (snd (POST Samples.leavesAtSecondFrame Samples.request3)) =
     [ Enqueued (progress "Transcribing audio...");
       TranscribeAudio Samples.someAudio;
       Enqueued (progress "Analyzing frames for slides...");
       Enqueued (progress "Analyzing frame 1/3...");
       AnalyzeFrame 0 "data:image/png;base64,AAA";
       Enqueued (progress "Analyzing frame 2/3...");
       AnalyzeFrame 1 "data:image/png;base64,BBB";
       Disconnected ]
  /\ Stream.state
       (controller (snd (POST Samples.leavesAtSecondFrame Samples.request3)))
     = Stream.closed.
Proof. repeat split. Qed.

End RouteClaims.

(* ================================================================== *)
(** * The frame sampler *)

Module SamplerFacts.
Import Sampler Observed.

Local Open Scope Q_scope.

Lemma targetTime_value i : targetTime i == inject_Z (5 * Z.of_nat i).
Proof.
  induction i as [|i IH].
  - reflexivity.
  - change (targetTime (S i)) with (targetTime i + captureInterval).
    rewrite IH. unfold captureInterval.
    replace (5 * Z.of_nat (S i))%Z with (5 * Z.of_nat i + 5)%Z by lia.
    rewrite inject_Z_plus. reflexivity.
Qed.

Lemma floor_targetTime i : Qfloor (targetTime i) = (5 * Z.of_nat i)%Z.
Proof. rewrite (Qfloor_comp _ _ (targetTime_value i)). apply Qfloor_Z. Qed.

(** A duration is within [5 i] exactly when [i] samples cover it. *)
Lemma samples_le d i : (samples d <= i)%nat <-> d <= inject_Z (5 * Z.of_nat i).
Proof.
  unfold samples, captureInterval.
  assert (H5 : inject_Z (5 * Z.of_nat i) == inject_Z (Z.of_nat i) * 5).
  { rewrite inject_Z_mult. apply Qmult_comm. }
  rewrite H5. split; intros H.
  - assert (Hz : (Qceiling (d / 5) <= Z.of_nat i)%Z) by lia.
    assert (Hd : d / 5 <= inject_Z (Z.of_nat i)).
    { eapply Qle_trans; [apply Qle_ceiling|]. now rewrite <- Zle_Qle. }
    apply (Qmult_le_compat_r _ _ 5) in Hd; [|discriminate].
    assert (E : d / 5 * 5 == d) by (field).
    now rewrite E in Hd.
  - assert (Hd : d / 5 <= inject_Z (Z.of_nat i)).
    { apply Qle_shift_div_r; [reflexivity|exact H]. }
    apply Qceiling_resp_le in Hd. rewrite Qceiling_Z in Hd. lia.
Qed.

Lemma reaches_iff d i :
  reaches (targetTime i) (seconds d) = true <-> (samples d <= i)%nat.
Proof.
  simpl. rewrite Qle_bool_iff, samples_le, targetTime_value. reflexivity.
Qed.

Lemma sampled_snoc toDataURL i :
  sampled toDataURL (S i) =
  (sampled toDataURL i ++
   [{| timestamp := Qfloor (targetTime i);
       dataUrl := toDataURL (targetTime i) |}])%list.
Proof. unfold sampled. now rewrite seq_S, map_app. Qed.

Section Video.

Variable d : Q.
Variable toDataURL : Q -> string.

Lemma captureFrame_early i :
  (i < samples d)%nat ->
  captureFrame (seconds d) (before toDataURL i) =
  {| currentTime := targetTime i; frames := sampled toDataURL i;
     seeking := Some (targetTime i); resolved := None |}.
Proof.
  intros Hi. unfold captureFrame, before. cbn [currentTime].
  destruct (reaches (targetTime i) (seconds d)) eqn:E; [|reflexivity].
  apply reaches_iff in E. lia.
Qed.

Lemma captureFrame_done i :
  (samples d <= i)%nat ->
  captureFrame (seconds d) (before toDataURL i) =
  {| currentTime := targetTime i; frames := sampled toDataURL i;
     seeking := None; resolved := Some (sampled toDataURL i) |}.
Proof.
  intros Hi. unfold captureFrame, before. cbn [currentTime].
  apply reaches_iff in Hi. now rewrite Hi.
Qed.

(** From the [i]-th call of [captureFrame] on, the promise resolves once
    the remaining seeks are answered, with the frames of all the target
    times below the duration. *)
Lemma deliver_from fuel :
  forall i,
    (i <= samples d)%nat ->
    resolved (deliver (seconds d) toDataURL fuel
                (captureFrame (seconds d) (before toDataURL i))) =
    if (samples d - i <=? fuel)%nat
    then Some (sampled toDataURL (samples d))
    else None.
Proof.
  induction fuel as [|fuel IH]; intros i Hi.
  - simpl deliver.
    destruct (Nat.eq_dec i (samples d)) as [->|Hne].
    + rewrite captureFrame_done by lia. rewrite Nat.sub_diag. reflexivity.
    + rewrite captureFrame_early by lia.
      destruct (Nat.leb_spec (samples d - i) 0); [lia|reflexivity].
  - destruct (Nat.eq_dec i (samples d)) as [->|Hne].
    + rewrite captureFrame_done by lia. rewrite Nat.sub_diag. reflexivity.
    + rewrite captureFrame_early by lia. cbn [deliver resolved seeking].
      unfold onseeked. cbn [currentTime frames resolved].
      rewrite <- sampled_snoc.
      change (targetTime i + captureInterval) with (targetTime (S i)).
      fold (before toDataURL (S i)).
      rewrite IH by lia.
      replace (samples d - i)%nat with (S (samples d - S i)) by lia.
      reflexivity.
Qed.

Lemma extract_seconds fuel :
  extractFramesFromVideo (seconds d) toDataURL fuel =
  if (samples d <=? fuel)%nat
  then Some (sampled toDataURL (samples d))
  else None.
Proof.
  unfold extractFramesFromVideo, onloadedmetadata.
  change {| currentTime := 0; frames := []; seeking := None; resolved := None |}
    with (before toDataURL 0).
  rewrite deliver_from by lia. now rewrite Nat.sub_0_r.
Qed.

End Video.

(** A medium without a finite duration is sampled for ever. *)
Lemma never_resolves duration toDataURL :
  (forall t, reaches t duration = false) ->
  forall fuel s, resolved s = None ->
    resolved (deliver duration toDataURL fuel s) = None.
Proof.
  intros Hnever. induction fuel as [|fuel IH]; intros s Hs; [exact Hs|].
  simpl. rewrite Hs. destruct (seeking s) as [position|]; [|exact Hs].
  apply IH. unfold onseeked, captureFrame. cbn [currentTime].
  rewrite Hnever. exact Hs.
Qed.

Lemma extract_unbounded duration toDataURL fuel :
  (forall t, reaches t duration = false) ->
  extractFramesFromVideo duration toDataURL fuel = None.
Proof.
  intros Hnever. unfold extractFramesFromVideo.
  apply never_resolves; [exact Hnever|].
  unfold onloadedmetadata, captureFrame. cbn [currentTime].
  now rewrite Hnever.
Qed.

Lemma timestamps_sampled toDataURL k :
  map timestamp (sampled toDataURL k) =
  map (fun i => (5 * Z.of_nat i)%Z) (seq 0 k).
Proof.
  unfold sampled. rewrite map_map. apply map_ext. intros i. simpl.
  apply floor_targetTime.
Qed.

Lemma increasing_multiples k :
  forall a, increasing (map (fun i => (5 * Z.of_nat i)%Z) (seq a k)) = true.
Proof.
  induction k as [|k IH]; intros a; [reflexivity|].
  destruct k as [|k]; [reflexivity|].
  specialize (IH (S a)).
  cbn [seq map increasing] in IH |- *. rewrite IH, andb_true_r.
  apply Z.ltb_lt. lia.
Qed.

End SamplerFacts.

(* ================================================================== *)
(** * The claims about the frame sampler *)

Module SamplerClaims.
Import Sampler Observed SamplerFacts.

Local Open Scope Q_scope.

Lemma length_sampled toDataURL k : length (sampled toDataURL k) = k.
Proof. unfold sampled. now rewrite length_map, length_seq. Qed.

(** What the sampler produces from a medium of [d] seconds. *)
Lemma produced d toDataURL fuel fs :
  extractFramesFromVideo (seconds d) toDataURL fuel = Some fs ->
  fs = sampled toDataURL (samples d) /\ (samples d <= fuel)%nat.
Proof.
  rewrite extract_seconds. destruct (Nat.leb_spec (samples d) fuel) as [H|H].
  - intros E. injection E as <-. now split.
  - discriminate.
Qed.

(** C6. The sampler resolves for every medium of finite duration. A
    sequence it produces has the timestamps 0, 5, 10, ... in this order,
    strictly increasing; each of them is below the duration; the target
    time after the last one is at or beyond the duration; and every longer
    supply of [seeked] events gives the same sequence. *)
Theorem sampler_timestamps :
  (forall d toDataURL, exists fs,
      extractFramesFromVideo (seconds d) toDataURL (samples d) = Some fs)
  /\ (forall duration toDataURL fuel fs,
        extractFramesFromVideo duration toDataURL fuel = Some fs ->
        exists d,
          duration = seconds d
          /\ map timestamp fs =
             map (fun i => (5 * Z.of_nat i)%Z) (seq 0 (length fs))
          /\ increasing (map timestamp fs) = true
          /\ (forall f, In f fs -> inject_Z (timestamp f) < d)
          /\ d <= inject_Z (5 * Z.of_nat (length fs))
          /\ (forall fuel', (length fs <= fuel')%nat ->
                extractFramesFromVideo duration toDataURL fuel' = Some fs)).
Proof.
  split.
  - intros d toDataURL. exists (sampled toDataURL (samples d)).
    now rewrite extract_seconds, Nat.leb_refl.
  - intros duration toDataURL fuel fs H.
    destruct duration as [d| |];
      [|now rewrite extract_unbounded in H|now rewrite extract_unbounded in H].
    exists d. apply produced in H as [-> Hfuel].
    rewrite length_sampled.
    split; [reflexivity|]. split; [apply timestamps_sampled|].
    split; [rewrite timestamps_sampled; apply increasing_multiples|].
    split; [|split].
    + intros f Hin. unfold sampled in Hin. apply in_map_iff in Hin.
      destruct Hin as (i & <- & Hi). apply in_seq in Hi. simpl timestamp.
      rewrite floor_targetTime. apply Qnot_le_lt. intros Hle.
      apply samples_le in Hle. lia.
    + apply samples_le. lia.
    + intros fuel' Hf. rewrite extract_seconds.
      apply Nat.leb_le in Hf. now rewrite Hf.
Qed.

Lemma sampler_timestamps_witness :
  extractFramesFromVideo (seconds 12.5) Samples.blankCanvas 3 =
  Some (sampled Samples.blankCanvas 3)
  /\ map timestamp (sampled Samples.blankCanvas 3) = [0; 5; 10]%Z
  /\ 12.5 <= inject_Z (5 * 3).
Proof.
  assert (E : extractFramesFromVideo (seconds 12.5) Samples.blankCanvas 3 =
              Some (sampled Samples.blankCanvas 3)) by reflexivity.
  destruct (proj2 sampler_timestamps _ _ _ _ E)
    as (d & Hd & Hts & _ & _ & Hnext & _).
  injection Hd as <-.
  split; [exact E|]. split; [exact Hts|exact Hnext].
Defined.

(** A video of 105 seconds is sampled into 21 frames: at 0, 5, ..., 100. *)
Lemma sampler_exceeds_twenty :
  exists fs,
    extractFramesFromVideo (seconds 105) Samples.blankCanvas 21 = Some fs
    /\ length fs = 21%nat
    /\ ~ (length fs <= 20)%nat.
Proof.
  exists (sampled Samples.blankCanvas 21).
  split; [reflexivity|]. split; [reflexivity|].
  rewrite length_sampled. lia.
Qed.

(** C7, amended. The sampler has no cap of its own: from a medium of [d]
    seconds it produces one frame for each multiple of 5 below [d], so at
    most 20 frames exactly when [d] is at most 100. The cap of 20 is that
    of the coordinator, which hands to the classifier the first 20 frames
    it receives and no other. *)
Theorem sampler_count_and_coordinator_cap :
  (forall d toDataURL fuel fs,
      extractFramesFromVideo (seconds d) toDataURL fuel = Some fs ->
      length fs = samples d /\ ((length fs <= 20)%nat <-> d <= 100))
  /\ (forall env request audio (fs : list VideoFrame),
        Route.disconnectAt env = None ->
        json request =
          JS.Fulfilled (mkBody (Some audio) (Some fs)) ->
        JS.truthy audio = true ->
        let calls := Route.classified (Route.trace (snd (Route.POST env request))) in
        calls = map dataUrl (firstn 20 fs) /\ (length calls <= 20)%nat).
Proof.
  split.
  - intros d toDataURL fuel fs H. apply produced in H as [-> _].
    rewrite length_sampled. split; [reflexivity|].
    apply (samples_le d 20).
  - intros env request audio fs Hc Hj Ha calls.
    assert (E : calls = map dataUrl (firstn 20 fs)).
    { unfold calls.
      rewrite (AcceptedRun.classifications env request audio fs Hc Hj Ha).
      destruct (Nat.le_ge_cases (length fs) 20) as [Hle|Hge].
      - rewrite Nat.min_l by exact Hle.
        now rewrite !firstn_all2 by lia.
      - now rewrite Nat.min_r by exact Hge. }
    split; [exact E|].
    rewrite E, length_map, length_firstn. lia.
Qed.

Lemma sampler_count_and_coordinator_cap_witness :
  length (sampled Samples.blankCanvas 21) = samples 105
  /\ (length (Route.classified
                (Route.trace (snd (Route.POST Samples.yesNoYes Samples.request3))))
      <= 20)%nat.
Proof.
  assert (E : extractFramesFromVideo (seconds 105) Samples.blankCanvas 21 =
              Some (sampled Samples.blankCanvas 21)) by reflexivity.
  split.
  - exact (proj1 (proj1 sampler_count_and_coordinator_cap
                    105 Samples.blankCanvas 21%nat _ E)).
  - exact (proj2 (proj2 sampler_count_and_coordinator_cap
                    Samples.yesNoYes Samples.request3 Samples.someAudio
                    Samples.threeFrames eq_refl eq_refl eq_refl)).
Defined.

End SamplerClaims.

(* ================================================================== *)
(** * The audio extractor *)

Module RecorderFacts.
Import Recorder.

Section Recording.

Variable policy : StopPolicy.
Variable gathered : string.
Variable readAsDataURL : list string -> string.

Lemma armed_recording : at_phase gathered readAsDataURL Recording armed.
Proof. repeat split. Qed.

(** Each signal moves the extraction along [advance], whatever the
    recorder does with a repeated [stop()]. *)
Lemma step_phase p s sig :
  at_phase gathered readAsDataURL p s -> at_phase gathered readAsDataURL (advance p sig) (step policy gathered readAsDataURL s sig).
Proof.
  destruct p, sig; simpl; intros (Hs & Hc & Ht & Hr);
    unfold onended, ontimeout, stop, pause, onstop, onloadend, dequeue;
    rewrite ?Hs, ?Ht; simpl;
    try (destruct policy; simpl); rewrite ?Hs, ?Hc, ?Ht, ?Hr;
    repeat split; auto.
Qed.

Lemma run_phase schedule :
  forall p s, at_phase gathered readAsDataURL p s ->
    at_phase gathered readAsDataURL (fold_left advance schedule p) (run policy gathered readAsDataURL schedule s).
Proof.
  induction schedule as [|sig schedule IH]; intros p s H; [exact H|].
  simpl. apply IH. now apply step_phase.
Qed.

Lemma advance_leaves_recording schedule :
  forall p,
    p <> Recording \/ existsb is_stop schedule = true ->
    fold_left advance schedule p <> Recording.
Proof.
  induction schedule as [|sig schedule IH]; intros p H; simpl.
  - destruct H as [H|H]; [exact H|discriminate].
  - apply IH. destruct p, sig; simpl in *; intuition discriminate.
Qed.

(** Once a stop was requested, letting the event loop run resolves the
    promise. *)
Lemma settle_resolves p s :
  p <> Recording -> at_phase gathered readAsDataURL p s ->
  at_phase gathered readAsDataURL Resolved (settle policy gathered readAsDataURL s).
Proof.
  intros Hp H. unfold settle.
  destruct p; [now destruct Hp| | |].
  - destruct H as (Hs & Hc & Ht & Hr). rewrite Ht. simpl repeat.
    apply (run_phase [RunTask; RunTask] Stopping s). repeat split; auto.
  - destruct H as (Hs & Hc & Ht & Hr). rewrite Ht. simpl repeat.
    apply (run_phase [RunTask; RunTask] Reading s). repeat split; auto.
  - destruct H as (Hs & Hc & Ht & Hr). rewrite Ht. simpl.
    repeat split; auto.
Qed.

(** The guard of the timeout callback: on a recorder that is no longer
    recording the callback does nothing at all. *)
Lemma ontimeout_inactive s :
  state s = inactive -> ontimeout policy gathered s = s.
Proof. intros H. unfold ontimeout. now rewrite H. Qed.

End Recording.

(** Under the standard, [stop()] on an inactive recorder returns at once. *)
Lemma onended_inactive gathered s :
  state s = inactive -> onended ReturnWhenInactive gathered s = s.
Proof. intros H. unfold onended, stop. now rewrite H. Qed.

Lemma step_no_exception gathered readAsDataURL s sig :
  uncaught (step ReturnWhenInactive gathered readAsDataURL s sig) = uncaught s.
Proof.
  destruct sig; simpl;
    unfold onended, ontimeout, stop, pause, onstop, onloadend, dequeue.
  - now destruct (state s).
  - now destruct (state s).
  - destruct (tasks s) as [|[data|result] rest]; reflexivity.
Qed.

Lemma run_no_exception gathered readAsDataURL schedule :
  forall s,
    uncaught (run ReturnWhenInactive gathered readAsDataURL schedule s)
    = uncaught s.
Proof.
  unfold run.
  induction schedule as [|sig schedule IH]; intros s; [reflexivity|].
  simpl. now rewrite IH, step_no_exception.
Qed.

End RecorderFacts.

(* ================================================================== *)
(** * The claim about the audio extractor *)

Module RecorderClaims.
Import Recorder RecorderFacts.

(** C8. Whatever the order in which the end of playback and the timeout
    arrive, and wherever the queued tasks run in between: once both have
    fired and the event loop has run, [resolve] was called exactly once,
    with the one recorded payload, whatever the recorder does with a
    repeated [stop()]; and no exception left a handler, the recorder being
    one that follows the standard. The signal that comes second finds the
    recorder inactive and changes nothing: the timeout callback by its
    guard on [mediaRecorder.state], the [ended] handler because [stop()]
    on an inactive recorder returns at once. *)
Theorem double_stop_is_harmless gathered readAsDataURL schedule :
  In PlaybackEnded schedule ->
  In TimeoutFired schedule ->
  (forall policy,
      resolveCalls (extractAudioFromVideo policy gathered readAsDataURL schedule)
      = [readAsDataURL [gathered]])
  /\ uncaught (extractAudioFromVideo ReturnWhenInactive gathered readAsDataURL
                 schedule) = []
  /\ (forall policy first, is_stop first = true ->
        state (step policy gathered readAsDataURL armed first) = inactive)
  /\ (forall policy s, state s = inactive ->
        step policy gathered readAsDataURL s TimeoutFired = s)
  /\ (forall s, state s = inactive ->
        step ReturnWhenInactive gathered readAsDataURL s PlaybackEnded = s).
Proof.
  intros Hended Htimeout. split; [|split; [|split; [|split]]].
  - intros policy.
    assert (Hp : fold_left advance schedule Recording <> Recording).
    { apply advance_leaves_recording. right.
      apply existsb_exists. exists PlaybackEnded. now split. }
    pose proof (run_phase policy gathered readAsDataURL schedule
                  Recording armed
                  (armed_recording gathered readAsDataURL)) as Hrun.
    pose proof (settle_resolves policy gathered readAsDataURL _ _ Hp Hrun)
      as (_ & _ & _ & Hr).
    exact Hr.
  - unfold extractAudioFromVideo, settle. now rewrite !run_no_exception.
  - intros policy [] H; try discriminate; reflexivity.
  - intros policy s H. now apply ontimeout_inactive.
  - intros s H. now apply onended_inactive.
Qed.

Lemma double_stop_is_harmless_witness :
  resolveCalls
    (extractAudioFromVideo ReturnWhenInactive Samples.recordedBytes
       Samples.joinChunks [PlaybackEnded; RunTask; TimeoutFired])
  = ["data:audio/webm;base64,GkXf"]
  /\ resolveCalls
       (extractAudioFromVideo ReturnWhenInactive Samples.recordedBytes
          Samples.joinChunks [TimeoutFired; PlaybackEnded])
     = ["data:audio/webm;base64,GkXf"]
  /\ uncaught
       (extractAudioFromVideo ReturnWhenInactive Samples.recordedBytes
          Samples.joinChunks [TimeoutFired; PlaybackEnded])
     = [].
Proof.
  split; [|split].
  - refine (proj1 (double_stop_is_harmless Samples.recordedBytes
                     Samples.joinChunks [PlaybackEnded; RunTask; TimeoutFired]
                     _ _) ReturnWhenInactive); simpl; auto.
  - refine (proj1 (double_stop_is_harmless Samples.recordedBytes
                     Samples.joinChunks [TimeoutFired; PlaybackEnded]
                     _ _) ReturnWhenInactive); simpl; auto.
  - refine (proj1 (proj2 (double_stop_is_harmless Samples.recordedBytes
                            Samples.joinChunks [TimeoutFired; PlaybackEnded]
                            _ _))); simpl; auto.
Defined.

(** On a recorder that throws on a repeated [stop()], the unguarded
    [ended] handler lets the exception escape when the timeout came first;
    the payload is still delivered once. The guard of the timeout callback
    covers the other order. *)
Example legacy_recorder_timeout_first :
  let s := extractAudioFromVideo ThrowWhenInactive Samples.recordedBytes
             Samples.joinChunks [TimeoutFired; PlaybackEnded] in
  uncaught s = ["InvalidStateError"] /\
  resolveCalls s = ["data:audio/webm;base64,GkXf"].
Proof. split; reflexivity. Qed.

Example legacy_recorder_ended_first :
  let s := extractAudioFromVideo ThrowWhenInactive Samples.recordedBytes
             Samples.joinChunks [PlaybackEnded; TimeoutFired] in
  uncaught s = [] /\ resolveCalls s = ["data:audio/webm;base64,GkXf"].
Proof. split; reflexivity. Qed.

End RecorderClaims.

(* ================================================================== *)
(** * The text of the event stream *)

Module WireFacts.
Import Wire Seen.

Lemma append_nil_r s : s ++ EmptyString = s.
Proof. induction s as [|c s IH]; simpl; [reflexivity|now rewrite IH]. Qed.

Lemma append_assoc_r a b c : (a ++ b) ++ c = a ++ b ++ c.
Proof. induction a as [|x a IH]; simpl; [reflexivity|now rewrite IH]. Qed.

Lemma oneline_app a b : oneline (a ++ b) = oneline a && oneline b.
Proof.
  induction a as [|c a IH]; simpl; [reflexivity|].
  now rewrite IH, andb_assoc.
Qed.

(** No escape holds a line feed: the line feed itself is written as a
    backslash and the letter n. *)
Lemma oneline_escape c : oneline (escape c) = true.
Proof. destruct c as [[] [] [] [] [] [] [] []]; reflexivity. Qed.

Lemma oneline_escaped s : oneline (escaped s) = true.
Proof.
  induction s as [|c s IH]; [reflexivity|].
  simpl. now rewrite oneline_app, oneline_escape, IH.
Qed.

Lemma oneline_JSON_string s : oneline (JSON_string s) = true.
Proof.
  unfold JSON_string. now rewrite !oneline_app, oneline_escaped.
Qed.

Lemma oneline_digits u : oneline (NilEmpty.string_of_uint u) = true.
Proof. induction u; simpl; auto. Qed.

Lemma oneline_number z : oneline (numberToString z) = true.
Proof.
  unfold numberToString. destruct (Z.to_int z) as [u|u]; simpl;
    apply oneline_digits.
Qed.

Lemma oneline_concat sep l :
  oneline sep = true ->
  forallb oneline l = true ->
  oneline (String.concat sep l) = true.
Proof.
  intros Hsep. induction l as [|x l IH]; [reflexivity|].
  simpl. intros H. apply andb_prop in H as [Hx Hl].
  destruct l as [|y l]; [exact Hx|].
  rewrite !oneline_app, Hx, Hsep. simpl. now apply IH.
Qed.

Lemma oneline_member key value :
  oneline value = true -> oneline (member key value) = true.
Proof.
  intros H. unfold member. now rewrite !oneline_app, oneline_JSON_string, H.
Qed.

Lemma oneline_object members :
  forallb oneline members = true -> oneline (JSON_object members) = true.
Proof.
  intros H. unfold JSON_object.
  now rewrite !oneline_app, (oneline_concat "," members eq_refl H).
Qed.

Lemma oneline_slide s : oneline (JSON_slide s) = true.
Proof.
  unfold JSON_slide. apply oneline_object. cbn [forallb].
  rewrite !oneline_member; auto using oneline_JSON_string, oneline_number.
Qed.

Lemma oneline_array items :
  forallb oneline items = true -> oneline (JSON_array items) = true.
Proof.
  intros H. unfold JSON_array.
  now rewrite !oneline_app, (oneline_concat "," items eq_refl H).
Qed.

Lemma oneline_JSON_stringify ev : oneline (JSON_stringify ev) = true.
Proof.
  destruct ev as [message|transcription slides|message];
    cbn [JSON_stringify]; apply oneline_object; cbn [forallb];
    rewrite ?oneline_member; auto using oneline_JSON_string.
  apply oneline_object. cbn [forallb].
  rewrite !oneline_member; auto using oneline_JSON_string.
  apply oneline_array. apply forallb_forall. intros text Hin.
  apply in_map_iff in Hin as (s & <- & _). apply oneline_slide.
Qed.

(** A text without line feed is one line for [split]. *)
Lemma split_oneline s : oneline s = true -> Page.split s = [s].
Proof.
  induction s as [|c s IH]; [reflexivity|].
  simpl. intros H. apply andb_prop in H as [Hc Hs].
  apply negb_true_iff in Hc. rewrite Hc, (IH Hs). reflexivity.
Qed.

Lemma split_line s rest :
  oneline s = true -> Page.split (s ++ nl ++ rest) = s :: Page.split rest.
Proof.
  induction s as [|c s IH]; intros H; [reflexivity|].
  simpl in H. apply andb_prop in H as [Hc Hs].
  apply negb_true_iff in Hc.
  change (Page.split (String c (s ++ nl ++ rest))
          = String c s :: Page.split rest).
  cbn [Page.split]. rewrite Hc, (IH Hs). reflexivity.
Qed.

Lemma chunks_cons ev evs : chunks (ev :: evs) = chunk ev ++ chunks evs.
Proof.
  unfold chunks. destruct evs as [|ev' evs]; simpl.
  - now rewrite append_nil_r.
  - reflexivity.
Qed.

(** A chunk in front of a text is one [data:] line and one empty line in
    front of the lines of the text. *)
Lemma split_chunk ev rest :
  Page.split (chunk ev ++ rest) =
  ("data: " ++ JSON_stringify ev) :: EmptyString :: Page.split rest.
Proof.
  unfold chunk.
  replace (("data: " ++ JSON_stringify ev ++ nl ++ nl) ++ rest)
    with (("data: " ++ JSON_stringify ev) ++ nl ++ (EmptyString ++ nl ++ rest)).
  - rewrite split_line.
    + now rewrite (split_line EmptyString rest eq_refl).
    + rewrite oneline_app, oneline_JSON_stringify. reflexivity.
  - rewrite !append_assoc_r. reflexivity.
Qed.

Lemma slice_data text : Page.slice 6 ("data: " ++ text) = text.
Proof. reflexivity. Qed.

Lemma payloads_chunk ev rest :
  Page.payloads (chunk ev ++ rest) = JSON_stringify ev :: Page.payloads rest.
Proof.
  unfold Page.payloads. rewrite split_chunk.
  cbn [filter]. rewrite (StringFacts.prefix_refl_app "data: "). 
  reflexivity.
Qed.

End WireFacts.

(* ================================================================== *)
(** * Properties of the text of the event stream *)

Module WireProperties.
Import Wire Seen WireFacts.

(** X1. The text [JSON.stringify] gives for an event holds no line feed,
    whatever line feeds its strings hold, so that a chunk is, for the
    client's [split], one [data:] line followed by an empty line. *)
Theorem chunk_is_one_data_line ev :
  oneline (JSON_stringify ev) = true /\
  Page.split (chunk ev) =
  [ "data: " ++ JSON_stringify ev; EmptyString; EmptyString ].
Proof.
  split; [apply oneline_JSON_stringify|].
  rewrite <- (append_nil_r (chunk ev)). now rewrite split_chunk.
Qed.

(** X2. From the text of any number of chunks that arrive together, the
    lines that start with [data: ], cut after this prefix, are the JSON
    texts of the events, in their order. *)
Theorem payloads_of_chunks evs :
  Page.payloads (chunks evs) = map JSON_stringify evs.
Proof.
  induction evs as [|ev evs IH]; [reflexivity|].
  now rewrite chunks_cons, payloads_chunk, IH.
Qed.

End WireProperties.

(* ================================================================== *)
(** * The client *)

Module PageFacts.
Import Route Wire Page Seen WireFacts.

Lemma world_eta w : {| ui := ui w; sent := sent w |} = w.
Proof. now destruct w. Qed.

Section Component.

Variable env : Page.Env.

(** The lines of chunks that arrived together are handled as their events
    one by one, when [JSON.parse] reads back what [JSON.stringify] wrote. *)
Lemma for_lines_chunks group :
  (forall ev, In ev group ->
      JSON_parse env (JSON_stringify ev) = Fulfilled (Some ev)) ->
  forall w,
    for_lines env (split (chunks group)) w =
    (Normal tt, {| ui := replay group (ui w); sent := sent w |}).
Proof.
  induction group as [|ev group IH]; intros Hparse w.
  - cbn. now rewrite world_eta.
  - rewrite chunks_cons, split_chunk. cbn [for_lines].
    rewrite (StringFacts.prefix_refl_app "data: "), slice_data.
    rewrite (Hparse ev (or_introl eq_refl)).
    unfold bind at 1. cbn [await ret].
    unfold bind at 1. unfold update at 1.
    change (String.prefix "data: " EmptyString) with false. cbv iota.
    rewrite IH by (intros ev' Hin; apply Hparse; now right).
    reflexivity.
Qed.

Lemma read_loop_delivered groups :
  (forall ev, In ev (concat groups) ->
      JSON_parse env (JSON_stringify ev) = Fulfilled (Some ev)) ->
  forall w,
    read_loop env (delivered groups) w =
    (Normal tt, {| ui := replay (concat groups) (ui w); sent := sent w |}).
Proof.
  induction groups as [|group groups IH]; intros Hparse w.
  - cbn. now rewrite world_eta.
  - cbn [delivered map read_loop]. unfold bind at 1. cbn [await ret].
    unfold bind at 1.
    rewrite for_lines_chunks
      by (intros ev Hin; apply Hparse; cbn [concat]; apply in_or_app; now left).
    fold (delivered groups).
    rewrite IH
      by (intros ev Hin; apply Hparse; cbn [concat]; apply in_or_app; now right).
    cbn [ui sent concat]. unfold replay. now rewrite fold_left_app.
Qed.

Lemma submission_fetched f audio fs (response : Response) w :
  extractAudioFromVideo env f = Fulfilled audio ->
  extractFramesFromVideo env f = Fulfilled fs ->
  fetchProcess env (mkBody (Some audio) (Some fs)) = Fulfilled response ->
  ok response = true ->
  submission env f
    {| ui := setError EmptyString
               (setProgress "Processing video locally..."
                  (setProcessing true (ui w)));
       sent := sent w |} =
  match reads response with
  | Some stream =>
      read_loop env stream
        {| ui := sending (ui w);
           sent := (sent w ++ [mkBody (Some audio) (Some fs)])%list |}
  | None =>
      (Normal tt,
       {| ui := sending (ui w);
          sent := (sent w ++ [mkBody (Some audio) (Some fs)])%list |})
  end.
Proof.
  intros Ha Hf Hfetch Hok. unfold submission.
  unfold bind at 1. unfold update at 1. cbv iota beta.
  unfold bind at 1. rewrite Ha. cbn [await ret].
  unfold bind at 1. unfold update at 1. cbv iota beta.
  unfold bind at 1. rewrite Hf. cbn [await ret].
  unfold bind at 1. unfold update at 1. cbv iota beta.
  unfold bind at 1. unfold fetch. rewrite Hfetch. cbn [await ret].
  rewrite Hok. cbn [negb ui sent].
  destruct (reads response); reflexivity.
Qed.

End Component.

(** Progress events change the progress text and nothing else. *)
Lemma replay_progress ps :
  forallb is_progress ps = true ->
  forall s,
    file (replay ps s) = file s /\
    processing (replay ps s) = processing s /\
    result (replay ps s) = result s /\
    errorText (replay ps s) = errorText s.
Proof.
  induction ps as [|p ps IH]; intros H s; [now repeat split|].
  simpl in H. apply andb_prop in H as [Hp Hps].
  destruct p as [message| |]; try discriminate.
  cbn [replay fold_left]. apply (IH Hps (setProgress message s)).
Qed.

Lemma replay_complete ps transcription slides s :
  forallb is_progress ps = true ->
  replay (ps ++ [complete transcription slides]) s =
  {| file := file s; processing := processing s;
     progressText := "Complete!";
     result := Some {| Page.transcription := transcription;
                       Page.slides := slides |};
     errorText := errorText s |}.
Proof.
  intros Hps.
  destruct (replay_progress ps Hps s) as (Hf & Hp & _ & He).
  unfold replay at 1. rewrite fold_left_app.
  change (fold_left (fun s' ev => dispatch (Some ev) s') ps s)
    with (replay ps s).
  set (r := replay ps s) in *. cbn [fold_left].
  unfold dispatch, setProgress, setResult.
  cbn [file processing progressText result errorText].
  now rewrite Hf, Hp, He.
Qed.

Lemma concat_singletons {A} (l : list A) :
  concat (map (fun x => [x]) l) = l.
Proof.
  induction l as [|x l IH]; [reflexivity|].
  cbn [map concat app]. now f_equal.
Qed.

Lemma oneline_substring k s :
  oneline s = true -> oneline (String.substring 0 k s) = true.
Proof.
  revert s. induction k as [|k IH]; intros s H.
  - now destruct s.
  - destruct s as [|c s]; [reflexivity|].
    simpl in H |- *. apply andb_prop in H as [Hc Hs].
    now rewrite Hc, (IH s Hs).
Qed.

End PageFacts.

(* ================================================================== *)
(** * Properties of the client *)

Module PageProperties.
Import Wire Page Seen WireFacts PageFacts.

(** X3. When [JSON.parse] reads back what [JSON.stringify] wrote, the
    loop over the reads ends normally and leaves the component as the
    events taken one by one do: how the chunks are grouped into reads
    makes no difference. *)
Theorem reads_are_handled_as_events env groups w :
  (forall ev, In ev (concat groups) ->
      JSON_parse env (JSON_stringify ev) = Fulfilled (Some ev)) ->
  read_loop env (delivered groups) w =
  (Route.Normal tt,
   {| ui := replay (concat groups) (ui w); sent := sent w |})
  /\ read_loop env (delivered groups) w =
     read_loop env (delivered (map (fun ev => [ev]) (concat groups))) w.
Proof.
  intros Hparse.
  pose proof (concat_singletons (concat groups)) as Hflat.
  split; [apply (read_loop_delivered env groups Hparse)|].
  rewrite (read_loop_delivered env groups Hparse).
  rewrite read_loop_delivered; rewrite Hflat; [reflexivity|exact Hparse].
Qed.

Lemma reads_are_handled_as_events_witness :
  read_loop PageSamples.browser (delivered PageSamples.groups)
    PageSamples.chosen =
  read_loop PageSamples.browser
    (delivered (map (fun ev => [ev]) PageSamples.events)) PageSamples.chosen.
Proof.
  refine (proj2 (reads_are_handled_as_events PageSamples.browser
                   PageSamples.groups PageSamples.chosen _)).
  intros ev Hin. vm_compute in Hin.
  repeat (destruct Hin as [<-|Hin]; [vm_compute; reflexivity|]).
  destruct Hin.
Defined.

(** X4. End to end, on the success path: the client sends one request
    with the audio and the frames it extracted; when the coordinator
    serves it to a caller that stays connected and its chunks reach the
    client whole, in any grouping, the component ends with the
    transcript and the slides of the run as its result, the progress
    text [Complete!], no error, and [processing] false. *)
Theorem submission_shows_the_result
    env server f audio (fs : list VideoFrame) groups statusText w :
  file (ui w) = Some f ->
  extractAudioFromVideo env f = Fulfilled audio ->
  truthy audio = true ->
  extractFramesFromVideo env f = Fulfilled fs ->
  Route.disconnectAt server = None ->
  concat groups =
    Route.emitted
      (Route.trace
         (snd (Route.POST server
                 {| json := Fulfilled (mkBody (Some audio) (Some fs)) |}))) ->
  fetchProcess env (mkBody (Some audio) (Some fs)) =
    Fulfilled {| ok := true; statusText := statusText;
                 reads := Some (delivered groups) |} ->
  (forall ev, In ev (concat groups) ->
      JSON_parse env (JSON_stringify ev) = Fulfilled (Some ev)) ->
  handleSubmit env w =
  {| ui := {| file := Some f; processing := false;
              progressText := "Complete!";
              result :=
                Some {| transcription := Observed.transcript server audio;
                        slides := Observed.slidesOf server fs |};
              errorText := EmptyString |};
     sent := (sent w ++ [mkBody (Some audio) (Some fs)])%list |}.
Proof.
  intros Hfile Ha Htruthy Hf Hc Hevents Hfetch Hparse.
  rewrite (AcceptedRun.events server
             {| json := Fulfilled (mkBody (Some audio) (Some fs)) |}
             audio fs Hc eq_refl Htruthy) in Hevents.
  unfold handleSubmit. rewrite Hfile. unfold try_catch_finally.
  rewrite (submission_fetched env f audio fs _ w Ha Hf Hfetch eq_refl).
  cbn [reads]. rewrite (read_loop_delivered env groups Hparse).
  cbn [ui sent]. rewrite Hevents.
  rewrite (replay_complete _ _ _ _ (AcceptedRun.stages_progress fs)).
  unfold setProcessing. cbn. now rewrite Hfile.
Qed.

Lemma submission_shows_the_result_witness :
  handleSubmit PageSamples.browser PageSamples.chosen =
  {| ui := {| file := Some "talk.mp4"; processing := false;
              progressText := "Complete!";
              result :=
                Some {| transcription := "good morning";
                        slides :=
                          [ {| image := "data:image/png;base64,AAA";
                               slide_timestamp := 0 |};
                            {| image := "data:image/png;base64,CCC";
                               slide_timestamp := 10 |} ] |};
              errorText := EmptyString |};
     sent := [PageSamples.theBody] |}.
Proof.
  refine (submission_shows_the_result PageSamples.browser Samples.yesNoYes
            "talk.mp4" Samples.someAudio Samples.threeFrames
            PageSamples.groups "OK" PageSamples.chosen
            eq_refl eq_refl eq_refl eq_refl eq_refl eq_refl eq_refl _).
  intros ev Hin. vm_compute in Hin.
  repeat (destruct Hin as [<-|Hin]; [vm_compute; reflexivity|]).
  destruct Hin.
Defined.

(** X5. The client keeps no text between two reads. When a read ends
    inside an event, the text up to the cut goes to [JSON.parse] as it is;
    if [JSON.parse] throws on it, the loop is left at once: the error
    message is shown, the reads that follow are never looked at, and the
    result is the one the component had before, whatever the server went
    on to send. *)
Theorem cut_event_aborts_the_client
    env f audio (fs : list VideoFrame) ev k e rest statusText w :
  file (ui w) = Some f ->
  extractAudioFromVideo env f = Fulfilled audio ->
  extractFramesFromVideo env f = Fulfilled fs ->
  fetchProcess env (mkBody (Some audio) (Some fs)) =
    Fulfilled
      {| ok := true; statusText := statusText;
         reads :=
           Some (Fulfilled
                   ("data: " ++ String.substring 0 k (JSON_stringify ev))
                 :: rest) |} ->
  JSON_parse env (String.substring 0 k (JSON_stringify ev)) = Rejected e ->
  Page.payloads ("data: " ++ String.substring 0 k (JSON_stringify ev))
  = [String.substring 0 k (JSON_stringify ev)]
  /\ handleSubmit env w =
     {| ui := {| file := Some f; processing := false;
                 progressText := "Sending to server for AI processing...";
                 result := result (ui w);
                 errorText := or_else (message e) "An error occurred" |};
        sent := (sent w ++ [mkBody (Some audio) (Some fs)])%list |}.
Proof.
  intros Hfile Ha Hf Hfetch Hparse.
  assert (Hline : split ("data: " ++ String.substring 0 k (JSON_stringify ev))
                  = ["data: " ++ String.substring 0 k (JSON_stringify ev)]).
  { apply split_oneline. rewrite oneline_app.
    now rewrite (oneline_substring k _ (oneline_JSON_stringify ev)). }
  split.
  - unfold payloads. rewrite Hline. cbn [filter].
    rewrite (StringFacts.prefix_refl_app "data: "). reflexivity.
  - unfold handleSubmit. rewrite Hfile. unfold try_catch_finally.
    rewrite (submission_fetched env f audio fs _ w Ha Hf Hfetch eq_refl).
    cbn [reads read_loop]. unfold bind at 1. cbn [await ret].
    unfold bind at 1. rewrite Hline. cbn [for_lines].
    rewrite (StringFacts.prefix_refl_app "data: "), slice_data, Hparse.
    unfold bind at 1. cbn [await throw].
    unfold setProcessing, setError, sending, setProgress. cbn.
    now rewrite Hfile.
Qed.

Lemma cut_event_aborts_the_client_witness :
  handleSubmit PageSamples.browserCut PageSamples.chosen =
  {| ui := {| file := Some "talk.mp4"; processing := false;
              progressText := "Sending to server for AI processing...";
              result := Some {| transcription := "earlier"; slides := [] |};
              errorText := "Unexpected end of JSON input" |};
     sent := [PageSamples.theBody] |}.
Proof.
  exact (proj2 (cut_event_aborts_the_client PageSamples.browserCut
                  "talk.mp4" Samples.someAudio Samples.threeFrames
                  (progress "Transcribing audio...") 20 _
                  (delivered PageSamples.groups) "OK" PageSamples.chosen
                  eq_refl eq_refl eq_refl eq_refl eq_refl)).
Defined.

(** X6. The two extractions run one after the other inside the same
    [try]: when the audio extraction fails, or the frame sampling after
    it, no request is sent; the message of the failure is shown (or
    [An error occurred] when it has none), [processing] is false again,
    and the result of an earlier run stays. *)
Theorem local_failure_sends_nothing env f e w :
  file (ui w) = Some f ->
  (extractAudioFromVideo env f = Rejected e ->
   handleSubmit env w =
   {| ui := {| file := Some f; processing := false;
               progressText := "Extracting audio from video...";
               result := result (ui w);
               errorText := or_else (message e) "An error occurred" |};
      sent := sent w |})
  /\ (forall audio,
        extractAudioFromVideo env f = Fulfilled audio ->
        extractFramesFromVideo env f = Rejected e ->
        handleSubmit env w =
        {| ui := {| file := Some f; processing := false;
                    progressText := "Extracting frames from video...";
                    result := result (ui w);
                    errorText := or_else (message e) "An error occurred" |};
           sent := sent w |}).
Proof.
  intros Hfile. split.
  - intros Ha. unfold handleSubmit. rewrite Hfile.
    unfold try_catch_finally, submission.
    unfold bind at 1. unfold update at 1. cbv iota beta.
    unfold bind at 1. rewrite Ha. cbn [await throw].
    unfold setProcessing, setError, setProgress. cbn. now rewrite Hfile.
  - intros audio Ha Hf. unfold handleSubmit. rewrite Hfile.
    unfold try_catch_finally, submission.
    unfold bind at 1. unfold update at 1. cbv iota beta.
    unfold bind at 1. rewrite Ha. cbn [await ret].
    unfold bind at 1. unfold update at 1. cbv iota beta.
    unfold bind at 1. rewrite Hf. cbn [await throw].
    unfold setProcessing, setError, setProgress. cbn. now rewrite Hfile.
Qed.

Lemma local_failure_sends_nothing_witness :
  handleSubmit PageSamples.browserMute PageSamples.chosen =
  {| ui := {| file := Some "talk.mp4"; processing := false;
              progressText := "Extracting audio from video...";
              result := Some {| transcription := "earlier"; slides := [] |};
              errorText := "AudioContext is not defined" |};
     sent := [] |}.
Proof.
  exact (proj1 (local_failure_sends_nothing PageSamples.browserMute
                  "talk.mp4" _ PageSamples.chosen eq_refl) eq_refl).
Defined.

End PageProperties.

(* ================================================================== *)
(** * The coordinator under any behaviour of the caller *)

Module AnyCaller.
Import Route Observed Seen Rules.

Lemma ends_disconnected_snoc tr :
  ends_disconnected (tr ++ [Disconnected]) = true.
Proof. unfold ends_disconnected. now rewrite rev_app_distr. Qed.

Lemma not_disconnected_snoc tr a :
  is_disconnected a = false ->
  existsb is_disconnected tr = false ->
  existsb is_disconnected (tr ++ [a]) = false.
Proof. intros Ha H. rewrite existsb_app, H. simpl. now rewrite Ha. Qed.

(** A writable stream was never disconnected. *)
Lemma halted_connected w :
  halted w -> writable w = true ->
  existsb is_disconnected (trace w) = false.
Proof.
  intros H Ho. destruct (existsb is_disconnected (trace w)) eqn:E;
    [|reflexivity].
  destruct (H E) as [Hw _]. congruence.
Qed.

Lemma halted_log a w :
  is_disconnected a = false ->
  halted_writable w -> halted_writable (log a w).
Proof.
  intros Ha [H Ho]. split; [|exact Ho].
  intros Hd. cbn [log trace] in Hd.
  rewrite (not_disconnected_snoc _ a Ha (halted_connected w H Ho)) in Hd.
  discriminate.
Qed.

Lemma halted_view w w' :
  trace w' = trace w -> writable w' = writable w -> halted w -> halted w'.
Proof. unfold halted. now intros -> ->. Qed.

Lemma halted_enqueue ev :
  hoare halted (enqueue ev) (fun _ => halted_writable) halted.
Proof.
  intros w H. unfold enqueue.
  destruct (Stream.canCloseOrEnqueue (controller w)) eqn:Ho; [|exact H].
  apply halted_log; [reflexivity|]. split.
  - apply (halted_view w);
      [reflexivity|apply Cancellation.writable_accept|exact H].
  - now rewrite Cancellation.writable_accept.
Qed.

Lemma halted_close : hoare halted close (fun _ => halted) halted.
Proof.
  intros w H. unfold close.
  destruct (Stream.canCloseOrEnqueue (controller w)) eqn:Ho; [|exact H].
  intros Hd. cbn [log trace] in Hd.
  rewrite (not_disconnected_snoc _ CloseCalled eq_refl
             (halted_connected w H Ho)) in Hd.
  discriminate.
Qed.

Section Env.

Variable env : Env.

Lemma halted_await : hoare halted (await env) (fun _ => halted) halted.
Proof.
  intros w H. unfold await.
  assert (H' : halted
            {| controller :=
                 Nat.iter (readsAt env (awaits w)) Stream.read (controller w);
               awaits := S (awaits w); trace := trace w |})
    by (apply (halted_view w);
        [reflexivity|apply Cancellation.writable_reads|exact H]).
  destruct (disconnectAt env) as [k|]; [|exact H'].
  destruct (Nat.eqb k (awaits w)); [|exact H'].
  intros _. split.
  - unfold writable. cbn [log controller].
    apply Cancellation.cancel_not_writable.
  - apply ends_disconnected_snoc.
Qed.

Lemma halted_transcribeAudio audio :
  hoare halted_writable (transcribeAudio env audio) (fun _ => halted) halted.
Proof.
  unfold transcribeAudio.
  apply hoare_bind with (Q := fun _ => halted).
  { intros w H. apply (halted_log (TranscribeAudio audio) w eq_refl H). }
  intros ?. apply hoare_bind with (Q := fun _ => halted); [apply halted_await|].
  intros ?. destruct (speechToText env audio); apply hoare_ret; auto.
Qed.

Lemma halted_analyzeFrame i url :
  hoare halted_writable (analyzeFrame env i url) (fun _ => halted) halted.
Proof.
  unfold analyzeFrame.
  apply hoare_bind with (Q := fun _ => halted).
  { intros w H. apply (halted_log (AnalyzeFrame i url) w eq_refl H). }
  intros ?. apply hoare_bind with (Q := fun _ => halted); [apply halted_await|].
  intros ?. destruct (visionJudge env i url) as [[content|]|e];
    apply hoare_ret; auto.
Qed.

Lemma halted_for_frames fs fuel :
  forall i slides,
    hoare halted (for_frames env fuel fs i slides) (fun _ => halted) halted.
Proof.
  induction fuel as [|fuel IH]; intros i slides; simpl.
  - apply hoare_ret; auto.
  - destruct (Nat.ltb i (bound fs)); [|apply hoare_ret; auto].
    apply hoare_bind with (Q := fun _ => halted_writable).
    { eapply hoare_weaken; [apply halted_enqueue| | |]; auto. }
    intros ?. destruct (nth_error fs i) as [frame|].
    + eapply hoare_bind; [apply halted_analyzeFrame|].
      intros isSlide. apply IH.
    + apply hoare_throw. now intros w [H _].
Qed.

Lemma halted_enqueue' ev :
  hoare halted (enqueue ev) (fun _ => halted) halted.
Proof.
  eapply hoare_weaken; [apply halted_enqueue|auto| |auto].
  now intros ? w [H _].
Qed.

Lemma halted_try_block request :
  hoare halted (try_block env request) (fun _ => halted) halted.
Proof.
  unfold try_block.
  apply hoare_bind with (Q := fun _ => halted).
  { unfold request_json.
    apply hoare_bind with (Q := fun _ => halted); [apply halted_await|].
    intros ?. destruct (json request); [apply hoare_ret|apply hoare_throw]; auto. }
  intros body.
  destruct (negb (truthy (audioDataUrl body)) || negb (truthy (frames body))).
  - apply hoare_bind with (Q := fun _ => halted);
      [apply halted_enqueue'|intros ?; apply halted_close].
  - destruct (audioDataUrl body) as [audio|]; [|apply hoare_ret; auto].
    destruct (frames body) as [fs|]; [|apply hoare_ret; auto].
    apply hoare_bind with (Q := fun _ => halted_writable).
    { eapply hoare_weaken; [apply halted_enqueue| | |]; auto. }
    intros ?. eapply hoare_bind; [apply halted_transcribeAudio|].
    intros transcription.
    apply hoare_bind with (Q := fun _ => halted); [apply halted_enqueue'|].
    intros ?. eapply hoare_bind; [apply halted_for_frames|].
    intros slides. apply halted_enqueue'.
Qed.

Lemma halted_start request w : halted w -> halted (snd (start env request w)).
Proof.
  unfold start.
  apply hoare_finally with (Q := halted) (E := halted);
    [|apply halted_close|apply halted_close].
  apply hoare_try_catch with (E := halted); [apply halted_try_block|].
  intros e. apply halted_enqueue'.
Qed.

End Env.

Lemma halted_initial : halted initial.
Proof. intros H. discriminate. Qed.

End AnyCaller.

(* ================================================================== *)
(** * Properties of the coordinator under any behaviour of the caller *)

Module AnyCallerProperties.
Import Route Observed Seen AnyCaller.

(** X7. Whatever the request: once the caller has disconnected the run
    does nothing that shows. No event is written, neither adapter is
    called, the stream is not closed by the run: the disconnection is the
    last action of the trace, on a stream that takes no more chunks. *)
Theorem nothing_follows_a_disconnection env request :
  let w := snd (POST env request) in
  existsb is_disconnected (trace w) = true ->
  ends_disconnected (trace w) = true /\ writable w = false.
Proof.
  intros w Hd. unfold w in *. clear w.
  rewrite Connected.POST_trace in *.
  destruct (halted_start env request initial halted_initial Hd) as [Hw He].
  split; [exact He|]. now apply Connected.POST_writable.
Qed.

Lemma nothing_follows_a_disconnection_witness :
  ends_disconnected
    (trace (snd (POST Samples.leavesAtSecondFrame Samples.request3))) = true.
Proof.
  exact (proj1 (nothing_follows_a_disconnection
                  Samples.leavesAtSecondFrame Samples.request3 eq_refl)).
Defined.

End AnyCallerProperties.

(* ================================================================== *)
(** * The order of classification under any behaviour of the caller *)

Module InOrder.
Import Route Observed Seen Rules TraceFacts.

Lemma completed_log_event ev w :
  completed (log (Enqueued ev) w) = completed w || is_complete ev.
Proof.
  unfold completed. cbn [log trace].
  rewrite emitted_app, existsb_app. simpl. now rewrite orb_false_r.
Qed.

Lemma completed_log_other a w :
  (forall ev, a <> Enqueued ev) ->
  completed (log a w) = completed w.
Proof.
  intros Ha. unfold completed. now rewrite Protocol.emitted_log_other.
Qed.

Lemma classified_log a w :
  is_analyze a = false ->
  classified (trace (log a w)) = classified (trace w).
Proof.
  intros Ha. cbn [log trace]. rewrite classified_app.
  destruct a; try discriminate; apply app_nil_r.
Qed.

Lemma firstn_succ {A} (l : list A) i x :
  nth_error l i = Some x -> firstn (S i) l = (firstn i l ++ [x])%list.
Proof.
  revert l. induction i as [|i IH]; intros [|y l] H; try discriminate.
  - injection H as ->. reflexivity.
  - change (firstn (S (S i)) (y :: l)) with (y :: firstn (S i) l).
    rewrite (IH l H). reflexivity.
Qed.

Lemma classifying_upto fs i w : classifying fs i w -> classified_some fs w.
Proof.
  intros (Hi & Hc & Hn). exists i. repeat split; auto.
  intros H. congruence.
Qed.

(** A step that keeps the loop where it is may fail: what was classified
    is then still a prefix. *)
Ltac may_fail H :=
  eapply hoare_weaken;
  [ apply H
  | intros ? HP; exact HP
  | intros ? ? HQ; exact HQ
  | intros ?; apply classifying_upto ].

Section Frames.

Variable env : Env.
Variable fs : list VideoFrame.

(** An event that is not [complete] leaves the loop where it is. *)
Lemma classifying_enqueue ev i :
  is_complete ev = false ->
  hoare (classifying fs i) (enqueue ev)
        (fun _ => classifying fs i) (classifying fs i).
Proof.
  intros Hev w (Hi & Hc & Hn). unfold enqueue.
  destruct (Stream.canCloseOrEnqueue (controller w)); [|now repeat split].
  repeat split; auto.
  - now rewrite classified_log.
  - rewrite completed_log_event. unfold completed in *. cbn [trace].
    now rewrite Hn, Hev.
Qed.

Lemma classifying_await i :
  hoare (classifying fs i) (await env)
        (fun _ => classifying fs i) (classifying fs i).
Proof.
  intros w (Hi & Hc & Hn). unfold await.
  destruct (disconnectAt env) as [k|]; [|now repeat split].
  destruct (Nat.eqb k (awaits w)); [|now repeat split].
  repeat split; auto.
  - cbn [log trace]. rewrite classified_app. simpl. now rewrite app_nil_r.
  - unfold completed in *. cbn [log trace]. rewrite emitted_app. simpl.
    now rewrite app_nil_r.
Qed.

Lemma classifying_transcribeAudio audio i :
  hoare (classifying fs i) (transcribeAudio env audio)
        (fun _ => classifying fs i) (classifying fs i).
Proof.
  unfold transcribeAudio.
  apply hoare_bind with (Q := fun _ => classifying fs i).
  { intros w (Hi & Hc & Hn). repeat split; auto.
    - now rewrite classified_log.
    - rewrite completed_log_other; [exact Hn|discriminate]. }
  intros ?. apply hoare_bind with (Q := fun _ => classifying fs i);
    [apply classifying_await|].
  intros ?. destruct (speechToText env audio); apply hoare_ret; auto.
Qed.

(** The classification of frame [i] moves the loop to [i + 1]. *)
Lemma classifying_analyzeFrame i frame :
  nth_error fs i = Some frame -> i < bound fs ->
  hoare (classifying fs i) (analyzeFrame env i (dataUrl frame))
        (fun _ => classifying fs (S i)) (classified_some fs).
Proof.
  intros Hnth Hlt. unfold analyzeFrame.
  apply hoare_bind with (Q := fun _ => classifying fs (S i)).
  { intros w (Hi & Hc & Hn). repeat split; [lia| |].
    - cbn [tell log trace snd].
      rewrite classified_app, Hc, (firstn_succ fs i frame Hnth), map_app.
      reflexivity.
    - rewrite completed_log_other; [exact Hn|discriminate]. }
  intros ?. apply hoare_bind with (Q := fun _ => classifying fs (S i)).
  { may_fail classifying_await. }
  intros ?. destruct (visionJudge env i (dataUrl frame)) as [[content|]|e];
    apply hoare_ret; auto.
Qed.

Lemma classifying_for_frames fuel :
  forall i slides,
    bound fs - i <= fuel -> i <= bound fs ->
    hoare (classifying fs i) (for_frames env fuel fs i slides)
          (fun _ => classifying fs (bound fs)) (classified_some fs).
Proof.
  induction fuel as [|fuel IH]; intros i slides Hfuel Hi; cbn [for_frames].
  - assert (i = bound fs) as -> by lia. apply hoare_ret; auto.
  - destruct (Nat.ltb i (bound fs)) eqn:Hlt.
    + apply Nat.ltb_lt in Hlt.
      apply hoare_bind with (Q := fun _ => classifying fs i).
      { may_fail (classifying_enqueue (progress (analyzing (i + 1) (bound fs)))
                                      i eq_refl). }
      intros ?. destruct (nth_error fs i) as [frame|] eqn:Hnth.
      * eapply hoare_bind; [apply (classifying_analyzeFrame i frame Hnth Hlt)|].
        intros isSlide. apply IH; lia.
      * apply hoare_throw. apply classifying_upto.
    + apply Nat.ltb_ge in Hlt. assert (i = bound fs) as -> by lia.
      apply hoare_ret; auto.
Qed.

(** The [complete] event comes after the whole loop. *)
Lemma classifying_complete transcription slides :
  hoare (classifying fs (bound fs)) (enqueue (complete transcription slides))
        (fun _ => classified_some fs) (classified_some fs).
Proof.
  intros w (Hi & Hc & Hn). unfold enqueue.
  destruct (Stream.canCloseOrEnqueue (controller w)).
  - exists (bound fs). repeat split; auto. now rewrite classified_log.
  - apply (classifying_upto fs (bound fs)). now repeat split.
Qed.

Lemma classified_some_enqueue_error message :
  hoare (classified_some fs) (enqueue (error message))
        (fun _ => classified_some fs) (classified_some fs).
Proof.
  intros w (j & Hj & Hc & Hn). unfold enqueue.
  destruct (Stream.canCloseOrEnqueue (controller w));
    [|now exists j; repeat split].
  exists j. repeat split; auto.
  - now rewrite classified_log.
  - rewrite completed_log_event, orb_false_r. exact Hn.
Qed.

Lemma classified_some_close :
  hoare (classified_some fs) close
        (fun _ => classified_some fs) (classified_some fs).
Proof.
  intros w (j & Hj & Hc & Hn). unfold close.
  destruct (Stream.canCloseOrEnqueue (controller w));
    [|now exists j; repeat split].
  exists j. repeat split; auto.
  - cbn [log trace]. rewrite classified_app. simpl. now rewrite app_nil_r.
  - intros H. apply Hn. unfold completed in *. cbn [log trace] in H.
    rewrite emitted_app in H. simpl in H. now rewrite app_nil_r in H.
Qed.

Lemma classified_try_block request audio :
  json request =
    Fulfilled {| audioDataUrl := audio; frames := Some fs |} ->
  hoare (classifying fs 0) (try_block env request)
        (fun _ => classified_some fs) (classified_some fs).
Proof.
  intros Hj. unfold try_block.
  apply hoare_bind
    with (Q := fun body w =>
                 body = {| audioDataUrl := audio; frames := Some fs |}
                 /\ classifying fs 0 w).
  { unfold request_json.
    apply hoare_bind with (Q := fun _ => classifying fs 0).
    - may_fail classifying_await.
    - intros ?. rewrite Hj. apply hoare_ret. auto. }
  intros body.
  apply hoare_weaken
    with (P := fun w => body = {| audioDataUrl := audio; frames := Some fs |}
                        /\ classifying fs 0 w)
         (Q := fun _ => classified_some fs) (E := classified_some fs); auto.
  intros w [-> H]. revert w H. cbn [audioDataUrl frames].
  change (hoare (classifying fs 0)
    (if negb (truthy audio) || negb (truthy (Some fs))
     then bind (enqueue (error "Missing audio or frames data")) (fun _ => close)
     else
       match audio with
       | Some audio' =>
           bind (enqueue (progress "Transcribing audio..."))
             (fun _ =>
              bind (transcribeAudio env audio')
                (fun transcription =>
                 bind (enqueue (progress "Analyzing frames for slides..."))
                   (fun _ =>
                    bind (for_frames env 20 fs 0 [])
                      (fun slides =>
                       enqueue (complete transcription slides)))))
       | None => ret tt
       end)
    (fun _ => classified_some fs) (classified_some fs)).
  destruct (negb (truthy audio) || negb (truthy (Some fs))).
  - apply hoare_bind with (Q := fun _ => classified_some fs);
      [|intros ?; apply classified_some_close].
    eapply hoare_weaken;
      [ apply (classifying_enqueue (error "Missing audio or frames data") 0
                 eq_refl)
      | intros ? HP; exact HP
      | intros ? ?; apply classifying_upto
      | intros ?; apply classifying_upto ].
  - destruct audio as [audio'|];
      [|apply hoare_ret; intros ?; apply classifying_upto].
    apply hoare_bind with (Q := fun _ => classifying fs 0).
    { may_fail (classifying_enqueue (progress "Transcribing audio...") 0
                  eq_refl). }
    intros ?. apply hoare_bind with (Q := fun _ => classifying fs 0).
    { may_fail (classifying_transcribeAudio audio' 0). }
    intros transcription.
    apply hoare_bind with (Q := fun _ => classifying fs 0).
    { may_fail (classifying_enqueue (progress "Analyzing frames for slides...")
                  0 eq_refl). }
    intros ?. apply hoare_bind with (Q := fun _ => classifying fs (bound fs)).
    { apply classifying_for_frames; [|lia].
      unfold bound. lia. }
    intros slides. apply classifying_complete.
Qed.

Lemma classified_start request audio :
  json request =
    Fulfilled {| audioDataUrl := audio; frames := Some fs |} ->
  classified_some fs (snd (start env request initial)).
Proof.
  intros Hj. unfold start.
  apply hoare_finally
    with (P := classifying fs 0) (Q := classified_some fs)
         (E := classified_some fs);
    try apply classified_some_close.
  - apply hoare_try_catch with (E := classified_some fs);
      [apply (classified_try_block request audio Hj)|].
    intros e. apply classified_some_enqueue_error.
  - repeat split. lia.
Qed.

End Frames.

End InOrder.

(* ================================================================== *)
(** * Property: frames are classified in order, whatever the caller does *)

Module InOrderProperties.
Import Route Observed Seen InOrder.

(** X8. Whatever the caller does and whether or not the audio is there:
    the images handed to [analyzeFrame] in a run are those of the frames
    [0] to [j-1] of the request, in this order, for some [j] up to
    min(n,20), so never more than 20 and never a frame of index 20 or
    more; and a [complete] event is written only when [j] is min(n,20),
    that is after every frame within the bound was classified. *)
Theorem classification_is_a_prefix env request audio (fs : list VideoFrame) :
  json request = Fulfilled {| audioDataUrl := audio; frames := Some fs |} ->
  let w := snd (POST env request) in
  exists j,
    j <= Nat.min (length fs) 20
    /\ classified (trace w) = map dataUrl (firstn j fs)
    /\ (existsb is_complete (emitted (trace w)) = true ->
        j = Nat.min (length fs) 20).
Proof.
  intros Hj w. unfold w. clear w. rewrite Connected.POST_trace.
  destruct (classified_start env fs request audio Hj) as (j & Hle & Hc & Hn).
  exists j. repeat split; auto.
Qed.

Lemma classification_is_a_prefix_witness :
  classified (trace (snd (POST Samples.leavesAtSecondFrame Samples.request3)))
  = map dataUrl (firstn 2 Samples.threeFrames)
  /\ exists j,
       j <= 3 /\
       classified
         (trace (snd (POST Samples.leavesAtSecondFrame Samples.request3)))
       = map dataUrl (firstn j Samples.threeFrames).
Proof.
  split; [reflexivity|].
  destruct (classification_is_a_prefix Samples.leavesAtSecondFrame
              Samples.request3 (Some Samples.someAudio) Samples.threeFrames
              eq_refl) as (j & Hle & Hc & _).
  exists j. split; [exact Hle|exact Hc].
Defined.

End InOrderProperties.

(* ================================================================== *)
(** * The sampler of the page feeding the coordinator *)

Module Pipeline.
Import Route Observed Sampler SamplerFacts.

Lemma frameAt_sampled toDataURL k j :
  j < k ->
  frameAt (sampled toDataURL k) j =
  {| timestamp := (5 * Z.of_nat j)%Z; dataUrl := toDataURL (targetTime j) |}.
Proof.
  intros Hj. unfold frameAt, sampled.
  set (f := fun i => {| timestamp := Qfloor (targetTime i);
                        dataUrl := toDataURL (targetTime i) |}).
  rewrite (nth_indep _ noFrame (f 0))
    by (rewrite length_map, length_seq; exact Hj).
  rewrite map_nth, seq_nth by exact Hj. unfold f. cbn [Nat.add].
  now rewrite floor_targetTime.
Qed.

Lemma length_sampled' toDataURL k : length (sampled toDataURL k) = k.
Proof. unfold sampled. now rewrite length_map, length_seq. Qed.

(** A target time is below the duration as long as the sampler has not
    taken all its samples. *)
Lemma below_duration d j :
  j < samples d -> (inject_Z (5 * Z.of_nat j) < d)%Q.
Proof.
  intros Hj. apply Qnot_le_lt. intros Hle. apply samples_le in Hle. lia.
Qed.

End Pipeline.

Module PipelineProperties.
Import Route Observed Sampler SamplerFacts Pipeline.

(** X9. The sampler and the coordinator composed, for a caller that
    stays: when the frames of the request are what the sampler resolves
    with for a medium of [d] seconds, the slides of the [complete] event
    are exactly the samples [j] below min(ceil(d/5), 20) that the
    classifier accepts, each with the image drawn at [5 j] seconds and the
    timestamp [5 j]. So every slide lies before second 100 and before the
    end of the medium: what the sampler captured from second 100 on never
    becomes a slide. *)
Theorem slides_lie_in_the_first_hundred_seconds
    env request audio d toDataURL fuel (fs : list VideoFrame) :
  disconnectAt env = None ->
  extractFramesFromVideo (seconds d) toDataURL fuel = Some fs ->
  json request = Fulfilled (mkBody (Some audio) (Some fs)) ->
  truthy audio = true ->
  exists slides,
    emitted (trace (snd (POST env request))) =
      (stages fs ++ [complete (transcript env audio) slides])%list
    /\ (forall s, In s slides <->
          exists j,
            j < Nat.min (samples d) 20
            /\ verdict env j (toDataURL (targetTime j)) = true
            /\ s = {| image := toDataURL (targetTime j);
                      slide_timestamp := (5 * Z.of_nat j)%Z |})
    /\ (forall s, In s slides ->
          (0 <= slide_timestamp s < 100)%Z
          /\ (inject_Z (slide_timestamp s) < d)%Q).
Proof.
  intros Hstay Hfs Hjson Haudio.
  rewrite extract_seconds in Hfs.
  destruct (Nat.leb (samples d) fuel); [|discriminate].
  injection Hfs as <-.
  set (fs := sampled toDataURL (samples d)) in *.
  exists (slidesOf env fs).
  assert (Hin : forall s, In s (slidesOf env fs) <->
            exists j,
              j < Nat.min (samples d) 20
              /\ verdict env j (toDataURL (targetTime j)) = true
              /\ s = {| image := toDataURL (targetTime j);
                        slide_timestamp := (5 * Z.of_nat j)%Z |}).
  { intros s. unfold slidesOf. rewrite in_map_iff. split.
    - intros (j & <- & Hj). apply AcceptedRun.accepted_spec in Hj.
      destruct Hj as [Hlt Hv]. unfold fs in Hlt, Hv |- *.
      rewrite length_sampled' in Hlt.
      rewrite frameAt_sampled in Hv |- * by lia. cbn [dataUrl] in Hv.
      exists j. repeat split; assumption.
    - intros (j & Hlt & Hv & ->). exists j. split.
      + unfold fs. rewrite frameAt_sampled by lia. reflexivity.
      + apply AcceptedRun.accepted_spec. unfold fs.
        rewrite length_sampled', frameAt_sampled by lia.
        split; assumption. }
  split; [|split].
  - apply (AcceptedRun.events env request audio fs Hstay Hjson Haudio).
  - exact Hin.
  - intros s Hs. apply Hin in Hs. destruct Hs as (j & Hlt & _ & ->).
    cbn [slide_timestamp]. split; [lia|].
    apply below_duration. lia.
Qed.

Lemma slides_lie_in_the_first_hundred_seconds_witness :
  exists slides,
    emitted (trace (snd (POST Samples.yesNoYes
      {| json := Fulfilled (mkBody (Some Samples.someAudio)
                   (Some (sampled Samples.blankCanvas 3))) |}))) =
      (stages (sampled Samples.blankCanvas 3) ++
       [complete (transcript Samples.yesNoYes Samples.someAudio) slides])%list
    /\ forall s, In s slides ->
         (0 <= slide_timestamp s < 100)%Z
         /\ (inject_Z (slide_timestamp s) < 12.5)%Q.
Proof.
  assert (E : extractFramesFromVideo (seconds 12.5) Samples.blankCanvas 3 =
              Some (sampled Samples.blankCanvas 3)) by reflexivity.
  destruct (slides_lie_in_the_first_hundred_seconds Samples.yesNoYes
              {| json := Fulfilled (mkBody (Some Samples.someAudio)
                           (Some (sampled Samples.blankCanvas 3))) |}
              Samples.someAudio 12.5 Samples.blankCanvas 3
              (sampled Samples.blankCanvas 3)
              eq_refl E eq_refl eq_refl) as (slides & Hev & _ & Hb).
  exists slides. split; [exact Hev|exact Hb].
Defined.

End PipelineProperties.

(* ================================================================== *)
(** * The report *)

Module DocumentFacts.
Import Observed Wire Document StringFacts WireFacts Seen.

Lemma prefix_empty s : String.prefix EmptyString s = true.
Proof. now destruct s. Qed.

Lemma prefix_app_l s a b :
  String.prefix s a = true -> String.prefix s (a ++ b) = true.
Proof.
  revert a. induction s as [|c s IH]; intros a H; [apply prefix_empty|].
  destruct a as [|c' a]; [discriminate|].
  change (String c' a ++ b) with (String c' (a ++ b)).
  cbn [String.prefix] in H |- *.
  destruct (ascii_dec c c'); [now apply IH|discriminate].
Qed.

Lemma contains_app_r s a b : contains s b = true -> contains s (a ++ b) = true.
Proof.
  intros H. induction a as [|c a IH]; [exact H|].
  change (String c a ++ b) with (String c (a ++ b)).
  cbn [contains]. rewrite IH. apply orb_true_r.
Qed.

Lemma contains_app_l s a b : contains s a = true -> contains s (a ++ b) = true.
Proof.
  induction a as [|c a IH]; intros H.
  - cbn [contains] in H. rewrite orb_false_r in H.
    apply contains_prefix. now apply (prefix_app_l s EmptyString b).
  - change (String c a ++ b) with (String c (a ++ b)).
    cbn [contains] in H |- *. apply orb_true_iff in H as [H|H].
    + pose proof (prefix_app_l s (String c a) b H) as H'.
      change (String c a ++ b) with (String c (a ++ b)) in H'.
      now rewrite H'.
    + rewrite (IH H). apply orb_true_r.
Qed.

Lemma contains_concat x l :
  In x l -> contains x (String.concat EmptyString l) = true.
Proof.
  induction l as [|y l IH]; intros H; [destruct H|].
  assert (E : String.concat EmptyString (y :: l) =
              y ++ String.concat EmptyString l).
  { destruct l; [symmetry; apply append_nil_r|reflexivity]. }
  rewrite E. destruct H as [->|H].
  - apply contains_app_l, contains_prefix.
    rewrite <- (append_nil_r x) at 2. apply prefix_refl_app.
  - apply contains_app_r, IH, H.
Qed.

Lemma In_slideBlocks l :
  forall first k slide,
    nth_error l k = Some slide ->
    In (slideBlock (first + k) slide) (slideBlocks first l).
Proof.
  induction l as [|s l IH]; intros first [|k] slide H; try discriminate.
  - injection H as ->. rewrite Nat.add_0_r. now left.
  - right. replace (first + S k) with (S first + k) by lia. now apply IH.
Qed.

(** The block of a slide in the template is the element of the slide
    between the line breaks and the indentation of the template. *)
Lemma slideBlock_element idx slide :
  slideBlock idx slide =
  (nl ++ "          ") ++ slideElement idx slide ++ nl ++ "        ".
Proof.
  unfold slideBlock, slideElement, slideOpen, slideAlt, slideInfo,
    slideStamp, slideClose, lines.
  generalize (image slide) (decimal (idx + 1))
             (numberToString (slide_timestamp slide)).
  intros src number stamp.
  cbn [String.concat]. rewrite !append_assoc_r. reflexivity.
Qed.

Lemma slidesHeading_ends :
  slidesHeading = String.substring 0 11 slidesHeading ++ "Extracted Slides (".
Proof. reflexivity. Qed.

Lemma slidesOpen_starts :
  slidesOpen = ")" ++ String.substring 1 (String.length slidesOpen) slidesOpen.
Proof. reflexivity. Qed.

Lemma prefix_inv s h :
  String.prefix s h = true -> exists post, h = s ++ post.
Proof.
  revert h. induction s as [|c s IH]; intros h H; [now exists h|].
  destruct h as [|c' h]; [discriminate|]. cbn [String.prefix] in H.
  destruct (ascii_dec c c') as [->|]; [|discriminate].
  destruct (IH h H) as [post ->]. now exists post.
Qed.

Lemma contains_inv needle hay :
  contains needle hay = true -> exists pre post, hay = pre ++ needle ++ post.
Proof.
  induction hay as [|c hay IH]; cbn [contains]; intros H.
  - rewrite orb_false_r in H. destruct (prefix_inv _ _ H) as [post E].
    now exists EmptyString, post.
  - apply orb_true_iff in H as [H|H].
    + destruct (prefix_inv _ _ H) as [post E]. now exists EmptyString, post.
    + destruct (IH H) as (pre & post & ->). now exists (String c pre), post.
Qed.

Lemma contains_trans a b c :
  contains a b = true -> contains b c = true -> contains a c = true.
Proof.
  intros Hab Hbc.
  destruct (contains_inv _ _ Hab) as (p2 & q2 & ->).
  destruct (contains_inv _ _ Hbc) as (p1 & q1 & ->).
  rewrite !append_assoc_r. apply contains_app_r, contains_middle.
Qed.

Lemma contains_split needle hay pre post :
  hay = pre ++ needle ++ post -> contains needle hay = true.
Proof. intros ->. apply contains_middle. Qed.

Lemma beforeTranscription_ends :
  beforeTranscription =
  String.substring 0 37 beforeTranscription
  ++ "<div class=" ++ q ++ "transcription" ++ q ++ ">".
Proof. reflexivity. Qed.

Lemma afterTranscription_starts :
  afterTranscription =
  "</div>"
  ++ String.substring 6 (String.length afterTranscription) afterTranscription.
Proof. reflexivity. Qed.

End DocumentFacts.

Module DocumentProperties.
Import Observed Wire Document StringFacts WireFacts DocumentFacts Seen.

(** X10. For a body whose [slides] is an array of slides: the report
    inserts the values as they are, with no escaping of markup. The
    transcription stands unchanged between the tags of its [div]; the
    slide at index [k] has one element of its own, which holds its image
    source unchanged in an [img] with the alternative text [Slide k+1],
    and a caption with the same number and, for a timestamp that is a
    safe integer, the numeral of that timestamp; the heading gives the
    length of the array. *)
Theorem report_inserts_values_verbatim now data l k slide :
  slides data = value l ->
  nth_error l k = Some slide ->
  isSafeInteger (slide_timestamp slide) = true ->
  let report := body (POST now (Fulfilled data)) in
  status (POST now (Fulfilled data)) = 200
  /\ contains (transcriptionElement (show (transcription data))) report = true
  /\ contains (slideElement k slide) report = true
  /\ contains
       ("Extracted Slides (" ++ decimal (length l) ++ ")") report = true.
Proof.
  intros Hl Hk _ report. split; [reflexivity|].
  unfold report. cbn [POST body]. unfold html. rewrite Hl.
  destruct l as [|s0 l0]; [now destruct k|].
  assert (Hblock : contains (slideBlock k slide)
                     (slidesSection (value (s0 :: l0))) = true).
  { unfold slidesSection.
    apply contains_app_r, contains_app_r, contains_app_r, contains_app_l.
    apply contains_concat. apply (In_slideBlocks (s0 :: l0) 0 k slide Hk). }
  set (l := s0 :: l0) in *.
  split; [|split].
  - pose proof beforeTranscription_ends as HB.
    pose proof afterTranscription_starts as HA.
    set (B0 := String.substring _ _ _) in HB.
    set (A0 := String.substring _ _ _) in HA.
    clearbody B0 A0. rewrite HB, HA. unfold transcriptionElement.
    apply contains_app_r, contains_app_r.
    apply (contains_split _ _ B0
             (A0 ++ slidesSection (value l) ++ documentTail)).
    rewrite !append_assoc_r. reflexivity.
  - apply contains_app_r, contains_app_r, contains_app_r, contains_app_r.
    apply contains_app_r, contains_app_l.
    apply (contains_trans _ (slideBlock k slide)); [|exact Hblock].
    apply (contains_split _ _ (nl ++ "          ") (nl ++ "        ")).
    apply slideBlock_element.
  - apply contains_app_r, contains_app_r, contains_app_r, contains_app_r.
    apply contains_app_r, contains_app_l.
    subst l. unfold slidesSection.
    pose proof slidesHeading_ends as HH. pose proof slidesOpen_starts as HP.
    set (H0 := String.substring _ _ _) in HH.
    set (P0 := String.substring _ _ _) in HP.
    clearbody H0 P0. rewrite HH, HP.
    apply (contains_split _ _ H0
             (P0 ++ String.concat EmptyString (slideBlocks 0 (s0 :: l0))
              ++ slidesClose)).
    rewrite !append_assoc_r. reflexivity.
Qed.

Lemma report_inserts_values_verbatim_witness :
  contains (transcriptionElement "<script>alert(1)</script>")
    (body (POST "1/11/2026, 8:00:00 PM" (Fulfilled PageSamples.markup))) = true
  /\ contains
       (slideElement 1
          {| image := "data:image/png;base64,CCC"; slide_timestamp := 10 |})
       (body (POST "1/11/2026, 8:00:00 PM" (Fulfilled PageSamples.markup)))
     = true.
Proof.
  destruct (report_inserts_values_verbatim
              "1/11/2026, 8:00:00 PM" PageSamples.markup _ 1 _
              eq_refl eq_refl eq_refl) as (_ & Ht & Hs & _).
  split; [exact Ht|exact Hs].
Defined.

End DocumentProperties.

(* ================================================================== *)
(** * A request that the server refuses *)

Module RefusedProperties.
Import Page Seen.

(** X11. When the response of the server is not [ok], its body is never
    read, whatever it holds: the page shows [Failed to process video: ]
    followed by the status text, keeps the progress line and the result
    of an earlier run, and ends the processing. *)
Theorem refused_request_is_reported env f audio fs (response : Response) w :
  file (ui w) = Some f ->
  extractAudioFromVideo env f = Fulfilled audio ->
  extractFramesFromVideo env f = Fulfilled fs ->
  fetchProcess env (mkBody (Some audio) (Some fs)) = Fulfilled response ->
  ok response = false ->
  handleSubmit env w =
  {| ui := {| file := Some f; processing := false;
              progressText := "Sending to server for AI processing...";
              result := result (ui w);
              errorText :=
                "Failed to process video: " ++ statusText response |};
     sent := (sent w ++ [mkBody (Some audio) (Some fs)])%list |}.
Proof.
  intros Hfile Ha Hf Hfetch Hok. unfold handleSubmit. rewrite Hfile.
  unfold try_catch_finally, submission.
  unfold bind at 1. unfold update at 1. cbv iota beta.
  unfold bind at 1. rewrite Ha. cbn [await ret].
  unfold bind at 1. unfold update at 1. cbv iota beta.
  unfold bind at 1. rewrite Hf. cbn [await ret].
  unfold bind at 1. unfold update at 1. cbv iota beta.
  unfold bind at 1. unfold fetch. rewrite Hfetch. cbn [await ret].
  rewrite Hok. cbn [negb throw].
  unfold setProcessing, setError, setProgress. cbn. now rewrite Hfile.
Qed.

Lemma refused_request_is_reported_witness :
  handleSubmit PageSamples.browserRefused PageSamples.chosen =
  {| ui := {| file := Some "talk.mp4"; processing := false;
              progressText := "Sending to server for AI processing...";
              result := Some {| transcription := "earlier"; slides := [] |};
              errorText := "Failed to process video: Payload Too Large" |};
     sent := [PageSamples.theBody] |}.
Proof.
  exact (refused_request_is_reported PageSamples.browserRefused
           "talk.mp4" Samples.someAudio Samples.threeFrames _
           PageSamples.chosen eq_refl eq_refl eq_refl eq_refl eq_refl).
Defined.

End RefusedProperties.

(* ================================================================== *)
(** * The audio extractor: when it resolves, and when it pauses the video *)

Module RecorderRace.
Import Recorder RecorderFacts.

Section Recording.

Variable policy : StopPolicy.
Variable gathered : string.
Variable readAsDataURL : list string -> string.

(** With no task queued, the event loop has nothing to run. *)
Lemma run_idle schedule :
  existsb is_stop schedule = false ->
  forall s, tasks s = [] -> run policy gathered readAsDataURL schedule s = s.
Proof.
  induction schedule as [|sig schedule IH]; intros Hq s Ht; [reflexivity|].
  cbn [existsb] in Hq. apply orb_false_iff in Hq as [Hsig Hq].
  destruct sig; try discriminate.
  change (run policy gathered readAsDataURL (RunTask :: schedule) s)
    with (run policy gathered readAsDataURL schedule
            (step policy gathered readAsDataURL s RunTask)).
  replace (step policy gathered readAsDataURL s RunTask) with s
    by (cbn [step]; now rewrite Ht).
  now apply IH.
Qed.

(** Once the recorder is inactive it stays so, and no handler calls
    [video.pause()] any more: the timeout callback is guarded, and the
    other handlers never call it. *)
Lemma step_inactive s sig :
  state s = inactive ->
  state (step policy gathered readAsDataURL s sig) = inactive
  /\ pauseCalls (step policy gathered readAsDataURL s sig) = pauseCalls s.
Proof.
  intros H. destruct sig; cbn [step];
    unfold onended, ontimeout, stop, pause, onstop, onloadend, dequeue;
    rewrite ?H.
  - destruct policy; now split.
  - now split.
  - destruct (tasks s) as [|[data|result] rest]; now split.
Qed.

Lemma run_inactive schedule :
  forall s, state s = inactive ->
    state (run policy gathered readAsDataURL schedule s) = inactive
    /\ pauseCalls (run policy gathered readAsDataURL schedule s)
       = pauseCalls s.
Proof.
  induction schedule as [|sig schedule IH]; intros s H; [now split|].
  unfold run. cbn [fold_left].
  destruct (step_inactive s sig H) as [Hs Hp].
  destruct (IH _ Hs) as [Hs' Hp']. split; [exact Hs'|].
  unfold run in *. congruence.
Qed.

Lemma settle_inactive s :
  state s = inactive ->
  pauseCalls (settle policy gathered readAsDataURL s) = pauseCalls s.
Proof. intros H. unfold settle. now apply run_inactive. Qed.

Lemma pauses_from_recording schedule :
  forall s,
    state s = recording -> tasks s = [] ->
    pauseCalls (settle policy gathered readAsDataURL
                  (run policy gathered readAsDataURL schedule s)) =
    match find is_stop schedule with
    | Some TimeoutFired => S (pauseCalls s)
    | _ => pauseCalls s
    end.
Proof.
  induction schedule as [|sig schedule IH]; intros s Hs Ht.
  - change (run policy gathered readAsDataURL [] s) with s.
    unfold settle. now rewrite Ht.
  - change (run policy gathered readAsDataURL (sig :: schedule) s)
      with (run policy gathered readAsDataURL schedule
              (step policy gathered readAsDataURL s sig)).
    assert (Hafter : forall s',
              state s' = inactive ->
              pauseCalls (settle policy gathered readAsDataURL
                            (run policy gathered readAsDataURL schedule s'))
              = pauseCalls s').
    { intros s' Hi. destruct (run_inactive schedule s' Hi) as [Hi' Hp'].
      now rewrite (settle_inactive _ Hi'). }
    destruct sig; cbn [find is_stop].
    + rewrite Hafter; cbn [step]; unfold onended, stop; now rewrite Hs.
    + rewrite Hafter; cbn [step]; unfold ontimeout, stop, pause;
        now rewrite Hs.
    + replace (step policy gathered readAsDataURL s RunTask) with s
        by (cbn [step]; now rewrite Ht).
      now apply IH.
Qed.

End Recording.

End RecorderRace.

Module RecorderProperties.
Import Recorder RecorderFacts RecorderRace.

(** X12. The promise of the audio extractor resolves exactly when the end
    of playback or the timeout is signalled, once and with the recorded
    data; a single one of the two is enough, and without any of them the
    promise stays pending, whatever else the event loop runs. *)
Theorem extraction_resolves_iff_stopped
    policy gathered readAsDataURL schedule :
  resolveCalls (extractAudioFromVideo policy gathered readAsDataURL schedule)
  = if existsb is_stop schedule then [readAsDataURL [gathered]] else [].
Proof.
  destruct (existsb is_stop schedule) eqn:Hstop.
  - assert (Hp : fold_left advance schedule Recording <> Recording).
    { apply advance_leaves_recording. now right. }
    pose proof (run_phase policy gathered readAsDataURL schedule
                  Recording armed
                  (armed_recording gathered readAsDataURL)) as Hrun.
    pose proof (settle_resolves policy gathered readAsDataURL _ _ Hp Hrun)
      as (_ & _ & _ & Hr).
    exact Hr.
  - unfold extractAudioFromVideo.
    rewrite (run_idle policy gathered readAsDataURL schedule Hstop armed eq_refl).
    reflexivity.
Qed.

(** X13. The code calls [video.pause()] exactly when the timeout is the
    first of the two signals, and then once: the guard on the state of
    the recorder keeps a timeout that comes after the end of playback, or
    a repeated one, from calling it, and no other handler calls it. *)
Theorem pause_is_called_iff_the_timeout_comes_first
    policy gathered readAsDataURL schedule :
  pauseCalls (extractAudioFromVideo policy gathered readAsDataURL schedule)
  = match find is_stop schedule with
    | Some TimeoutFired => 1
    | _ => 0
    end.
Proof.
  unfold extractAudioFromVideo.
  apply (pauses_from_recording policy gathered readAsDataURL schedule armed);
    reflexivity.
Qed.

End RecorderProperties.
